(** * The grid engine of x2048 (src/x2048/2048.cc, class [x2048::Grid])

    A shallow embedding of the [Grid] class: the cell buffer, the bounds-checked
    accessors, the slide/merge sweep, score bookkeeping, the lose-condition
    check and the random tile placement, followed by the properties that the
    specification states about them. *)

(** The later parts of the file go on to the rest of the program: one move
    of the game loop ([Game::render_game]), the helpers of the screen
    ([CALC_CENTER_BEGIN], [get_max], [get_string_width], [wfill]) and the
    drawing of the grid ([Game::draw_grid], [Game::draw_number]). *)

From Stdlib Require Import String Ascii DecimalString.
From Stdlib Require Import ZArith Lia Bool List ZifyBool.
From stdpp Require Import base list.
Import ListNotations.
Local Open Scope Z_scope.

(** ** Machine integers

    [int] is 32 bits, [i64] is 64 bits, both two's complement.  Values live in
    [Z].  Where the source narrows a value ([slide] returns a cell as an
    [int]) or does [i64] arithmetic on cell values and scores, the result goes
    through [wrap32] / [wrap64].  Coordinates and buffer indices are written
    without wrapping: on a well-formed grid (see [wf]) they stay far inside
    [int]. *)

Definition INT_MAX : Z := 2 ^ 31 - 1.
Definition INT_MIN : Z := - 2 ^ 31.
Definition I64_MAX : Z := 2 ^ 63 - 1.
Definition I64_MIN : Z := - 2 ^ 63.

Definition wrap32 (z : Z) : Z := (z + 2 ^ 31) mod 2 ^ 32 - 2 ^ 31.
Definition wrap64 (z : Z) : Z := (z + 2 ^ 63) mod 2 ^ 64 - 2 ^ 63.

Definition in_int (z : Z) : Prop := INT_MIN <= z <= INT_MAX.
Definition in_i64 (z : Z) : Prop := I64_MIN <= z <= I64_MAX.

(** ** Failures

    [OutOfRange] is [std::out_of_range], the only exception the class throws.
    [BadAccess] stands for a load or store outside the allocated buffer (the
    source has no check there), [Timeout] for a loop of the model that ran out
    of fuel. *)

Inductive fault : Type := OutOfRange | BadAccess | Timeout.

Inductive res (A : Type) : Type :=
| Ok (a : A)
| Fail (e : fault).
Arguments Ok {A} a.
Arguments Fail {A} e.

Definition bind {A B : Type} (m : res A) (k : A -> res B) : res B :=
  match m with
  | Ok a => k a
  | Fail e => Fail e
  end.

Notation "'do' x <- m ; k" := (bind m (fun x => k))
  (at level 10, x pattern, m at level 100, k at level 200).

(** [for (int i = 0; i < maxi; i++) body] without [break]. *)
Fixpoint for_list {S : Type} (body : Z -> S -> res S) (idx : list Z) (s : S) : res S :=
  match idx with
  | [] => Ok s
  | i :: idx' => do s' <- body i s; for_list body idx' s'
  end.

Definition for_loop {S : Type} (maxi : Z) (body : Z -> S -> res S) (s : S) : res S :=
  for_list body (seqZ 0 maxi) s.

(** The same loop when the body may leave the function: [Some r] is
    [return r] (or, for [is_full], the [break]). *)
Fixpoint for_return {R : Type} (body : Z -> res (option R)) (idx : list Z) : res (option R) :=
  match idx with
  | [] => Ok None
  | i :: idx' =>
      do o <- body i;
      match o with
      | Some r => Ok (Some r)
      | None => for_return body idx'
      end
  end.

(** ** The grid *)

Inductive DIRECTION : Type := UP | DOWN | RIGHT | LEFT.

Record Grid : Type := mkGrid {
  mWidth : Z;
  mHeight : Z;
  mGrid : list Z;
  mScore : Z
}.

Definition width (g : Grid) : Z := mWidth g.
Definition height (g : Grid) : Z := mHeight g.
Definition score (g : Grid) : Z := mScore g.

Definition set_cells (g : Grid) (cells : list Z) : Grid :=
  mkGrid (mWidth g) (mHeight g) cells (mScore g).

Definition set_score (g : Grid) (s : Z) : Grid :=
  mkGrid (mWidth g) (mHeight g) (mGrid g) s.

(** [mGrid[i]] read through a pointer or a reference. *)
Definition load (g : Grid) (i : Z) : res Z :=
  if i <? 0 then Fail BadAccess
  else match mGrid g !! Z.to_nat i with
       | Some v => Ok v
       | None => Fail BadAccess
       end.

(** [mGrid[i] = v]. *)
Definition store (g : Grid) (i : Z) (v : Z) : res Grid :=
  if (i <? 0) || (Z.of_nat (length (mGrid g)) <=? i) then Fail BadAccess
  else Ok (set_cells g (<[Z.to_nat i := v]> (mGrid g))).

(** [storage_t &get(int x, int y)]: the reference is the index of the cell. *)
Definition get (g : Grid) (x y : Z) : res Z :=
  if (x >=? mWidth g) || (x <? 0) || (y <? 0) || (y >=? mHeight g)
  then Fail OutOfRange
  else Ok (x + y * mWidth g).

(** [storage_t get(int x, int y) const]. *)
Definition get_const (g : Grid) (x y : Z) : res Z :=
  if (x >=? mWidth g) || (x <? 0) || (y <? 0) || (y >=? mHeight g)
  then Fail OutOfRange
  else load g (x + y * mWidth g).

Definition put (g : Grid) (x y : Z) (val : Z) : res Grid :=
  do r <- get g x y; store g r val.

(** [Grid(w, h)] followed by [reset()]: a zeroed buffer and a zero score. *)
Definition reset (w h : Z) : Grid :=
  mkGrid w h (replicate (Z.to_nat (w * h)) 0) 0.

Definition is_full (g : Grid) : res bool :=
  do have_blank <-
    for_return (fun i => do v <- load g i; Ok (if v =? 0 then Some tt else None))
               (seqZ 0 (mWidth g * mHeight g));
  Ok (match have_blank with Some _ => false | None => true end).

(** [a && cur == get(..)]: the right operand is evaluated only when [a]. *)
Definition and_eq (a : bool) (cur : Z) (rhs : res Z) : res bool :=
  if a then do v <- rhs; Ok (cur =? v) else Ok false.

Definition is_fail_cell (g : Grid) (x y : Z) : res (option bool) :=
  do cur <- get_const g x y;
  do c <- and_eq (y >? 0) cur (get_const g x (y - 1));
  if c then Ok (Some false) else
  do c <- and_eq (y <? width g - 1) cur (get_const g x (y + 1));
  if c then Ok (Some false) else
  do c <- and_eq (x >? 0) cur (get_const g (x - 1) y);
  if c then Ok (Some false) else
  do c <- and_eq (x <? height g - 1) cur (get_const g (x + 1) y);
  if c then Ok (Some false) else
  Ok None.

Definition is_fail (g : Grid) : res bool :=
  do full <- is_full g;
  if negb full then Ok false else
  do r <- for_return (fun x => for_return (fun y => is_fail_cell g x y)
                                          (seqZ 0 (height g)))
                     (seqZ 0 (width g));
  match r with
  | Some b => Ok b
  | None => Ok true
  end.

Definition __get_dire (g : Grid) (x y : Z) (dire : DIRECTION) (coord : Z) : res Z :=
  match dire with
  | UP => get g x (y - coord)
  | DOWN => get g x (y + coord)
  | RIGHT => get g (x + coord) y
  | LEFT => get g (x - coord) y
  end.

(** The body of the [try] block of [slide] for one value of [coord]:
    [Ok (Some (g', r))] is [return r], [Ok None] falls through to [coord++],
    [Fail OutOfRange] is a [throw], from [__get_dire] or from the block. *)
Definition slide_try (g : Grid) (cur : Z) (x y : Z) (dire : DIRECTION)
    (skip_merge : bool) (coord : Z) : res (option (Grid * Z)) :=
  do target <- __get_dire g x y dire coord;
  do tv <- load g target;
  if negb (tv =? 0) then
    if skip_merge then Fail OutOfRange
    else
      do cv <- load g cur;
      if tv =? cv then
        do g1 <- store g target (wrap64 (tv * 2));
        do g2 <- store g1 cur 0;
        do r <- load g2 target;
        Ok (Some (g2, wrap32 r))
      else Fail OutOfRange
  else Ok None.

(** The [catch (std::out_of_range &)] handler. *)
Definition slide_catch (g : Grid) (cur : Z) (x y : Z) (dire : DIRECTION)
    (coord : Z) : res (Grid * Z) :=
  if coord >? 1 then
    do target <- __get_dire g x y dire (coord - 1);
    do cv <- load g cur;
    do g1 <- store g target cv;
    do g2 <- store g1 cur 0;
    Ok (g2, 0)
  else Ok (g, -1).

(** [while (true) { try {..} catch {..} coord++; }] *)
Fixpoint slide_loop (fuel : nat) (g : Grid) (cur : Z) (x y : Z) (dire : DIRECTION)
    (skip_merge : bool) (coord : Z) : res (Grid * Z) :=
  match fuel with
  | O => Fail Timeout
  | S fuel' =>
      match slide_try g cur x y dire skip_merge coord with
      | Ok (Some ret) => Ok ret
      | Ok None => slide_loop fuel' g cur x y dire skip_merge (coord + 1)
      | Fail OutOfRange => slide_catch g cur x y dire coord
      | Fail e => Fail e
      end
  end.

(** The scan leaves the grid after at most [max width height] steps. *)
Definition slide_fuel (g : Grid) : nat := S (Z.to_nat (Z.max (mWidth g) (mHeight g))).

Definition slide (g : Grid) (x y : Z) (dire : DIRECTION) (skip_merge : bool)
    : res (Grid * Z) :=
  do cur <- get g x y;
  do cv <- load g cur;
  if cv =? 0 then Ok (g, -1)
  else slide_loop (slide_fuel g) g cur x y dire skip_merge 1.

(** The locals of [only_merge], with the grid they act on. *)
Record sweep : Type := mkSweep {
  sw_grid : Grid;
  new_score : Z;
  skip_merge : bool;
  have_motions : bool
}.

Definition clear_skip (s : sweep) : sweep :=
  mkSweep (sw_grid s) (new_score s) false (have_motions s).

(** The body shared by the four inner loops of [only_merge]. *)
Definition sweep_cell (dire : DIRECTION) (x y : Z) (s : sweep) : res sweep :=
  do ret <- slide (sw_grid s) x y dire (skip_merge s);
  let '(g', r) := ret in
  let skip' := if r >? 0 then true else skip_merge s in
  let score' := if r >? 0 then wrap64 (new_score s + r) else new_score s in
  let motions' := if r >=? 0 then true else have_motions s in
  Ok (mkSweep g' score' skip' motions').

Definition only_merge_sweep (g : Grid) (dire : DIRECTION) : res sweep :=
  let s0 := mkSweep g 0 false false in
  match dire with
  | UP =>
      for_loop (width g) (fun x s =>
        for_loop (height g) (fun y s => sweep_cell dire x y s) (clear_skip s)) s0
  | DOWN =>
      for_loop (width g) (fun x s =>
        for_loop (height g) (fun y_i s =>
          let y := height g - 1 - y_i in sweep_cell dire x y s) (clear_skip s)) s0
  | RIGHT =>
      for_loop (height g) (fun y s =>
        for_loop (width g) (fun x_i s =>
          let x := width g - 1 - x_i in sweep_cell dire x y s) (clear_skip s)) s0
  | LEFT =>
      for_loop (height g) (fun y s =>
        for_loop (width g) (fun x s => sweep_cell dire x y s) (clear_skip s)) s0
  end.

(** [only_merge]: the grid afterwards, the returned value and what is written
    to [*have_motions_out]. *)
Definition only_merge (g : Grid) (dire : DIRECTION) : res (Grid * Z * bool) :=
  do s <- only_merge_sweep g dire;
  Ok (sw_grid s, if have_motions s then new_score s else -1, have_motions s).

Definition merge (g : Grid) (dire : DIRECTION) : res (Grid * Z * bool) :=
  do ret <- only_merge g dire;
  let '(g', increase, motions) := ret in
  let g'' := if increase >? 0 then set_score g' (wrap64 (mScore g' + increase)) else g' in
  Ok (g'', increase, motions).

(** ** Random placement

    [x2048::rand] is a process-wide [std::default_random_engine]; a
    [std::uniform_int_distribution<int>(a, b)] applied to it yields a number
    and advances the engine.  The engine is kept abstract. *)

Section Random.

Variable engine : Type.
Variable uniform_int : Z -> Z -> engine -> Z * engine.

(** The process-wide state [generate] depends on: the engine and the
    function-local [static pos_dist], constructed by the first call. *)
Record statics : Type := mkStatics {
  rand : engine;
  pos_dist : option (Z * Z)
}.

Fixpoint generate_loop (fuel : nat) (d : Z * Z) (targetval : Z) (g : Grid)
    (rng : engine) : res (Grid * engine) :=
  match fuel with
  | O => Fail Timeout
  | S fuel' =>
      let '(p, rng') := uniform_int (fst d) (snd d) rng in
      do val <- load g p;
      if val =? 0 then
        do g' <- store g p targetval; Ok (g', rng')
      else generate_loop fuel' d targetval g rng'
  end.

Definition generate (fuel : nat) (targetval : Z) (g : Grid) (st : statics)
    : res (Grid * bool * statics) :=
  let d := match pos_dist st with
           | Some d => d
           | None => (0, mWidth g * mHeight g - 1)
           end in
  do full <- is_full g;
  if full then Ok (g, true, mkStatics (rand st) (Some d))
  else
    do ret <- generate_loop fuel d targetval g (rand st);
    let '(g', rng') := ret in
    Ok (g', false, mkStatics rng' (Some d)).

Definition false_1i4 (rng : engine) : Z * engine := uniform_int 0 3 rng.

Definition with_rand (st : statics) (rng : engine) : statics :=
  mkStatics rng (pos_dist st).

Definition generate_randomly (fuel : nat) (g : Grid) (st : statics)
    : res (Grid * bool * statics) :=
  let '(f1, r1) := false_1i4 (rand st) in
  if f1 =? 0 then
    let '(f2, r2) := false_1i4 r1 in
    if f2 =? 0 then
      let '(f3, r3) := false_1i4 r2 in
      if f3 =? 0 then generate fuel 16 g (with_rand st r3)
      else generate fuel 8 g (with_rand st r3)
    else generate fuel 4 g (with_rand st r2)
  else generate fuel 2 g (with_rand st r1).



End Random.

Arguments rand {engine} _.
Arguments pos_dist {engine} _.
Arguments mkStatics {engine} _ _.

(** ** Well-formed grids

    What [reset] establishes and every public operation keeps: non-negative
    dimensions whose product is an [int], a buffer of exactly that many
    cells, and values that are [i64]s. *)

Record wf (g : Grid) : Prop := mkWf {
  wf_width : 0 <= mWidth g;
  wf_height : 0 <= mHeight g;
  wf_area : mWidth g * mHeight g <= INT_MAX;
  wf_len : Z.of_nat (length (mGrid g)) = mWidth g * mHeight g;
  wf_cells : Forall in_i64 (mGrid g);
  wf_score : in_i64 (mScore g)
}.

Definition in_bounds (g : Grid) (x y : Z) : Prop :=
  0 <= x < mWidth g /\ 0 <= y < mHeight g.

Definition lsum (l : list Z) : Z := foldr Z.add 0 l.
Definition labs (l : list Z) : Z := foldr (fun c a => Z.abs c + a) 0 l.

(** The sum of all cell values, and of their magnitudes. *)
Definition sum_cells (g : Grid) : Z := lsum (mGrid g).
Definition sum_abs (g : Grid) : Z := labs (mGrid g).

(** Two grids of the same dimensions and score. *)
Definition same_shape (g g' : Grid) : Prop :=
  mWidth g' = mWidth g /\ mHeight g' = mHeight g /\ mScore g' = mScore g.

(** Equal as 64-bit quantities. *)
Definition cong64 (a b : Z) : Prop := exists k, a = b + 2 ^ 64 * k.

(** What one [slide] keeps: the shape, well-formedness, an [int] result, the
    sum of the cells as a 64-bit quantity, and the sum itself as long as no
    doubling can leave the [i64] range. *)
Definition slide_post (g g' : Grid) (r : Z) : Prop :=
  same_shape g g' /\ wf g' /\ in_int r /\
  cong64 (sum_cells g') (sum_cells g) /\
  (sum_abs g <= I64_MAX -> sum_cells g' = sum_cells g /\ sum_abs g' = sum_abs g).

(** The loop invariant of [slide]: every cell passed so far is on the grid and
    empty. *)
Definition scanned (g : Grid) (x y : Z) (d : DIRECTION) (coord : Z) : Prop :=
  forall c, 1 <= c < coord ->
    exists t, __get_dire g x y d c = Ok t /\ load g t = Ok 0.

(** The invariant of the sweep of [only_merge] after [k] calls of [slide],
    started on [g0]. *)
Definition sweep_inv (g0 : Grid) (k : Z) (s : sweep) : Prop :=
  same_shape g0 (sw_grid s) /\ wf (sw_grid s) /\
  0 <= new_score s <= INT_MAX * k /\
  cong64 (sum_cells (sw_grid s)) (sum_cells g0) /\
  (sum_abs g0 <= I64_MAX ->
   sum_cells (sw_grid s) = sum_cells g0 /\ sum_abs (sw_grid s) = sum_abs g0).

(** A row-major 4x4 grid with [line] in row [row] and zero elsewhere. *)
Definition grid_with_row (row : nat) (line : list Z) : Grid :=
  mkGrid 4 4 (replicate (4 * row) 0 ++ line ++ replicate (4 * (3 - row)) 0) 0.

(** Row [row] of a row-major grid of width 4. *)
Definition row_of (row : nat) (g : Grid) : list Z :=
  take 4 (drop (4 * row) (mGrid g)).

Definition all_zero (g : Grid) : Prop := Forall (fun c => c = 0) (mGrid g).

(** The default board of the game is 4 wide and 6 high.  This one is full,
    2 and 4 alternating like a chessboard, so no two neighbours are equal. *)
Definition chessboard_4x6 : Grid :=
  mkGrid 4 6 [2; 4; 2; 4;  4; 2; 4; 2;  2; 4; 2; 4;
              4; 2; 4; 2;  2; 4; 2; 4;  4; 2; 4; 2] 0.

(** The same board with an 8 in the last two cells of the last column: its
    only pair of equal neighbours. *)
Definition last_column_pair_4x6 : Grid :=
  mkGrid 4 6 [2; 4; 2; 4;  4; 2; 4; 2;  2; 4; 2; 4;
              4; 2; 4; 2;  2; 4; 2; 8;  4; 2; 4; 8] 0.

(** The number of occupied cells. *)
Definition count_nonzero (l : list Z) : Z :=
  foldr (fun c n => (if c =? 0 then 0 else 1) + n) 0 l.
Definition nonzero_cells (g : Grid) : Z := count_nonzero (mGrid g).

Definition no_empty_cell (g : Grid) : Prop := Forall (fun c => c <> 0) (mGrid g).
Definition has_empty_cell (g : Grid) : Prop := Exists (fun c => c = 0) (mGrid g).

(** A scripted engine: the list holds the raw numbers the engine will
    produce, and a distribution on [lo, hi] reduces the next one into its
    range. *)
Definition scripted_uniform_int (lo hi : Z) (rng : list Z) : Z * list Z :=
  match rng with
  | [] => (lo, [])
  | r :: rng' => (lo + r mod (hi - lo + 1), rng')
  end.

(** The 64 equally likely outcomes of three flips of [false_1i4]. *)
Definition flips3 : list (Z * Z * Z) :=
  flat_map (fun a => flat_map (fun b => map (fun c => (a, b, c)) [0; 1; 2; 3])
                              [0; 1; 2; 3])
           [0; 1; 2; 3].

(** The board after [generate_randomly] on the empty 1x1 board when the
    flips come out as [f]. *)
Definition placed (f : Z * Z * Z) : list Z :=
  let '(a, b, c) := f in
  match generate_randomly (list Z) scripted_uniform_int 1 (reset 1 1)
                          (mkStatics [a; b; c] None) with
  | Ok (g', _, _) => mGrid g'
  | Fail _ => []
  end.

Definition placed_count (v : Z) : nat :=
  length (List.filter (fun f => match placed f with
                                | [c] => c =? v
                                | _ => false
                                end) flips3).

(** The value of the cell at column [x], row [y]. *)
Definition cell (g : Grid) (x y : Z) : Z :=
  default 0 (mGrid g !! Z.to_nat (x + y * mWidth g)).

(** Two cells of the grid that hold the same tile. *)
Definition equal_pair (g : Grid) (x y x' y' : Z) : Prop :=
  in_bounds g x y /\ in_bounds g x' y' /\ cell g x y <> 0 /\ cell g x y = cell g x' y'.

(** Some cell holds the same tile as its right or its lower neighbour. *)
Definition adjacent_equal (g : Grid) : Prop :=
  exists x y, equal_pair g x y (x + 1) y \/ equal_pair g x y x (y + 1).

(** The four comparisons [is_fail] makes at one cell, with its guards. *)
Definition eq_neighbour (g : Grid) (x y : Z) : bool :=
  ((y >? 0) && (cell g x y =? cell g x (y - 1)))
  || ((y <? width g - 1) && (cell g x y =? cell g x (y + 1)))
  || ((x >? 0) && (cell g x y =? cell g (x - 1) y))
  || ((x <? height g - 1) && (cell g x y =? cell g (x + 1) y)).

(** *** Lines

    [only_merge] treats the grid as [lines] parallel lines of [line_len]
    cells, the cell at position 0 of a line lying on the edge the tiles move
    to.  [line_x] and [line_y] give the column and row of position [b] of
    line [a]. *)
Definition lines (d : DIRECTION) (g : Grid) : Z :=
  match d with UP | DOWN => mWidth g | RIGHT | LEFT => mHeight g end.

Definition line_len (d : DIRECTION) (g : Grid) : Z :=
  match d with UP | DOWN => mHeight g | RIGHT | LEFT => mWidth g end.

Definition line_x (d : DIRECTION) (g : Grid) (a b : Z) : Z :=
  match d with
  | UP | DOWN => a
  | RIGHT => mWidth g - 1 - b
  | LEFT => b
  end.

Definition line_y (d : DIRECTION) (g : Grid) (a b : Z) : Z :=
  match d with
  | UP => b
  | DOWN => mHeight g - 1 - b
  | RIGHT | LEFT => a
  end.

Definition line_idx (d : DIRECTION) (g : Grid) (a b : Z) : Z :=
  line_x d g a b + line_y d g a b * mWidth g.

Definition lcell (d : DIRECTION) (g : Grid) (a b : Z) : Z :=
  cell g (line_x d g a b) (line_y d g a b).

Definition on_line (d : DIRECTION) (g : Grid) (a b : Z) : Prop :=
  0 <= a < lines d g /\ 0 <= b < line_len d g.

(** [g'] is [g] with the cell at position [b] of line [a] set to [v]. *)
Definition line_update (d : DIRECTION) (g g' : Grid) (a b v : Z) : Prop :=
  wf g' /\ same_shape g g' /\
  forall a' b', on_line d g a' b' ->
    lcell d g' a' b' = if (a' =? a) && (b' =? b) then v else lcell d g a' b'.

(** The grid holds [f a b] at position [b] of line [a]. *)
Definition line_grid (d : DIRECTION) (g : Grid) (f : Z -> Z -> Z) : Prop :=
  forall a b, on_line d g a b -> lcell d g a b = f a b.

(** Two equal tiles side by side on line [a0], at positions [b0] and
    [b0 + 1]; the same after the first has moved to the edge; and after the
    second has merged into it. *)
Definition pair_f (a0 b0 v : Z) (a b : Z) : Z :=
  if (a =? a0) && ((b =? b0) || (b =? b0 + 1)) then v else 0.
Definition moved_f (a0 b0 v : Z) (a b : Z) : Z :=
  if (a =? a0) && ((b =? 0) || (b =? b0 + 1)) then v else 0.
Definition merged_f (a0 v : Z) (a b : Z) : Z :=
  if (a =? a0) && (b =? 0) then 2 * v else 0.

(** The state of the sweep over a grid that started as [pair_f a0 b0 v],
    after [k] cells: untouched before the pair is reached, then the first tile
    on the edge, then the merged tile. *)
Definition pair_inv (d : DIRECTION) (g : Grid) (a0 b0 v : Z) (k : Z) (s : sweep) : Prop :=
  let k1 := a0 * line_len d g + b0 in
  (k <= k1 -> s = mkSweep g 0 false false) /\
  (k = k1 + 1 ->
     wf (sw_grid s) /\ same_shape g (sw_grid s) /\
     line_grid d (sw_grid s) (moved_f a0 b0 v) /\
     new_score s = 0 /\ skip_merge s = false /\ have_motions s = (0 <? b0)) /\
  (k1 + 2 <= k ->
     wf (sw_grid s) /\ same_shape g (sw_grid s) /\
     line_grid d (sw_grid s) (merged_f a0 v) /\
     new_score s = 2 * v /\ have_motions s = true).

(** *** One line on its own

    [slide] and the inner loop of [only_merge] as they act on the list of the
    cells of one line, position 0 first: the same steps with the grid
    coordinates replaced by the position on the line. *)
Definition lget (l : list Z) (b : Z) : Z := default 0 (l !! Z.to_nat b).
Definition lset (l : list Z) (b v : Z) : list Z := <[Z.to_nat b := v]> l.

(** The handler of [slide]: the tile at [b] comes to rest at [p], the
    position scanned just before the one that stopped it. *)
Definition stop1 (l : list Z) (b cv p : Z) : list Z * Z :=
  if b - p >? 0 then (lset (lset l p cv) b 0, 0) else (l, -1).

(** The scan of [slide] with [t] positions left before the edge. *)
Fixpoint scan1 (l : list Z) (b cv : Z) (skip : bool) (t : nat) : list Z * Z :=
  match t with
  | O => stop1 l b cv 0
  | S t' =>
      let tv := lget l (Z.of_nat t') in
      if negb (tv =? 0) then
        if skip then stop1 l b cv (Z.of_nat t' + 1)
        else if tv =? cv then
          (lset (lset l (Z.of_nat t') (wrap64 (tv * 2))) b 0, wrap32 (wrap64 (tv * 2)))
        else stop1 l b cv (Z.of_nat t' + 1)
      else scan1 l b cv skip t'
  end.

Definition slide1 (l : list Z) (b : Z) (skip : bool) : list Z * Z :=
  if lget l b =? 0 then (l, -1) else scan1 l b (lget l b) skip (Z.to_nat b).

Record line_state : Type := mkLine {
  ls_cells : list Z;
  ls_score : Z;
  ls_skip : bool;
  ls_motions : bool
}.

Definition step1 (st : line_state) (b : Z) : line_state :=
  let '(l', r) := slide1 (ls_cells st) b (ls_skip st) in
  mkLine l'
         (if r >? 0 then wrap64 (ls_score st + r) else ls_score st)
         (if r >? 0 then true else ls_skip st)
         (if r >=? 0 then true else ls_motions st).

Definition steps1 (n : Z) (st : line_state) : line_state :=
  foldl step1 st (seqZ 0 n).

(** One line swept from a running total [sc] and motion flag [m]. *)
Definition merge1 (l : list Z) (sc : Z) (m : bool) : line_state :=
  steps1 (Z.of_nat (length l)) (mkLine l sc false m).

(** Line [a] of the grid holds the cells [l]. *)
Definition line_is (d : DIRECTION) (g : Grid) (a : Z) (l : list Z) : Prop :=
  Z.of_nat (length l) = line_len d g /\
  forall b, 0 <= b < line_len d g -> lcell d g a b = lget l b.

(** The other lines of [g'] are those of [g]. *)
Definition line_frame (d : DIRECTION) (g g' : Grid) (a : Z) : Prop :=
  forall a' b', on_line d g a' b' -> a' <> a -> lcell d g' a' b' = lcell d g a' b'.

(** [g'] is [g] with line [a] replaced by [l']. *)
Definition line_post (d : DIRECTION) (g : Grid) (a : Z) (g' : Grid) (l' : list Z) : Prop :=
  wf g' /\ same_shape g g' /\ line_is d g' a l' /\ line_frame d g g' a.

(** The sweep state and the state of the line it is working on agree. *)
Definition line_corr (d : DIRECTION) (g0 : Grid) (a : Z) (s : sweep) (st : line_state)
    : Prop :=
  line_post d g0 a (sw_grid s) (ls_cells st) /\
  new_score s = ls_score st /\ skip_merge s = ls_skip st /\
  have_motions s = ls_motions st.

(** The sweep over a grid whose only occupied line is [a0], holding [l],
    before and after that line. *)
Definition single_line_inv (d : DIRECTION) (g : Grid) (a0 : Z) (l : list Z)
    (a : Z) (s : sweep) : Prop :=
  let st := merge1 l 0 false in
  (a <= a0 -> s = mkSweep g 0 false false) /\
  (a0 < a ->
     wf (sw_grid s) /\ same_shape g (sw_grid s) /\
     line_is d (sw_grid s) a0 (ls_cells st) /\
     (forall a' b', on_line d g a' b' -> a' <> a0 -> lcell d (sw_grid s) a' b' = 0) /\
     new_score s = ls_score st /\ have_motions s = ls_motions st).

(** Row [y] of the grid holds [line], which spans the width, and every other
    row is empty. *)
Definition row_grid (g : Grid) (y : Z) (line : list Z) : Prop :=
  mWidth g = Z.of_nat (length line) /\ 0 <= y < mHeight g /\
  forall x' y', in_bounds g x' y' ->
    cell g x' y' = if y' =? y then lget line x' else 0.

(** *** The rest of the class and its callers *)

Definition __opposite_dire (dire : DIRECTION) : DIRECTION :=
  match dire with
  | UP => DOWN
  | DOWN => UP
  | RIGHT => LEFT
  | LEFT => RIGHT
  end.

(** Every tile is below 2^30, so that a doubled tile is still an [int]. *)
Definition small_tiles (g : Grid) : Prop :=
  Forall (fun c => 0 <= c < 2 ^ 30) (mGrid g).

(** What a [slide] on the cell with index [cur] does to the grid: nothing,
    returning -1; or it empties [cur] and writes one other cell [t], which was
    empty and receives the tile (returning 0) or held the same tile and
    receives the double (returning it as an [int]). *)
Definition slide_effect (g : Grid) (cur : Z) (g' : Grid) (r : Z) : Prop :=
  (g' = g /\ r = -1) \/
  exists t tv cv a,
    0 <= t < Z.of_nat (length (mGrid g)) /\ 0 <= cur < Z.of_nat (length (mGrid g)) /\
    t <> cur /\ load g t = Ok tv /\ load g cur = Ok cv /\ cv <> 0 /\
    g' = set_cells g (<[Z.to_nat cur := 0]> (<[Z.to_nat t := a]> (mGrid g))) /\
    ((tv = 0 /\ a = cv /\ r = 0) \/
     (tv = cv /\ a = wrap64 (tv * 2) /\ r = wrap32 a)).

(** The sweep never adds a tile, leaves an empty cell behind once it has
    reported a motion, and on small tiles has touched nothing as long as it
    has reported none. *)
Definition motion_inv (g0 : Grid) (k : Z) (s : sweep) : Prop :=
  wf (sw_grid s) /\ same_shape g0 (sw_grid s) /\
  nonzero_cells (sw_grid s) <= nonzero_cells g0 /\
  (have_motions s = true -> has_empty_cell (sw_grid s)) /\
  (small_tiles g0 -> have_motions s = false -> s = mkSweep g0 0 false false).

(** The values [generate_randomly] chooses from. *)
Definition tile_values : list Z := [2; 4; 8; 16].

(** [g'] is [g] with the tile [v] placed on cell [i], which was empty. *)
Definition placed_on (g : Grid) (i : nat) (v : Z) (g' : Grid) : Prop :=
  mGrid g !! i = Some 0 /\ g' = set_cells g (<[i := v]> (mGrid g)).

(** One key press of [Game::render_game] on a direction key: the [merge], and
    when it reports a motion the spawn and the lose check.  The drawing and
    the frame timing do not touch the grid and are left out.  [GameOver] is
    the exception the loop throws, carrying the score. *)
Inductive move_result (engine : Type) : Type :=
| Continue (g : Grid) (st : statics engine)
| GameOver (s : Z).
Arguments Continue {engine} g st.
Arguments GameOver {engine} s.

Section GameLoop.

Variable engine : Type.
Variable uniform_int : Z -> Z -> engine -> Z * engine.

Definition render_game_move (fuel : nat) (dire : DIRECTION) (g : Grid)
    (st : statics engine) : res (move_result engine) :=
  do ret <- merge g dire;
  let '(g1, _, valid) := ret in
  let gen := valid in
  if gen then
    do ret <- generate_randomly engine uniform_int fuel g1 st;
    let '(g2, _, st') := ret in
    do lost <- is_fail g2;
    if lost then Ok (GameOver (score g2)) else Ok (Continue g2 st')
  else Ok (Continue g1 st).

(** [mGrid.reset(config_width, config_height); mGrid.generate(2);], the way
    [render_game] starts a game, for any first tile. *)
Definition start_game (fuel : nat) (w h targetval : Z) (st : statics engine)
    : res (Grid * bool * statics engine) :=
  generate engine uniform_int fuel targetval (reset w h) st.

End GameLoop.

(** What [slide] does under [skip_merge]: nothing, or the tile of [cur]
    carried to an empty cell [t]. *)
Definition slide_moved (g : Grid) (cur : Z) (g' : Grid) (r : Z) : Prop :=
  (g' = g /\ r = -1) \/
  exists t cv,
    0 <= t < Z.of_nat (length (mGrid g)) /\ 0 <= cur < Z.of_nat (length (mGrid g)) /\
    t <> cur /\ load g t = Ok 0 /\ load g cur = Ok cv /\ cv <> 0 /\
    g' = set_cells g (<[Z.to_nat cur := 0]> (<[Z.to_nat t := cv]> (mGrid g))) /\
    r = 0.

(** A single tile [v] at position [b0] of line [a0]. *)
Definition lone_f (a0 b0 v : Z) (a b : Z) : Z :=
  if (a =? a0) && (b =? b0) then v else 0.

(** The state of the sweep over a grid that started as [lone_f a0 b0 v],
    after [k] cells: untouched until the tile is reached, then the tile on
    the edge of its line. *)
Definition lone_inv (d : DIRECTION) (g : Grid) (a0 b0 v : Z) (k : Z) (s : sweep) : Prop :=
  let k1 := a0 * line_len d g + b0 in
  (k <= k1 -> s = mkSweep g 0 false false) /\
  (k1 < k ->
     wf (sw_grid s) /\ same_shape g (sw_grid s) /\
     line_grid d (sw_grid s) (lone_f a0 0 v) /\
     (b0 = 0 -> sw_grid s = g) /\
     new_score s = 0 /\ have_motions s = (0 <? b0)).

(** Two grids, each seen along a direction, show the same lines. *)
Definition same_lines (d1 : DIRECTION) (g1 : Grid) (d2 : DIRECTION) (g2 : Grid) : Prop :=
  lines d1 g1 = lines d2 g2 /\ line_len d1 g1 = line_len d2 g2 /\
  forall a b, on_line d1 g1 a b -> lcell d1 g1 a b = lcell d2 g2 a b.

(** Two sweeps, each along its direction, that have come equally far. *)
Definition lines_rel (d1 : DIRECTION) (g1 : Grid) (d2 : DIRECTION) (g2 : Grid)
    (s1 s2 : sweep) : Prop :=
  wf (sw_grid s1) /\ wf (sw_grid s2) /\
  same_shape g1 (sw_grid s1) /\ same_shape g2 (sw_grid s2) /\
  same_lines d1 (sw_grid s1) d2 (sw_grid s2) /\
  new_score s1 = new_score s2 /\ have_motions s1 = have_motions s2.

(** A value is empty or one of the tiles [l0]; it is empty, one of the tiles
    [l0] or the double of one. *)
Definition from_tiles (l0 : list Z) (c : Z) : Prop := c = 0 \/ In c l0.
Definition tile_or_double (l0 : list Z) (c : Z) : Prop :=
  c = 0 \/ exists c0, In c0 l0 /\ c0 <> 0 /\ (c = c0 \/ c = 2 * c0).

Definition power_of_two (c : Z) : Prop := exists k, 0 <= k /\ c = 2 ^ k.

(** The sweep before line [a]: the lines from [a] on are untouched, and every
    cell holds a tile of the grid it started from or the double of one. *)
Definition doubles_inv (d : DIRECTION) (g : Grid) (a : Z) (s : sweep) : Prop :=
  wf (sw_grid s) /\ same_shape g (sw_grid s) /\
  (forall a' b', on_line d g a' b' -> a <= a' ->
     lcell d (sw_grid s) a' b' = lcell d g a' b') /\
  (forall a' b', on_line d g a' b' ->
     tile_or_double (mGrid g) (lcell d (sw_grid s) a' b')).

(** *** Merging once

    The tiles of a line, position 0 first, without the empty cells. *)
Definition tiles_of (l : list Z) : list Z := List.filter (fun c => negb (c =? 0)) l.

(** What the rule asks of a line of tiles: the first two equal neighbours
    become one tile of twice the value, and nothing else changes. *)
Fixpoint merge_first_pair (ts : list Z) : list Z :=
  match ts with
  | [] => []
  | a :: rest =>
      match rest with
      | [] => [a]
      | b :: rest' => if a =? b then 2 * a :: rest' else a :: merge_first_pair rest
      end
  end.

(** Some tile has the same value as the next. *)
Fixpoint has_pair (ts : list Z) : bool :=
  match ts with
  | [] => false
  | a :: rest =>
      match rest with
      | [] => false
      | b :: _ => if a =? b then true else has_pair rest
      end
  end.

(** A line after the move: its tiles, merged once, packed toward position 0,
    empty cells behind them. *)
Definition line_result (l : list Z) : list Z :=
  merge_first_pair (tiles_of l)
  ++ replicate (length l - length (merge_first_pair (tiles_of l))) 0.

(** The cells of line [a] of the grid, position 0 first. *)
Definition line_cells (d : DIRECTION) (g : Grid) (a : Z) : list Z :=
  fmap (lcell d g a) (seqZ 0 (line_len d g)).

(** [new] comes from [old] by keeping tiles and by replacing two equal
    neighbours by one tile of twice the value: no tile of [new] is made of
    more than two tiles of [old]. *)
Inductive merged_once : list Z -> list Z -> Prop :=
| merged_nil : merged_once [] []
| merged_keep c old new : merged_once old new -> merged_once (c :: old) (c :: new)
| merged_pair c old new : merged_once old new -> merged_once (c :: c :: old) (2 * c :: new).

(** The line [l0] after the first [b] positions have been swept: the tiles
    met so far, merged once, are packed at the front, the rest of the swept
    part is empty, and [skip_merge] tells whether a merge has happened. *)
Definition once_inv (l0 : list Z) (b : Z) (st : line_state) : Prop :=
  let out := merge_first_pair (tiles_of (take (Z.to_nat b) l0)) in
  ls_skip st = has_pair (tiles_of (take (Z.to_nat b) l0)) /\
  length (ls_cells st) = length l0 /\
  Z.of_nat (length out) <= b /\
  forall p, 0 <= p < Z.of_nat (length l0) ->
    lget (ls_cells st) p =
    if p <? Z.of_nat (length out) then lget out p
    else if p <? b then 0 else lget l0 p.

(** The sweep before line [a]: the lines from [a] on are untouched, the
    lines before hold their result. *)
Definition lines_once_inv (d : DIRECTION) (g : Grid) (a : Z) (s : sweep) : Prop :=
  wf (sw_grid s) /\ same_shape g (sw_grid s) /\
  (forall a' b', on_line d g a' b' -> a <= a' ->
     lcell d (sw_grid s) a' b' = lcell d g a' b') /\
  (forall a', 0 <= a' < a -> line_is d (sw_grid s) a' (line_result (line_cells d g a'))).

(** ** Helpers of the screen

    [CALC_CENTER_BEGIN] is a division of [int]s, which rounds toward zero. *)
Definition CALC_CENTER_BEGIN (scrwidth strwidth : Z) : Z :=
  wrap32 (Z.quot (wrap32 (scrwidth - strwidth)) 2).

(** [get_max(x1, x2, args...)], the arguments after the first as a list. *)
Fixpoint get_max (x1 : Z) (args : list Z) : Z :=
  match args with
  | [] => x1
  | x2 :: args' =>
      let tmp := get_max x2 args' in
      if x1 >? tmp then x1 else tmp
  end.

(** The width of the dialog of [render_gameover], from the display width of
    the reason and the number of characters of the score. *)
Definition gameover_width (why_width score_size : Z) : Z :=
  wrap32 (get_max (wrap32 (why_width + 5)) [21; wrap32 score_size] + 2).

(** The values of ICU's [UCHAR_EAST_ASIAN_WIDTH] property. *)
Inductive UEastAsianWidth : Type :=
| U_EA_NEUTRAL
| U_EA_AMBIGUOUS
| U_EA_HALFWIDTH
| U_EA_FULLWIDTH
| U_EA_NARROW
| U_EA_WIDE.

Section StringWidth.

(** [u_getIntPropertyValue(c, UCHAR_EAST_ASIAN_WIDTH)] is ICU's table and the
    global [AMBIGUOUS_AS_WIDE] a setting; a string is the list of the code
    units of the [icu::UnicodeString], which is what [charAt] reads. *)
Variable east_asian_width : Z -> UEastAsianWidth.
Variable AMBIGUOUS_AS_WIDE : bool.

Definition unit_width (c : Z) : Z :=
  match east_asian_width c with
  | U_EA_NEUTRAL | U_EA_HALFWIDTH | U_EA_NARROW => 1
  | U_EA_FULLWIDTH | U_EA_WIDE => 2
  | _ => if AMBIGUOUS_AS_WIDE then 2 else 1
  end.

Definition get_string_width (str : list Z) : Z :=
  foldl (fun width c => wrap32 (width + unit_width c)) 0 str.

End StringWidth.

(** The calls of [mvwaddstr] and [mvwaddch] a function makes on its window,
    in order. *)
Inductive curses_call (text : Type) : Type :=
| mvwaddstr (y x : Z) (str : text)
| mvwaddch (y x : Z) (ch : ascii).
Arguments mvwaddstr {text} y x str.
Arguments mvwaddch {text} y x ch.

Definition wfill {text : Type} (x1 y1 x2 y2 : Z) (str : text) : list (curses_call text) :=
  let '(x1, x2) := if x1 >? x2 then (x2, x1) else (x1, x2) in
  let '(y1, y2) := if y1 >? y2 then (y2, y1) else (y1, y2) in
  flat_map (fun x => map (fun y => mvwaddstr y x str) (seqZ y1 (y2 - y1 + 1)))
           (seqZ x1 (x2 - x1 + 1)).

(** ** Drawing the grid

    [std::to_string] is the library's; [config_size] and [config_fix_rect]
    are the settings of the [Game] ([GRID_SIZE] = 5 and true).  The [int]s of
    the drawing code are written without wrapping.  [str.front()] on an empty
    string reads the terminator of the string, the character 0, as the
    library the program is built with has it. *)
Section Draw.

Variable to_string : Z -> string.
Variable config_size : Z.
Variable config_fix_rect : bool.

(** The body of the inner loop of [draw_number]: [ch = str.front()], then
    [str.erase(0)], which erases from index 0 to the end, then [mvwaddch]. *)
Definition draw_number_char (ypos xpos : Z) (st : string * list (curses_call string))
    : res (string * list (curses_call string)) :=
  let '(str, calls) := st in
  let ch := match str with
            | EmptyString => zero
            | String ch _ => ch
            end in
  Ok (EmptyString, calls ++ [mvwaddch ypos xpos ch]).

Definition draw_number (gx gy global_xcoord global_ycoord nbr : Z)
    : res (list (curses_call string)) :=
  let size := config_size in
  let fix_rect := config_fix_rect in
  let xsize := if fix_rect then size * 2 else size in
  let str := to_string nbr in
  let len := Z.of_nat (String.length str) in
  if len =? 0 then Ok [] else
  let xpos_orig := global_xcoord + 1 + gx * (size + 1) * (if fix_rect then 2 else 1) in
  let ypos_orig := global_ycoord + 1 + gy * (size + 1) in
  let lines := Z.quot len xsize + 1 in
  let lastline := Z.rem len xsize in
  let ybeg := CALC_CENTER_BEGIN size lines in
  let last_xcoord := CALC_CENTER_BEGIN xsize lastline in
  do st <- for_loop (lines - 1) (fun y st =>
             for_loop size (fun x st =>
               draw_number_char (ypos_orig + ybeg + y) (xpos_orig + x) st) st) (str, []);
  let '(str, calls) := st in
  Ok (calls ++ [mvwaddstr (ypos_orig + ybeg + lines - 1) (xpos_orig + last_xcoord) str]).

(** One of the four branches on [y] in the loop of [draw_grid]: the string
    for column [x] and the new [xcoord]. *)
Definition border_piece (first last cross wide narrow : string) (x width xcoord : Z)
    : string * Z :=
  if x =? 0 then (first, xcoord)
  else if x =? width - 1 then (last, xcoord)
  else if Z.rem x (config_size + 1) =? 0 then (cross, xcoord)
  else if config_fix_rect then (wide, xcoord + 1)
  else (narrow, xcoord).

(** The body of the loop on [x]: the state is [xcoord] and the calls made. *)
Definition border_row_step (width height global_xcoord global_ycoord y : Z)
    (st : Z * list (curses_call string)) (x : Z) : Z * list (curses_call string) :=
  let '(xcoord, calls) := st in
  let xpos := global_xcoord + x + xcoord in
  let ypos := global_ycoord + y in
  let '(str, xcoord) :=
    if y =? 0 then
      border_piece "╔" "╗" "╦" "══" "═" x width xcoord
    else if y =? height - 1 then
      border_piece "╚" "╝" "╩" "══" "═" x width xcoord
    else if Z.rem y (config_size + 1) =? 0 then
      border_piece "╠" "╣" "╬" "══" "═" x width xcoord
    else
      border_piece "║" "║" "║" "  " " " x width xcoord in
  (xcoord, calls ++ [mvwaddstr ypos xpos str]).

(** The body of the loop on [y]: [xcoord] starts at 0 and the loop on [x]
    adds one call per column. *)
Definition draw_border_row (width height global_xcoord global_ycoord y : Z)
    (calls : list (curses_call string)) : list (curses_call string) :=
  snd (foldl (border_row_step width height global_xcoord global_ycoord y)
             (0, calls) (seqZ 0 width)).

(** [draw_grid(grid)] on a window of [maxx] columns and [maxy] rows. *)
Definition draw_grid (maxx maxy : Z) (grid : Grid) : res (list (curses_call string)) :=
  let size := config_size in
  let gwidth := width grid in
  let gheight := height grid in
  let width := gwidth * size + gwidth + 1 in
  let height := gheight * size + gheight + 1 in
  let global_xcoord :=
    CALC_CENTER_BEGIN maxx (width + (if config_fix_rect then gwidth * size else 0)) in
  let global_ycoord := CALC_CENTER_BEGIN maxy height in
  let border :=
    foldl (fun calls y => draw_border_row width height global_xcoord global_ycoord y calls)
          [] (seqZ 0 height) in
  for_loop gwidth (fun x calls =>
    for_loop gheight (fun y calls =>
      do v <- get_const grid x y;
      if negb (v =? 0) then
        do drawn <- draw_number x y global_xcoord global_ycoord (v mod 2 ^ 64);
        Ok (calls ++ drawn)
      else Ok calls) calls) border.

(** What [xcoord] has added to the screen column when the loop on [x]
    reaches column [x]: one for every column before [x] that is not a
    multiple of [size + 1]. *)
Definition xcoord_before (x : Z) : Z :=
  if config_fix_rect then x - (x + config_size) / (config_size + 1) else 0.

End Draw.

(** [std::to_string] on an unsigned number, for the examples. *)
Definition decimal (n : Z) : string := NilZero.string_of_uint (N.to_uint (Z.to_N n)).

(** Well-formedness of a grid given by its cells. *)
Ltac solve_wf :=
  constructor; simpl;
  [ lia | lia | unfold INT_MAX; lia | lia
  | repeat (constructor; [unfold in_i64, I64_MIN, I64_MAX; lia|]); constructor
  | unfold in_i64, I64_MIN, I64_MAX; lia ].

(** Case analysis on every integer comparison of the goal. *)
Ltac zcases :=
  repeat match goal with
         | |- context [Z.eqb ?x ?y] => destruct (Z.eqb_spec x y)
         end;
  cbn [andb orb]; try reflexivity; try lia.

Ltac conjs := repeat match goal with |- _ /\ _ => split end.

(** ** Machine integer facts *)

Lemma wrap64_id z : in_i64 z -> wrap64 z = z.
Proof.
  unfold in_i64, I64_MIN, I64_MAX, wrap64. intros Hz.
  rewrite Z.mod_small; lia.
Qed.

Lemma wrap64_range z : in_i64 (wrap64 z).
Proof.
  unfold in_i64, I64_MIN, I64_MAX, wrap64.
  pose proof (Z.mod_pos_bound (z + 2 ^ 63) (2 ^ 64)). lia.
Qed.

Lemma wrap64_cong z : cong64 (wrap64 z) z.
Proof.
  unfold cong64, wrap64. exists (- ((z + 2 ^ 63) / 2 ^ 64)).
  pose proof (Z.div_mod (z + 2 ^ 63) (2 ^ 64) ltac:(lia)). lia.
Qed.

Lemma cong64_refl a : cong64 a a.
Proof. exists 0. lia. Qed.

Lemma cong64_trans a b c : cong64 a b -> cong64 b c -> cong64 a c.
Proof. intros [k ->] [k' ->]. exists (k + k'). lia. Qed.

Lemma wrap32_id z : in_int z -> wrap32 z = z.
Proof.
  unfold in_int, INT_MIN, INT_MAX, wrap32. intros Hz.
  rewrite Z.mod_small; lia.
Qed.

Lemma wrap32_range z : in_int (wrap32 z).
Proof.
  unfold in_int, INT_MIN, INT_MAX, wrap32.
  pose proof (Z.mod_pos_bound (z + 2 ^ 31) (2 ^ 32)). lia.
Qed.

(** ** Sums over the buffer *)

Lemma lsum_insert (l : list Z) i v u :
  l !! i = Some v -> lsum (<[i := u]> l) = lsum l - v + u.
Proof.
  revert i. induction l as [|a l IH]; intros [|i] H; simpl in *; try discriminate.
  - injection H as ->. lia.
  - rewrite (IH i H). lia.
Qed.

Lemma labs_insert (l : list Z) i v u :
  l !! i = Some v -> labs (<[i := u]> l) = labs l - Z.abs v + Z.abs u.
Proof.
  revert i. induction l as [|a l IH]; intros [|i] H; simpl in *; try discriminate.
  - injection H as ->. lia.
  - rewrite (IH i H). lia.
Qed.

Lemma labs_nonneg (l : list Z) : 0 <= labs l.
Proof. induction l; simpl; lia. Qed.

Lemma labs_lookup (l : list Z) i v : l !! i = Some v -> Z.abs v <= labs l.
Proof.
  revert i. induction l as [|a l IH]; intros [|i] H; simpl in *; try discriminate.
  - injection H as ->. pose proof (labs_nonneg l). lia.
  - specialize (IH i H). lia.
Qed.

Lemma labs_lookup2 (l : list Z) i j a b :
  i <> j -> l !! i = Some a -> l !! j = Some b -> Z.abs a + Z.abs b <= labs l.
Proof.
  intros Hij Hi Hj.
  pose proof (labs_insert l i a 0 Hi) as He.
  assert (Hj' : <[i := 0]> l !! j = Some b) by (rewrite list_lookup_insert_ne; auto).
  apply labs_lookup in Hj'. lia.
Qed.

(** ** Loads, stores and references *)

Lemma load_Some g i v :
  load g i = Ok v <-> 0 <= i /\ mGrid g !! Z.to_nat i = Some v.
Proof.
  unfold load. destruct (i <? 0) eqn:E.
  - split; [discriminate | lia].
  - destruct (mGrid g !! Z.to_nat i) as [u|]; split.
    + intros [= ->]. split; [lia | reflexivity].
    + intros [_ [= ->]]. reflexivity.
    + discriminate.
    + intros [_ ?]. discriminate.
Qed.

Lemma load_in_range g i :
  0 <= i < Z.of_nat (length (mGrid g)) -> exists v, load g i = Ok v.
Proof.
  intros Hi. destruct (lookup_lt_is_Some_2 (mGrid g) (Z.to_nat i)) as [v Hv]; [lia|].
  exists v. apply load_Some. split; [lia | exact Hv].
Qed.

Lemma store_in_range g i v :
  0 <= i < Z.of_nat (length (mGrid g)) ->
  store g i v = Ok (set_cells g (<[Z.to_nat i := v]> (mGrid g))).
Proof.
  intros Hi. unfold store.
  destruct ((i <? 0) || (Z.of_nat (length (mGrid g)) <=? i)) eqn:E; [lia | reflexivity].
Qed.

Lemma get_in_bounds g x y : in_bounds g x y -> get g x y = Ok (x + y * mWidth g).
Proof.
  unfold in_bounds, get. intros H.
  destruct ((x >=? mWidth g) || (x <? 0) || (y <? 0) || (y >=? mHeight g)) eqn:E;
    [lia | reflexivity].
Qed.

Lemma get_out_of_bounds g x y : ~ in_bounds g x y -> get g x y = Fail OutOfRange.
Proof.
  unfold in_bounds, get. intros H.
  destruct ((x >=? mWidth g) || (x <? 0) || (y <? 0) || (y >=? mHeight g)) eqn:E;
    [reflexivity | lia].
Qed.

Lemma get_inv g x y r : get g x y = Ok r -> in_bounds g x y /\ r = x + y * mWidth g.
Proof.
  unfold in_bounds, get.
  destruct ((x >=? mWidth g) || (x <? 0) || (y <? 0) || (y >=? mHeight g)) eqn:E;
    [discriminate|].
  intros [= <-]. split; [lia | reflexivity].
Qed.

Lemma get_fault g x y e : get g x y = Fail e -> e = OutOfRange.
Proof.
  unfold get.
  destruct ((x >=? mWidth g) || (x <? 0) || (y <? 0) || (y >=? mHeight g));
    [intros [= <-]; reflexivity | discriminate].
Qed.

Lemma cell_index_range g x y :
  wf g -> in_bounds g x y ->
  0 <= x + y * mWidth g < Z.of_nat (length (mGrid g)).
Proof.
  intros Hwf [Hx Hy]. rewrite (wf_len g Hwf). nia.
Qed.

Lemma cell_index_inj g x y x' y' :
  in_bounds g x y -> in_bounds g x' y' ->
  x + y * mWidth g = x' + y' * mWidth g -> x = x' /\ y = y'.
Proof.
  intros [Hx Hy] [Hx' Hy'] He.
  assert (y = y') by nia. subst y'. lia.
Qed.

Lemma get_const_load g x y :
  get_const g x y = (do r <- get g x y; load g r).
Proof.
  unfold get_const, get.
  destruct ((x >=? mWidth g) || (x <? 0) || (y <? 0) || (y >=? mHeight g)); reflexivity.
Qed.

(** ** One slide *)

Lemma get_dire_fault g x y d c e : __get_dire g x y d c = Fail e -> e = OutOfRange.
Proof. destruct d; simpl; apply get_fault. Qed.

Lemma get_dire_inv g x y d c t :
  wf g -> in_bounds g x y -> 1 <= c -> __get_dire g x y d c = Ok t ->
  0 <= t < Z.of_nat (length (mGrid g)) /\ t <> x + y * mWidth g /\
  c < Z.max (mWidth g) (mHeight g).
Proof.
  intros Hwf Hxy Hc H.
  destruct d; simpl in H; apply get_inv in H as [Hb ->];
    (split; [apply cell_index_range; assumption|]);
    destruct Hxy as [Hx Hy]; destruct Hb as [Hx' Hy']; split; nia.
Qed.

Lemma same_shape_refl g : same_shape g g.
Proof. repeat split. Qed.

Lemma same_shape_trans g1 g2 g3 :
  same_shape g1 g2 -> same_shape g2 g3 -> same_shape g1 g3.
Proof. unfold same_shape. intuition congruence. Qed.

Lemma wf_set_cells g l :
  wf g -> length l = length (mGrid g) -> Forall in_i64 l -> wf (set_cells g l).
Proof.
  intros [? ? ? Hl ? ?] Hlen Hall. constructor; simpl; auto. rewrite Hlen. exact Hl.
Qed.

Lemma slide_post_refl g r : wf g -> in_int r -> slide_post g g r.
Proof.
  intros. unfold slide_post. conjs; auto using same_shape_refl, cong64_refl.
Qed.

Lemma load_in_i64 g i v : wf g -> load g i = Ok v -> in_i64 v.
Proof.
  intros Hwf H. apply load_Some in H as [_ H].
  eapply Forall_lookup_1; [apply (wf_cells g Hwf) | exact H].
Qed.

(** Writing [a] to cell [t] and then [0] to cell [c], two different cells. *)
Lemma two_stores g t c a tv cv :
  wf g -> t <> c ->
  load g t = Ok tv -> load g c = Ok cv -> in_i64 a ->
  0 <= t < Z.of_nat (length (mGrid g)) ->
  0 <= c < Z.of_nat (length (mGrid g)) ->
  exists g1 g2,
    store g t a = Ok g1 /\ store g1 c 0 = Ok g2 /\
    load g2 t = Ok a /\
    same_shape g g2 /\ wf g2 /\
    sum_cells g2 = sum_cells g - tv + a - cv /\
    sum_abs g2 = sum_abs g - Z.abs tv + Z.abs a - Z.abs cv.
Proof.
  intros Hwf Hne Ht Hc Ha Rt Rc.
  apply load_Some in Ht as [_ Ht]. apply load_Some in Hc as [_ Hc].
  assert (Hn : Z.to_nat t <> Z.to_nat c) by lia.
  do 2 eexists. split; [apply store_in_range; exact Rt|].
  split; [apply store_in_range; simpl; rewrite length_insert; exact Rc|].
  assert (Hc1 : <[Z.to_nat t := a]> (mGrid g) !! Z.to_nat c = Some cv)
    by (rewrite list_lookup_insert_ne; auto).
  conjs.
  - apply load_Some. split; [lia|]. simpl.
    rewrite list_lookup_insert_ne by auto.
    apply list_lookup_insert_eq. lia.
  - repeat split.
  - apply wf_set_cells.
    + apply wf_set_cells; auto.
      * simpl. apply length_insert.
      * apply Forall_insert; [apply (wf_cells g Hwf) | exact Ha].
    + simpl. rewrite !length_insert. reflexivity.
    + simpl. apply Forall_insert; [|unfold in_i64, I64_MIN, I64_MAX; lia].
      apply Forall_insert; [apply (wf_cells g Hwf) | exact Ha].
  - unfold sum_cells. simpl.
    rewrite (lsum_insert _ _ cv 0 Hc1), (lsum_insert _ _ tv a Ht). lia.
  - unfold sum_abs. simpl.
    rewrite (labs_insert _ _ cv 0 Hc1), (labs_insert _ _ tv a Ht). lia.
Qed.

Lemma slide_catch_spec g cur x y d coord cv :
  wf g -> in_bounds g x y -> cur = x + y * mWidth g -> load g cur = Ok cv ->
  1 <= coord -> scanned g x y d coord ->
  exists g' r, slide_catch g cur x y d coord = Ok (g', r) /\ slide_post g g' r.
Proof.
  intros Hwf Hxy Hcur Hcv Hc Hscan. unfold slide_catch.
  destruct (coord >? 1) eqn:E.
  - destruct (Hscan (coord - 1)) as (t & Hget & Ht); [lia|].
    destruct (get_dire_inv g x y d (coord - 1) t Hwf Hxy ltac:(lia) Hget)
      as (Rt & Hne & _).
    pose proof (cell_index_range g x y Hwf Hxy) as Rc. rewrite <- Hcur in Rc, Hne.
    destruct (two_stores g t cur cv 0 cv Hwf Hne Ht Hcv (load_in_i64 g cur cv Hwf Hcv) Rt Rc)
      as (g1 & g2 & H1 & H2 & _ & Hsh & Hwf2 & Hs & Ha).
    rewrite Hget. simpl. rewrite Hcv. simpl. rewrite H1. simpl. rewrite H2. simpl.
    exists g2, 0. split; [reflexivity|].
    unfold slide_post. conjs; [assumption | assumption | | |].
    + unfold in_int, INT_MIN, INT_MAX. lia.
    + exists 0. lia.
    + intros _. lia.
  - exists g, (-1). split; [reflexivity|].
    apply slide_post_refl; [assumption | unfold in_int, INT_MIN, INT_MAX; lia].
Qed.

Lemma scanned_bound g x y d coord :
  wf g -> in_bounds g x y -> 1 <= coord -> scanned g x y d coord ->
  coord <= Z.max (mWidth g) (mHeight g).
Proof.
  intros Hwf Hxy Hc Hscan.
  destruct (Z.eq_dec coord 1) as [->|Hne].
  - destruct Hxy. lia.
  - destruct (Hscan (coord - 1)) as (t & Hget & _); [lia|].
    destruct (get_dire_inv g x y d (coord - 1) t Hwf Hxy ltac:(lia) Hget) as (_ & _ & ?).
    lia.
Qed.

Lemma slide_loop_spec fuel : forall g cur x y d skip coord cv,
  wf g -> in_bounds g x y -> cur = x + y * mWidth g -> load g cur = Ok cv ->
  1 <= coord -> scanned g x y d coord ->
  Z.max (mWidth g) (mHeight g) < coord + Z.of_nat fuel ->
  exists g' r, slide_loop fuel g cur x y d skip coord = Ok (g', r) /\ slide_post g g' r.
Proof.
  induction fuel as [|fuel IH]; intros g cur x y d skip coord cv Hwf Hxy Hcur Hcv Hc Hscan Hfuel.
  - pose proof (scanned_bound g x y d coord Hwf Hxy Hc Hscan). lia.
  - pose proof (slide_catch_spec g cur x y d coord cv Hwf Hxy Hcur Hcv Hc Hscan) as Hcatch.
    simpl. unfold slide_try.
    destruct (__get_dire g x y d coord) as [t|e] eqn:Hget; simpl.
    2:{ apply get_dire_fault in Hget. subst e. exact Hcatch. }
    destruct (get_dire_inv g x y d coord t Hwf Hxy Hc Hget) as (Rt & Hne & _).
    destruct (load_in_range g t Rt) as [tv Htv]. rewrite Htv. simpl.
    destruct (tv =? 0) eqn:Etv; simpl.
    { apply (IH g cur x y d skip (coord + 1) cv); auto; try lia.
      intros c Hcr. destruct (Z.eq_dec c coord) as [->|Hn].
      - exists t. split; [exact Hget|]. rewrite Htv. f_equal. lia.
      - apply Hscan. lia. }
    destruct skip; [exact Hcatch|].
    rewrite Hcv. simpl.
    destruct (tv =? cv) eqn:Ecv; [|exact Hcatch].
    assert (tv = cv) by lia. subst cv.
    pose proof (cell_index_range g x y Hwf Hxy) as Rc. rewrite <- Hcur in Rc, Hne.
    destruct (two_stores g t cur (wrap64 (tv * 2)) tv tv Hwf Hne Htv Hcv
                (wrap64_range _) Rt Rc)
      as (g1 & g2 & H1 & H2 & Hld & Hsh & Hwf2 & Hs & Ha).
    rewrite H1. simpl. rewrite H2. simpl. rewrite Hld. simpl.
    do 2 eexists. split; [reflexivity|].
    unfold slide_post. conjs; [assumption | assumption | apply wrap32_range | |].
    { destruct (wrap64_cong (tv * 2)) as [k Hk]. exists k. lia. }
    intros Hno.
    assert (Hb : Z.abs tv + Z.abs tv <= sum_abs g).
    { apply load_Some in Htv as [_ Htv]. apply load_Some in Hcv as [_ Hcv].
      apply (labs_lookup2 (mGrid g) (Z.to_nat t) (Z.to_nat cur)); auto. lia. }
    rewrite wrap64_id in Hs, Ha by (unfold in_i64, I64_MIN, I64_MAX in *; lia).
    lia.
Qed.

(** [slide] on a cell of the grid never fails and never runs out of fuel. *)
Lemma slide_spec g x y d skip :
  wf g -> in_bounds g x y ->
  exists g' r, slide g x y d skip = Ok (g', r) /\ slide_post g g' r.
Proof.
  intros Hwf Hxy. unfold slide. rewrite (get_in_bounds g x y Hxy). cbn [bind].
  destruct (load_in_range g _ (cell_index_range g x y Hwf Hxy)) as [cv Hcv].
  rewrite Hcv. cbn [bind].
  destruct (cv =? 0).
  - exists g, (-1). split; [reflexivity|].
    apply slide_post_refl; [assumption | unfold in_int, INT_MIN, INT_MAX; lia].
  - apply (slide_loop_spec (slide_fuel g) g _ x y d skip 1 cv); auto; try lia.
    + intros c Hc. lia.
    + unfold slide_fuel. lia.
Qed.

(** ** Loops *)

Lemma for_list_inv {S : Type} (I : nat -> S -> Prop) (body : Z -> S -> res S) l :
  forall k s,
    I k s ->
    (forall j i s, l !! j = Some i -> I (k + j)%nat s ->
                   exists s', body i s = Ok s' /\ I (Datatypes.S (k + j)) s') ->
    exists s', for_list body l s = Ok s' /\ I (k + length l)%nat s'.
Proof.
  induction l as [|i l IH]; intros k s Hk Hbody; simpl.
  - exists s. split; [reflexivity|]. rewrite Nat.add_0_r. exact Hk.
  - destruct (Hbody 0%nat i s eq_refl) as (s1 & H1 & HI1).
    { rewrite Nat.add_0_r. exact Hk. }
    rewrite H1. simpl. rewrite Nat.add_0_r in HI1.
    destruct (IH (Datatypes.S k) s1 HI1) as (s2 & H2 & HI2).
    { intros j i' s' Hj HI.
      replace (Datatypes.S k + j)%nat with (k + Datatypes.S j)%nat in * by lia.
      apply (Hbody (Datatypes.S j) i' s' Hj). exact HI. }
    exists s2. split; [exact H2|].
    replace (k + Datatypes.S (length l))%nat with (Datatypes.S k + length l)%nat by lia.
    exact HI2.
Qed.

Lemma for_loop_inv {S : Type} (I : Z -> S -> Prop) maxi (body : Z -> S -> res S) s :
  0 <= maxi -> I 0 s ->
  (forall i s, 0 <= i < maxi -> I i s -> exists s', body i s = Ok s' /\ I (i + 1) s') ->
  exists s', for_loop maxi body s = Ok s' /\ I maxi s'.
Proof.
  intros Hn H0 Hbody. unfold for_loop.
  destruct (for_list_inv (fun k => I (Z.of_nat k)) body (seqZ 0 maxi) 0%nat s H0)
    as (s' & Hs' & HI).
  - intros j i s1 Hj HI. apply lookup_seqZ in Hj as [-> Hlt].
    destruct (Hbody (Z.of_nat j) s1) as (s2 & H2 & HI2); [lia | exact HI |].
    exists s2. split; [exact H2|].
    replace (Z.of_nat (Datatypes.S (0 + j))) with (Z.of_nat j + 1) by lia. exact HI2.
  - exists s'. split; [exact Hs'|].
    rewrite length_seqZ in HI. simpl in HI. rewrite Z2Nat.id in HI by lia. exact HI.
Qed.

(** Two nested counting loops, the inner one entered through [pre]. *)
Lemma nest_inv {S : Type} (I : Z -> S -> Prop) A B
    (body : Z -> Z -> S -> res S) (pre : S -> S) :
  0 <= A -> 0 <= B ->
  (forall k s, I k s -> I k (pre s)) ->
  (forall a b s, 0 <= a < A -> 0 <= b < B -> I (a * B + b) s ->
                 exists s', body a b s = Ok s' /\ I (a * B + b + 1) s') ->
  forall s, I 0 s ->
    exists s', for_loop A (fun a s => for_loop B (body a) (pre s)) s = Ok s' /\
               I (A * B) s'.
Proof.
  intros HA HB Hpre Hbody s H0.
  apply (for_loop_inv (fun a => I (a * B))); auto.
  intros a s1 Ha HI.
  replace ((a + 1) * B) with (a * B + B) by lia.
  apply (for_loop_inv (fun b => I (a * B + b))); auto.
  - rewrite Z.add_0_r. apply Hpre. exact HI.
  - intros b s2 Hb HI2.
    replace (a * B + (b + 1)) with (a * B + b + 1) by lia. apply Hbody; auto.
Qed.

(** ** The sweep *)

(** The running total of one sweep stays far below the [i64] range. *)
Lemma score_step_fits area k sc r :
  area <= INT_MAX -> 0 <= k < area -> 0 <= sc <= INT_MAX * k -> in_int r ->
  in_i64 (sc + r).
Proof.
  unfold in_int, in_i64, INT_MIN, INT_MAX, I64_MIN, I64_MAX.
  intros Ha Hk Hsc Hr.
  assert (Hb : (2 ^ 31 - 1) * k <= (2 ^ 31 - 1) * (2 ^ 31 - 1)) by nia.
  lia.
Qed.

Lemma sweep_cell_inv g0 d x y k s :
  wf g0 -> in_bounds g0 x y -> 0 <= k < mWidth g0 * mHeight g0 ->
  sweep_inv g0 k s ->
  exists s', sweep_cell d x y s = Ok s' /\ sweep_inv g0 (k + 1) s'.
Proof.
  intros Hwf0 Hxy Hk (Hsh & Hwf & Hsc & Hcong & Hsum).
  assert (Hxy' : in_bounds (sw_grid s) x y).
  { destruct Hsh as (Hw & Hh & _). unfold in_bounds. rewrite Hw, Hh. exact Hxy. }
  destruct (slide_spec (sw_grid s) x y d (skip_merge s) Hwf Hxy')
    as (g' & r & Hsl & Hsh' & Hwf' & Hr & Hcong' & Hsum').
  unfold sweep_cell. rewrite Hsl. cbn [bind].
  eexists. split; [reflexivity|].
  unfold sweep_inv. cbn [sw_grid new_score]. conjs.
  - eapply same_shape_trans; eassumption.
  - exact Hwf'.
  - destruct (r >? 0) eqn:E; [|lia].
    rewrite wrap64_id; [lia|].
    apply (score_step_fits (mWidth g0 * mHeight g0) k); auto using wf_area.
  - destruct (r >? 0) eqn:E; [|unfold INT_MAX in *; lia].
    rewrite wrap64_id
      by (apply (score_step_fits (mWidth g0 * mHeight g0) k); auto using wf_area).
    unfold in_int in Hr. lia.
  - eapply cong64_trans; eassumption.
  - intros Hno. destruct (Hsum Hno) as [Hs1 Hs2].
    destruct Hsum' as [Hs3 Hs4]; [lia|]. lia.
Qed.

Lemma sweep_inv_clear g0 k s : sweep_inv g0 k s -> sweep_inv g0 k (clear_skip s).
Proof. intros H. exact H. Qed.

Lemma sweep_inv_init g : wf g -> sweep_inv g 0 (mkSweep g 0 false false).
Proof.
  intros Hwf. unfold sweep_inv. simpl.
  conjs; auto using same_shape_refl, cong64_refl; lia.
Qed.

Lemma only_merge_sweep_spec g d :
  wf g ->
  exists s, only_merge_sweep g d = Ok s /\
            sweep_inv g (mWidth g * mHeight g) s.
Proof.
  intros Hwf.
  pose proof (wf_width g Hwf) as Hw. pose proof (wf_height g Hwf) as Hh.
  unfold only_merge_sweep, width, height. destruct d.
  - apply (nest_inv (sweep_inv g) (mWidth g) (mHeight g)
             (fun x y s => sweep_cell UP x y s) clear_skip);
      auto using sweep_inv_clear, sweep_inv_init.
    intros a b s Ha Hb HI. apply sweep_cell_inv; auto; [split; lia | nia].
  - apply (nest_inv (sweep_inv g) (mWidth g) (mHeight g)
             (fun x y_i s => sweep_cell DOWN x (mHeight g - 1 - y_i) s) clear_skip);
      auto using sweep_inv_clear, sweep_inv_init.
    intros a b s Ha Hb HI. apply sweep_cell_inv; auto; [split; lia | nia].
  - rewrite (Z.mul_comm (mWidth g)).
    apply (nest_inv (sweep_inv g) (mHeight g) (mWidth g)
             (fun y x_i s => sweep_cell RIGHT (mWidth g - 1 - x_i) y s) clear_skip);
      auto using sweep_inv_clear, sweep_inv_init.
    intros a b s Ha Hb HI. apply sweep_cell_inv; auto; [split; lia | nia].
  - rewrite (Z.mul_comm (mWidth g)).
    apply (nest_inv (sweep_inv g) (mHeight g) (mWidth g)
             (fun y x s => sweep_cell LEFT x y s) clear_skip);
      auto using sweep_inv_clear, sweep_inv_init.
    intros a b s Ha Hb HI. apply sweep_cell_inv; auto; [split; lia | nia].
Qed.

(** ** Sweeping an empty grid *)

Lemma load_all_zero g i v : all_zero g -> load g i = Ok v -> v = 0.
Proof.
  intros Hz H. apply load_Some in H as [_ H].
  exact (Forall_lookup_1 _ _ _ _ Hz H).
Qed.

Lemma slide_empty_cell g x y d skip :
  wf g -> all_zero g -> in_bounds g x y -> slide g x y d skip = Ok (g, -1).
Proof.
  intros Hwf Hz Hxy. unfold slide. rewrite (get_in_bounds g x y Hxy). cbn [bind].
  destruct (load_in_range g _ (cell_index_range g x y Hwf Hxy)) as [cv Hcv].
  rewrite Hcv. cbn [bind]. rewrite (load_all_zero g _ cv Hz Hcv). reflexivity.
Qed.

Lemma only_merge_sweep_empty g d :
  wf g -> all_zero g -> only_merge_sweep g d = Ok (mkSweep g 0 false false).
Proof.
  intros Hwf Hz.
  pose proof (wf_width g Hwf) as Hw. pose proof (wf_height g Hwf) as Hh.
  assert (Hcell : forall x y, in_bounds g x y ->
            exists s', sweep_cell d x y (mkSweep g 0 false false) = Ok s' /\
                       s' = mkSweep g 0 false false).
  { intros x y Hxy. unfold sweep_cell. cbn [sw_grid skip_merge].
    rewrite (slide_empty_cell g x y d false Hwf Hz Hxy). cbn.
    eexists. split; reflexivity. }
  assert (Hpre : forall (k : Z) s,
            s = mkSweep g 0 false false -> clear_skip s = mkSweep g 0 false false).
  { intros _ s ->. reflexivity. }
  unfold only_merge_sweep, width, height.
  destruct d;
    match goal with
    | |- for_loop ?A (fun a s => for_loop ?B (@?body a) (clear_skip s)) ?s0 = _ =>
        destruct (nest_inv (fun _ s => s = mkSweep g 0 false false) A B body clear_skip)
          with (s := s0) as (s' & Hs' & ->);
          [assumption | assumption | exact Hpre | | reflexivity | exact Hs']
    end;
    intros a b s Ha Hb ->; apply Hcell; split; lia.
Qed.

(** Once [skip_merge] is set, [slide] can only move a tile or leave it: it
    returns 0 or -1, never a merged value. *)
Lemma slide_loop_skip fuel : forall g cur x y d coord g' r,
  slide_loop fuel g cur x y d true coord = Ok (g', r) -> r = 0 \/ r = -1.
Proof.
  induction fuel as [|fuel IH]; intros g cur x y d coord g' r H; [discriminate|].
  simpl in H. unfold slide_try in H.
  assert (Hcatch : forall c, slide_catch g cur x y d c = Ok (g', r) -> r = 0 \/ r = -1).
  { intros c Hc. unfold slide_catch in Hc. destruct (c >? 1).
    - destruct (__get_dire g x y d (c - 1)); [|discriminate]. cbn [bind] in Hc.
      destruct (load g cur); [|discriminate]. cbn [bind] in Hc.
      destruct (store g _ _) as [g1|]; [|discriminate]. cbn [bind] in Hc.
      destruct (store g1 _ _); [|discriminate]. cbn [bind] in Hc.
      injection Hc as _ <-. left. reflexivity.
    - injection Hc as _ <-. right. reflexivity. }
  destruct (__get_dire g x y d coord) as [t|e]; cbn [bind] in H.
  - destruct (load g t) as [tv|e]; cbn [bind] in H.
    + destruct (tv =? 0); cbn [negb] in H.
      * eapply IH. exact H.
      * eapply Hcatch. exact H.
    + destruct e; try discriminate. eapply Hcatch. exact H.
  - destruct e; try discriminate. eapply Hcatch. exact H.
Qed.

Lemma slide_skip g x y d g' r :
  slide g x y d true = Ok (g', r) -> r = 0 \/ r = -1.
Proof.
  unfold slide. intros H.
  destruct (get g x y); [|discriminate]. cbn [bind] in H.
  destruct (load g _) as [cv|]; [|discriminate]. cbn [bind] in H.
  destruct (cv =? 0).
  - injection H as _ <-. right. reflexivity.
  - eapply slide_loop_skip. exact H.
Qed.

(** ** Random placement *)

Lemma count_nonzero_insert (l : list Z) i v u :
  l !! i = Some v ->
  count_nonzero (<[i := u]> l)
  = count_nonzero l - (if v =? 0 then 0 else 1) + (if u =? 0 then 0 else 1).
Proof.
  revert i. induction l as [|a l IH]; intros [|i] H; simpl in *; try discriminate.
  - injection H as ->. lia.
  - rewrite (IH i H). lia.
Qed.

(** The scan of [is_full] over the part of the buffer that starts at [m]. *)
Lemma is_full_scan g : forall l pre,
  mGrid g = pre ++ l ->
  for_return (fun i => do v <- load g i; Ok (if v =? 0 then Some tt else None))
             (seqZ (Z.of_nat (length pre)) (Z.of_nat (length l)))
  = Ok (if forallb (fun c => negb (c =? 0)) l then None else Some tt).
Proof.
  induction l as [|c l IH]; intros pre Hg; [reflexivity|].
  rewrite seqZ_cons by (simpl; lia). cbn [for_return].
  assert (Hc : load g (Z.of_nat (length pre)) = Ok c).
  { apply load_Some. split; [lia|]. rewrite Nat2Z.id, Hg.
    rewrite lookup_app_r by lia. rewrite Nat.sub_diag. reflexivity. }
  rewrite Hc. cbn [bind forallb].
  destruct (c =? 0); [reflexivity|]. cbn [negb andb].
  specialize (IH (pre ++ [c])). rewrite <- app_assoc in IH. specialize (IH Hg).
  rewrite length_app in IH. simpl in IH.
  replace (Z.succ (Z.of_nat (length pre))) with (Z.of_nat (length pre + 1)) by lia.
  replace (Z.pred (Z.of_nat (length (c :: l)))) with (Z.of_nat (length l))
    by (simpl; lia).
  exact IH.
Qed.

Lemma is_full_spec g :
  wf g -> is_full g = Ok (forallb (fun c => negb (c =? 0)) (mGrid g)).
Proof.
  intros Hwf. unfold is_full. rewrite <- (wf_len g Hwf).
  pose proof (is_full_scan g (mGrid g) [] eq_refl) as H.
  change (Z.of_nat (length (@nil Z))) with 0 in H. rewrite H. cbn [bind].
  destruct (forallb _ _); reflexivity.
Qed.

Lemma is_full_true g : wf g -> no_empty_cell g -> is_full g = Ok true.
Proof.
  intros Hwf Hne. rewrite (is_full_spec g Hwf). f_equal.
  apply forallb_forall. intros c Hc.
  apply list_elem_of_In in Hc.
  pose proof (proj1 (Forall_forall _ _) Hne c Hc). simpl in *. lia.
Qed.

Lemma is_full_false g : wf g -> has_empty_cell g -> is_full g = Ok false.
Proof.
  intros Hwf He. rewrite (is_full_spec g Hwf). f_equal.
  apply Exists_exists in He as (c & Hc & ->).
  destruct (forallb _ _) eqn:E; [|reflexivity].
  apply list_elem_of_In in Hc.
  pose proof (proj1 (forallb_forall _ _) E 0 Hc) as H. discriminate H.
Qed.

(** ** The lose condition *)

Lemma get_const_cell g x y :
  wf g -> in_bounds g x y -> get_const g x y = Ok (cell g x y).
Proof.
  intros Hwf Hin. rewrite get_const_load, (get_in_bounds g x y Hin). cbn [bind].
  destruct (load_in_range g _ (cell_index_range g x y Hwf Hin)) as [v Hv].
  rewrite Hv. apply load_Some in Hv as [_ Hv]. unfold cell. rewrite Hv. reflexivity.
Qed.

Lemma cell_nonzero g x y :
  wf g -> no_empty_cell g -> in_bounds g x y -> cell g x y <> 0.
Proof.
  intros Hwf Hfull Hin.
  pose proof (cell_index_range g x y Hwf Hin) as Hr.
  destruct (lookup_lt_is_Some_2 (mGrid g) (Z.to_nat (x + y * mWidth g))) as [v Hv]; [lia|].
  unfold cell. rewrite Hv. simpl. exact (Forall_lookup_1 _ _ _ _ Hfull Hv).
Qed.

Lemma and_eq_guard a cur rhs v :
  (a = true -> rhs = Ok v) -> and_eq a cur rhs = Ok (a && (cur =? v)).
Proof. intros H. destruct a; simpl; [rewrite H by reflexivity|]; reflexivity. Qed.

Lemma for_return_exists {R : Type} (body : Z -> res (option R)) (P : Z -> bool) r l :
  (forall i, i ∈ l -> body i = Ok (if P i then Some r else None)) ->
  for_return body l = Ok (if existsb P l then Some r else None).
Proof.
  induction l as [|i l IH]; intros H; [reflexivity|].
  cbn [for_return existsb]. rewrite (H i) by apply list_elem_of_here. cbn [bind].
  destruct (P i); [reflexivity|]. cbn [orb].
  apply IH. intros j Hj. apply H. apply list_elem_of_further. exact Hj.
Qed.

(** On a square board the guards of [is_fail] are the right ones. *)
Lemma is_fail_cell_square g x y :
  wf g -> mWidth g = mHeight g -> in_bounds g x y ->
  is_fail_cell g x y = Ok (if eq_neighbour g x y then Some false else None).
Proof.
  intros Hwf Hsq [Hx Hy]. unfold is_fail_cell, eq_neighbour, width, height.
  rewrite (get_const_cell g x y Hwf) by (split; assumption). cbn [bind].
  rewrite (and_eq_guard _ _ _ (cell g x (y - 1)))
    by (intros; apply get_const_cell; [assumption | split; lia]).
  rewrite (and_eq_guard _ _ (get_const g x (y + 1)) (cell g x (y + 1)))
    by (intros; apply get_const_cell; [assumption | split; lia]).
  rewrite (and_eq_guard _ _ (get_const g (x - 1) y) (cell g (x - 1) y))
    by (intros; apply get_const_cell; [assumption | split; lia]).
  rewrite (and_eq_guard _ _ (get_const g (x + 1) y) (cell g (x + 1) y))
    by (intros; apply get_const_cell; [assumption | split; lia]).
  cbn [bind].
  destruct ((y >? 0) && _); [reflexivity|].
  destruct ((y <? mWidth g - 1) && _); [reflexivity|].
  destruct ((x >? 0) && _); [reflexivity|].
  destruct ((x <? mHeight g - 1) && _); reflexivity.
Qed.

Lemma is_fail_square_scan g :
  wf g -> mWidth g = mHeight g -> no_empty_cell g ->
  is_fail g = Ok (negb (existsb (fun x => existsb (eq_neighbour g x) (seqZ 0 (mHeight g)))
                                (seqZ 0 (mWidth g)))).
Proof.
  intros Hwf Hsq Hfull. unfold is_fail, width, height.
  rewrite (is_full_true g Hwf Hfull). cbn [bind negb].
  rewrite (for_return_exists _
             (fun x => existsb (eq_neighbour g x) (seqZ 0 (mHeight g))) false).
  - cbn [bind]. destruct (existsb _ _); reflexivity.
  - intros x Hx. apply elem_of_seqZ in Hx.
    apply for_return_exists. intros y Hy. apply elem_of_seqZ in Hy.
    apply is_fail_cell_square; auto. split; lia.
Qed.

Lemma eq_neighbour_adjacent g :
  wf g -> mWidth g = mHeight g -> no_empty_cell g ->
  existsb (fun x => existsb (eq_neighbour g x) (seqZ 0 (mHeight g))) (seqZ 0 (mWidth g))
  = true <-> adjacent_equal g.
Proof.
  intros Hwf Hsq Hfull. rewrite existsb_exists. split.
  - intros (x & Hx & Hex). apply existsb_exists in Hex as (y & Hy & Hn).
    apply list_elem_of_In, elem_of_seqZ in Hx. apply list_elem_of_In, elem_of_seqZ in Hy.
    assert (Hin : in_bounds g x y) by (split; lia).
    unfold eq_neighbour, width, height in Hn.
    assert (Hc : forall x' y', in_bounds g x' y' -> cell g x' y' <> 0)
      by (intros; apply cell_nonzero; assumption).
    apply orb_true_iff in Hn as [Hn|Hn];
      [apply orb_true_iff in Hn as [Hn|Hn]; [apply orb_true_iff in Hn as [Hn|Hn]|]|];
      apply andb_true_iff in Hn as [Hg He].
    + exists x, (y - 1). right. replace (y - 1 + 1) with y by lia.
      assert (in_bounds g x (y - 1)) by (split; lia).
      unfold equal_pair. conjs; auto. lia.
    + exists x, y. right.
      assert (in_bounds g x (y + 1)) by (split; lia).
      unfold equal_pair. conjs; auto. lia.
    + exists (x - 1), y. left. replace (x - 1 + 1) with x by lia.
      assert (in_bounds g (x - 1) y) by (split; lia).
      unfold equal_pair. conjs; auto. lia.
    + exists x, y. left.
      assert (in_bounds g (x + 1) y) by (split; lia).
      unfold equal_pair. conjs; auto. lia.
  - intros (x & y & [H|H]); destruct H as ([Hx Hy] & [Hx' Hy'] & _ & He);
      exists x; (split; [apply list_elem_of_In, elem_of_seqZ; lia|]);
      apply existsb_exists; exists y;
      (split; [apply list_elem_of_In, elem_of_seqZ; lia|]);
      unfold eq_neighbour, width, height; rewrite <- He.
    + replace (x <? mHeight g - 1) with true by lia.
      rewrite Z.eqb_refl. rewrite !orb_true_r. reflexivity.
    + replace (y <? mWidth g - 1) with true by lia.
      rewrite Z.eqb_refl. cbn [andb]. rewrite !orb_true_r. reflexivity.
Qed.

(** While a cell is empty the board is not lost. *)
Lemma is_fail_not_full g : wf g -> has_empty_cell g -> is_fail g = Ok false.
Proof.
  intros Hwf He. unfold is_fail. rewrite (is_full_false g Hwf He). reflexivity.
Qed.

(** On a full square board [is_fail] answers, and says true exactly when no
    two neighbouring cells hold the same tile. *)
Lemma is_fail_square g :
  wf g -> mWidth g = mHeight g -> no_empty_cell g ->
  exists b, is_fail g = Ok b /\ (b = true <-> ~ adjacent_equal g).
Proof.
  intros Hwf Hsq Hfull. eexists. split; [apply is_fail_square_scan; assumption|].
  rewrite <- (eq_neighbour_adjacent g Hwf Hsq Hfull).
  destruct (existsb _ _); simpl; split; intros H; try reflexivity; try discriminate.
  exfalso. apply H. reflexivity.
Qed.

(** *** Boards that are not square *)

Lemma for_return_app_none {R : Type} (body : Z -> res (option R)) l1 l2 :
  (forall i, i ∈ l1 -> body i = Ok None) ->
  for_return body (l1 ++ l2) = for_return body l2.
Proof.
  induction l1 as [|i l1 IH]; intros H; [reflexivity|].
  cbn [app for_return]. rewrite (H i) by apply list_elem_of_here. cbn [bind].
  apply IH. intros j Hj. apply H. apply list_elem_of_further. exact Hj.
Qed.

Lemma for_return_none {R : Type} (body : Z -> res (option R)) l :
  (forall i, i ∈ l -> body i = Ok None) -> for_return body l = Ok None.
Proof.
  intros H. rewrite <- (app_nil_r l). rewrite for_return_app_none by exact H.
  reflexivity.
Qed.

Lemma not_adjacent_right g x y :
  wf g -> no_empty_cell g -> ~ adjacent_equal g ->
  in_bounds g x y -> in_bounds g (x + 1) y -> (cell g x y =? cell g (x + 1) y) = false.
Proof.
  intros Hwf Hfull Hno Hin Hin'. destruct (Z.eqb_spec (cell g x y) (cell g (x + 1) y)) as [He|];
    [|reflexivity].
  exfalso. apply Hno. exists x, y. left. unfold equal_pair. conjs; auto.
  apply cell_nonzero; assumption.
Qed.

Lemma not_adjacent_down g x y :
  wf g -> no_empty_cell g -> ~ adjacent_equal g ->
  in_bounds g x y -> in_bounds g x (y + 1) -> (cell g x y =? cell g x (y + 1)) = false.
Proof.
  intros Hwf Hfull Hno Hin Hin'. destruct (Z.eqb_spec (cell g x y) (cell g x (y + 1))) as [He|];
    [|reflexivity].
  exfalso. apply Hno. exists x, y. right. unfold equal_pair. conjs; auto.
  apply cell_nonzero; assumption.
Qed.

Section NoEqualNeighbours.

Variable g : Grid.
Hypothesis Hwf : wf g.
Hypothesis Hfull : no_empty_cell g.
Hypothesis Hno : ~ adjacent_equal g.

(** The comparisons with the upper and the left neighbour find nothing. *)
Lemma and_eq_up x y :
  in_bounds g x y ->
  and_eq (y >? 0) (cell g x y) (get_const g x (y - 1)) = Ok false.
Proof.
  intros [Hx Hy]. destruct (y >? 0) eqn:E; [|reflexivity]. cbn [and_eq].
  rewrite (get_const_cell g x (y - 1) Hwf) by (split; lia). cbn [bind].
  rewrite Z.eqb_sym.
  pose proof (not_adjacent_down g x (y - 1) Hwf Hfull Hno) as H.
  replace (y - 1 + 1) with y in H by lia. rewrite H; [reflexivity | split; lia | split; lia].
Qed.

Lemma and_eq_left x y :
  in_bounds g x y ->
  and_eq (x >? 0) (cell g x y) (get_const g (x - 1) y) = Ok false.
Proof.
  intros [Hx Hy]. destruct (x >? 0) eqn:E; [|reflexivity]. cbn [and_eq].
  rewrite (get_const_cell g (x - 1) y Hwf) by (split; lia). cbn [bind].
  rewrite Z.eqb_sym.
  pose proof (not_adjacent_right g (x - 1) y Hwf Hfull Hno) as H.
  replace (x - 1 + 1) with x in H by lia. rewrite H; [reflexivity | split; lia | split; lia].
Qed.

(** The comparisons with the lower and the right neighbour, under the guards
    the source has: nothing found while the neighbour exists, a throw when
    the guard lets the scan past the edge. *)
Lemma and_eq_down x y :
  in_bounds g x y ->
  and_eq (y <? width g - 1) (cell g x y) (get_const g x (y + 1))
  = if (y <? mWidth g - 1) && (mHeight g <=? y + 1) then Fail OutOfRange else Ok false.
Proof.
  intros [Hx Hy]. unfold width. destruct (y <? mWidth g - 1) eqn:E; [|reflexivity].
  cbn [and_eq andb]. destruct (mHeight g <=? y + 1) eqn:E'.
  - rewrite get_const_load, get_out_of_bounds by (unfold in_bounds; lia). reflexivity.
  - rewrite (get_const_cell g x (y + 1) Hwf) by (split; lia). cbn [bind].
    rewrite (not_adjacent_down g x y Hwf Hfull Hno); [reflexivity | split; lia | split; lia].
Qed.

Lemma and_eq_right x y :
  in_bounds g x y ->
  and_eq (x <? height g - 1) (cell g x y) (get_const g (x + 1) y)
  = if (x <? mHeight g - 1) && (mWidth g <=? x + 1) then Fail OutOfRange else Ok false.
Proof.
  intros [Hx Hy]. unfold height. destruct (x <? mHeight g - 1) eqn:E; [|reflexivity].
  cbn [and_eq andb]. destruct (mWidth g <=? x + 1) eqn:E'.
  - rewrite get_const_load, get_out_of_bounds by (unfold in_bounds; lia). reflexivity.
  - rewrite (get_const_cell g (x + 1) y Hwf) by (split; lia). cbn [bind].
    rewrite (not_adjacent_right g x y Hwf Hfull Hno); [reflexivity | split; lia | split; lia].
Qed.

Lemma is_fail_cell_no_equal x y :
  in_bounds g x y ->
  is_fail_cell g x y =
  if (y <? mWidth g - 1) && (mHeight g <=? y + 1) then Fail OutOfRange
  else if (x <? mHeight g - 1) && (mWidth g <=? x + 1) then Fail OutOfRange
  else Ok None.
Proof.
  intros Hin. unfold is_fail_cell.
  rewrite (get_const_cell g x y Hwf Hin). cbn [bind].
  rewrite (and_eq_up x y Hin). cbn [bind].
  rewrite (and_eq_down x y Hin).
  destruct ((y <? mWidth g - 1) && (mHeight g <=? y + 1)); [reflexivity|]. cbn [bind].
  rewrite (and_eq_left x y Hin). cbn [bind].
  rewrite (and_eq_right x y Hin).
  destruct ((x <? mHeight g - 1) && (mWidth g <=? x + 1)); reflexivity.
Qed.

(** A full board that is not square and on which the lose condition holds:
    [is_fail] throws. *)
Lemma is_fail_not_square :
  mWidth g <> mHeight g -> 0 < mWidth g -> 0 < mHeight g ->
  is_fail g = Fail OutOfRange.
Proof.
  intros Hne Hw Hh. unfold is_fail, width, height.
  rewrite (is_full_true g Hwf Hfull). cbn [bind negb].
  destruct (Z.lt_trichotomy (mHeight g) (mWidth g)) as [Hlt | [Heq | Hgt]]; [|lia|].
  - (* lower than wide: the first column runs off the bottom *)
    rewrite (seqZ_cons 0 (mWidth g)) by lia. cbn [for_return].
    replace (mHeight g) with ((mHeight g - 1) + 1) at 1 by lia.
    rewrite seqZ_app by lia. rewrite for_return_app_none.
    + cbn [seqZ]. rewrite Z.add_0_l.
      change (seqZ (mHeight g - 1) 1) with [mHeight g - 1]. cbn [for_return].
      rewrite is_fail_cell_no_equal by (split; lia).
      replace ((mHeight g - 1 <? mWidth g - 1) && (mHeight g <=? mHeight g - 1 + 1))
        with true by lia.
      reflexivity.
    + intros y Hy. apply elem_of_seqZ in Hy.
      rewrite is_fail_cell_no_equal by (split; lia).
      replace ((y <? mWidth g - 1) && (mHeight g <=? y + 1)) with false by lia.
      replace ((0 <? mHeight g - 1) && (mWidth g <=? 0 + 1)) with false by lia.
      reflexivity.
  - (* higher than wide: the last column runs off the right *)
    replace (mWidth g) with ((mWidth g - 1) + 1) at 1 by lia.
    rewrite seqZ_app by lia. rewrite for_return_app_none.
    + rewrite Z.add_0_l. change (seqZ (mWidth g - 1) 1) with [mWidth g - 1].
      cbn [for_return]. rewrite (seqZ_cons 0 (mHeight g)) by lia. cbn [for_return].
      rewrite is_fail_cell_no_equal by (split; lia).
      replace ((0 <? mWidth g - 1) && (mHeight g <=? 0 + 1)) with false by lia.
      replace ((mWidth g - 1 <? mHeight g - 1) && (mWidth g <=? mWidth g - 1 + 1))
        with true by lia.
      reflexivity.
    + intros x Hx. apply elem_of_seqZ in Hx.
      apply for_return_none. intros y Hy. apply elem_of_seqZ in Hy.
      rewrite is_fail_cell_no_equal by (split; lia).
      replace ((y <? mWidth g - 1) && (mHeight g <=? y + 1)) with false by lia.
      replace ((x <? mHeight g - 1) && (mWidth g <=? x + 1)) with false by lia.
      reflexivity.
Qed.

End NoEqualNeighbours.

(** ** The sweep, line by line *)

Lemma only_merge_sweep_lines g d :
  only_merge_sweep g d =
  for_loop (lines d g) (fun a s =>
    for_loop (line_len d g) (fun b s =>
      sweep_cell d (line_x d g a b) (line_y d g a b) s) (clear_skip s))
    (mkSweep g 0 false false).
Proof. destruct d; reflexivity. Qed.

Lemma on_line_in_bounds d g a b :
  on_line d g a b -> in_bounds g (line_x d g a b) (line_y d g a b).
Proof. unfold on_line, in_bounds. destruct d; simpl; lia. Qed.

Lemma get_dire_on_line d g a b c :
  on_line d g a b -> 0 <= b - c < line_len d g ->
  __get_dire g (line_x d g a b) (line_y d g a b) d c = Ok (line_idx d g a (b - c)).
Proof.
  intros [Ha Hb] Hc. unfold line_idx.
  destruct d; simpl in *;
    match goal with
    | |- get g ?x ?y = Ok (?x' + ?y' * _) =>
        replace x with x' by lia; replace y with y' by lia
    end;
    apply get_in_bounds; unfold in_bounds; lia.
Qed.

Lemma get_dire_off_line d g a b c :
  on_line d g a b -> b - c < 0 ->
  __get_dire g (line_x d g a b) (line_y d g a b) d c = Fail OutOfRange.
Proof.
  intros [Ha Hb] Hc.
  destruct d; simpl in *; apply get_out_of_bounds; unfold in_bounds; lia.
Qed.

Lemma load_on_line d g a b :
  wf g -> on_line d g a b -> load g (line_idx d g a b) = Ok (lcell d g a b).
Proof.
  intros Hwf Hl. pose proof (on_line_in_bounds d g a b Hl) as Hin.
  pose proof (get_const_cell g _ _ Hwf Hin) as H.
  rewrite get_const_load, (get_in_bounds g _ _ Hin) in H. exact H.
Qed.

Lemma line_idx_range d g a b :
  wf g -> on_line d g a b -> 0 <= line_idx d g a b < Z.of_nat (length (mGrid g)).
Proof. intros Hwf Hl. apply cell_index_range; auto using on_line_in_bounds. Qed.

Lemma line_idx_inj d g a b a' b' :
  on_line d g a b -> on_line d g a' b' ->
  line_idx d g a b = line_idx d g a' b' -> a = a' /\ b = b'.
Proof.
  intros Hl Hl' He.
  destruct (cell_index_inj g _ _ _ _ (on_line_in_bounds d g a b Hl)
              (on_line_in_bounds d g a' b' Hl') He) as [Hx Hy].
  destruct d; simpl in *; lia.
Qed.

Lemma store_on_line d g a b v :
  wf g -> on_line d g a b -> in_i64 v ->
  exists g', store g (line_idx d g a b) v = Ok g' /\ line_update d g g' a b v.
Proof.
  intros Hwf Hl Hv. pose proof (line_idx_range d g a b Hwf Hl) as Hr.
  eexists. split; [apply store_in_range; exact Hr|].
  unfold line_update. conjs.
  - apply wf_set_cells; auto.
    + apply length_insert.
    + apply Forall_insert; [apply (wf_cells g Hwf) | exact Hv].
  - repeat split.
  - intros a' b' Hl'. unfold lcell, cell. cbn [mGrid mWidth set_cells].
    change (line_x d (set_cells g ?l) a' b') with (line_x d g a' b').
    change (line_y d (set_cells g ?l) a' b') with (line_y d g a' b').
    fold (line_idx d g a' b').
    pose proof (line_idx_range d g a' b' Hwf Hl') as Hr'.
    destruct ((a' =? a) && (b' =? b)) eqn:E.
    + assert (a' = a /\ b' = b) as [-> ->] by lia.
      rewrite list_lookup_insert_eq by lia. reflexivity.
    + rewrite list_lookup_insert_ne; [reflexivity|].
      intros He. apply Z2Nat.inj in He; try lia.
      apply line_idx_inj in He; auto. lia.
Qed.

Lemma line_shape d g g' :
  same_shape g g' ->
  lines d g' = lines d g /\ line_len d g' = line_len d g /\
  (forall a b, line_x d g' a b = line_x d g a b) /\
  (forall a b, line_y d g' a b = line_y d g a b) /\
  (forall a b, line_idx d g' a b = line_idx d g a b) /\
  (forall a b, on_line d g' a b <-> on_line d g a b).
Proof.
  intros (Hw & Hh & _). unfold on_line, line_idx.
  destruct d; simpl; rewrite ?Hw, ?Hh; conjs; auto; intros; reflexivity.
Qed.

(** Two stores on one line: [u] at position [bt], then 0 at position [bc]. *)
Lemma two_stores_on_line d g a bt bc u :
  wf g -> on_line d g a bt -> on_line d g a bc -> bt <> bc -> in_i64 u ->
  exists g1 g2,
    store g (line_idx d g a bt) u = Ok g1 /\
    store g1 (line_idx d g a bc) 0 = Ok g2 /\
    load g2 (line_idx d g a bt) = Ok u /\
    wf g2 /\ same_shape g g2 /\
    forall a' b', on_line d g a' b' ->
      lcell d g2 a' b' =
      if (a' =? a) && (b' =? bc) then 0
      else if (a' =? a) && (b' =? bt) then u
      else lcell d g a' b'.
Proof.
  intros Hwf Ht Hc Hne Hu.
  destruct (store_on_line d g a bt u Hwf Ht Hu) as (g1 & H1 & Hwf1 & Hsh1 & Hl1).
  destruct (line_shape d g g1 Hsh1) as (_ & _ & _ & _ & Hidx1 & Hon1).
  assert (Hz : in_i64 0) by (unfold in_i64, I64_MIN, I64_MAX; lia).
  destruct (store_on_line d g1 a bc 0 Hwf1 (proj2 (Hon1 a bc) Hc) Hz)
    as (g2 & H2 & Hwf2 & Hsh2 & Hl2).
  rewrite Hidx1 in H2.
  destruct (line_shape d g1 g2 Hsh2) as (_ & _ & _ & _ & Hidx2 & Hon2).
  assert (Hcells : forall a' b', on_line d g a' b' ->
            lcell d g2 a' b' =
            if (a' =? a) && (b' =? bc) then 0
            else if (a' =? a) && (b' =? bt) then u
            else lcell d g a' b').
  { intros a' b' Hl. rewrite Hl2 by (apply Hon1; exact Hl).
    destruct ((a' =? a) && (b' =? bc)); [reflexivity|]. apply Hl1. exact Hl. }
  exists g1, g2. conjs; auto.
  - rewrite <- Hidx1, <- Hidx2.
    rewrite load_on_line by (auto; apply Hon2, Hon1; exact Ht).
    rewrite (Hcells a bt Ht).
    replace ((a =? a) && (bt =? bc)) with false by lia.
    replace ((a =? a) && (bt =? bt)) with true by lia. reflexivity.
  - eapply same_shape_trans; eassumption.
Qed.

(** The scan of [slide] steps over empty cells. *)
Lemma slide_loop_zeros d g a b cur skip :
  wf g -> on_line d g a b ->
  forall n fuel coord,
    1 <= coord ->
    (forall c, coord <= c < coord + Z.of_nat n ->
               0 <= b - c /\ lcell d g a (b - c) = 0) ->
    slide_loop (n + fuel) g cur (line_x d g a b) (line_y d g a b) d skip coord
    = slide_loop fuel g cur (line_x d g a b) (line_y d g a b) d skip
                 (coord + Z.of_nat n).
Proof.
  intros Hwf Hl. induction n as [|n IH]; intros fuel coord Hc Hz.
  - simpl. rewrite Z.add_0_r. reflexivity.
  - destruct (Hz coord) as [Hb H0]; [lia|].
    assert (Hon : on_line d g a (b - coord)) by (destruct Hl; split; lia).
    cbn [Nat.add slide_loop]. unfold slide_try.
    rewrite (get_dire_on_line d g a b coord Hl) by (destruct Hl; lia). cbn [bind].
    rewrite (load_on_line d g a (b - coord) Hwf Hon), H0. cbn [bind Z.eqb negb].
    rewrite IH by (try lia; intros c Hcr; apply Hz; lia).
    f_equal. lia.
Qed.

Lemma slide_fuel_split d g a b :
  on_line d g a b -> forall m, 0 <= m <= b ->
  exists rest, slide_fuel g = (Z.to_nat m + S rest)%nat.
Proof.
  intros [Ha Hb] m Hm. unfold slide_fuel.
  exists (Z.to_nat (Z.max (mWidth g) (mHeight g)) - Z.to_nat m)%nat.
  destruct d; simpl in *; lia.
Qed.

Lemma slide_start d g a b skip :
  wf g -> on_line d g a b -> lcell d g a b <> 0 ->
  slide g (line_x d g a b) (line_y d g a b) d skip
  = slide_loop (slide_fuel g) g (line_idx d g a b)
               (line_x d g a b) (line_y d g a b) d skip 1.
Proof.
  intros Hwf Hl Hv. unfold slide.
  rewrite (get_in_bounds g _ _ (on_line_in_bounds d g a b Hl)). cbn [bind].
  fold (line_idx d g a b). rewrite (load_on_line d g a b Hwf Hl). cbn [bind].
  destruct (lcell d g a b =? 0) eqn:E; [lia | reflexivity].
Qed.

(** An empty cell is left alone. *)
Lemma slide_on_empty d g a b skip :
  wf g -> on_line d g a b -> lcell d g a b = 0 ->
  slide g (line_x d g a b) (line_y d g a b) d skip = Ok (g, -1).
Proof.
  intros Hwf Hl Hv. unfold slide.
  rewrite (get_in_bounds g _ _ (on_line_in_bounds d g a b Hl)). cbn [bind].
  fold (line_idx d g a b). rewrite (load_on_line d g a b Hwf Hl), Hv. reflexivity.
Qed.

(** A tile on the edge stays. *)
Lemma slide_on_edge d g a skip :
  wf g -> on_line d g a 0 -> lcell d g a 0 <> 0 ->
  slide g (line_x d g a 0) (line_y d g a 0) d skip = Ok (g, -1).
Proof.
  intros Hwf Hl Hv. rewrite (slide_start d g a 0 skip Hwf Hl Hv).
  unfold slide_fuel. cbn [slide_loop]. unfold slide_try.
  rewrite (get_dire_off_line d g a 0 1 Hl) by lia. reflexivity.
Qed.

(** A tile with only empty cells before it moves to the edge. *)
Lemma slide_to_edge d g a b skip :
  wf g -> on_line d g a b -> 0 < b -> lcell d g a b <> 0 ->
  (forall b', 0 <= b' < b -> lcell d g a b' = 0) ->
  exists g',
    slide g (line_x d g a b) (line_y d g a b) d skip = Ok (g', 0) /\
    wf g' /\ same_shape g g' /\
    forall a' b', on_line d g a' b' ->
      lcell d g' a' b' =
      if (a' =? a) && (b' =? b) then 0
      else if (a' =? a) && (b' =? 0) then lcell d g a b
      else lcell d g a' b'.
Proof.
  intros Hwf Hl Hb Hv Hz.
  assert (Hl0 : on_line d g a 0) by (destruct Hl; split; lia).
  destruct (two_stores_on_line d g a 0 b (lcell d g a b) Hwf Hl0 Hl ltac:(lia))
    as (g1 & g2 & H1 & H2 & _ & Hwf2 & Hsh2 & Hcells).
  { apply (load_in_i64 g (line_idx d g a b)); auto using load_on_line. }
  exists g2. conjs; auto.
  rewrite (slide_start d g a b skip Hwf Hl Hv).
  destruct (slide_fuel_split d g a b Hl b ltac:(lia)) as [rest ->].
  rewrite (slide_loop_zeros d g a b _ skip Hwf Hl)
    by first [lia | intros c Hc; split; [lia | apply Hz; lia]].
  cbn [slide_loop]. unfold slide_try.
  rewrite (get_dire_off_line d g a b _ Hl) by lia. cbn [bind].
  unfold slide_catch. replace (1 + Z.of_nat (Z.to_nat b) >? 1) with true by lia.
  rewrite (get_dire_on_line d g a b _ Hl) by (destruct Hl; lia). cbn [bind].
  replace (b - (1 + Z.of_nat (Z.to_nat b) - 1)) with 0 by lia.
  rewrite (load_on_line d g a b Hwf Hl). cbn [bind].
  rewrite H1. cbn [bind]. rewrite H2. reflexivity.
Qed.

(** A tile whose first occupied cell on the way holds the same value merges
    into it, unless [skip_merge] is set. *)
Lemma slide_merges d g a b b1 :
  wf g -> on_line d g a b -> 0 <= b1 < b -> lcell d g a b <> 0 ->
  lcell d g a b1 = lcell d g a b ->
  (forall b', b1 < b' < b -> lcell d g a b' = 0) ->
  exists g',
    slide g (line_x d g a b) (line_y d g a b) d false
    = Ok (g', wrap32 (wrap64 (lcell d g a b * 2))) /\
    wf g' /\ same_shape g g' /\
    forall a' b', on_line d g a' b' ->
      lcell d g' a' b' =
      if (a' =? a) && (b' =? b) then 0
      else if (a' =? a) && (b' =? b1) then wrap64 (lcell d g a b * 2)
      else lcell d g a' b'.
Proof.
  intros Hwf Hl Hb Hv He Hz.
  assert (Hl1 : on_line d g a b1) by (destruct Hl; split; lia).
  destruct (two_stores_on_line d g a b1 b (wrap64 (lcell d g a b * 2))
              Hwf Hl1 Hl ltac:(lia) (wrap64_range _))
    as (g1 & g2 & H1 & H2 & Hld & Hwf2 & Hsh2 & Hcells).
  exists g2. conjs; auto.
  rewrite (slide_start d g a b false Hwf Hl Hv).
  destruct (slide_fuel_split d g a b Hl (b - b1 - 1) ltac:(lia)) as [rest ->].
  rewrite (slide_loop_zeros d g a b _ false Hwf Hl)
    by first [lia | intros c Hc; split; [lia | apply Hz; lia]].
  cbn [slide_loop]. unfold slide_try.
  rewrite (get_dire_on_line d g a b _ Hl) by (destruct Hl; lia). cbn [bind].
  replace (b - (1 + Z.of_nat (Z.to_nat (b - b1 - 1)))) with b1 by lia.
  rewrite (load_on_line d g a b1 Hwf Hl1), He. cbn [bind].
  replace (lcell d g a b =? 0) with false by lia. cbn [negb].
  rewrite (load_on_line d g a b Hwf Hl). cbn [bind].
  rewrite Z.eqb_refl. rewrite H1. cbn [bind]. rewrite H2. cbn [bind].
  rewrite Hld. reflexivity.
Qed.

(** ** Two equal tiles side by side *)

(** Position [b] of line [a] is the cell number [a * B + b] of the sweep. *)
Lemma sweep_pos_inj B a b a0 b0 :
  0 <= b < B -> 0 <= b0 < B -> a * B + b = a0 * B + b0 -> a = a0 /\ b = b0.
Proof.
  intros Hb Hb0 He.
  assert (a = a0).
  { destruct (Z.lt_trichotomy a a0) as [Hlt | [Heq | Hgt]]; [exfalso | exact Heq | exfalso].
    - assert (B <= (a0 - a) * B) by nia. lia.
    - assert (B <= (a - a0) * B) by nia. lia. }
  subst. lia.
Qed.

Section Pair.

Variables (d : DIRECTION) (g : Grid) (a0 b0 v : Z).
Hypothesis Hwf : wf g.
Hypothesis Hv : 0 < v.
Hypothesis Hsmall : 2 * v <= INT_MAX.
Hypothesis Hfirst : on_line d g a0 b0.
Hypothesis Hsecond : on_line d g a0 (b0 + 1).
Hypothesis Hgrid : line_grid d g (pair_f a0 b0 v).

Lemma pair_step a b s :
  on_line d g a b ->
  pair_inv d g a0 b0 v (a * line_len d g + b) s ->
  exists s', sweep_cell d (line_x d g a b) (line_y d g a b) s = Ok s' /\
             pair_inv d g a0 b0 v (a * line_len d g + b + 1) s'.
Proof.
  intros Hl (H1 & H2 & H3).
  assert (HB : 0 <= b < line_len d g /\ 0 <= b0 /\ b0 + 1 < line_len d g)
    by (destruct Hl, Hfirst, Hsecond; lia).
  destruct (Z.lt_trichotomy (a * line_len d g + b) (a0 * line_len d g + b0)) as [Hk | [Hk | Hk]].
  - (* before the pair *)
    rewrite (H1 ltac:(lia)). unfold sweep_cell. cbn [sw_grid skip_merge].
    rewrite (slide_on_empty d g a b false Hwf Hl).
    2:{ rewrite (Hgrid a b Hl). unfold pair_f. zcases.
        all: subst; lia. }
    cbn. eexists. split; [reflexivity|]. unfold pair_inv.
    conjs; intros; try lia; conjs; auto; try lia.
  - (* the first tile *)
    assert (a = a0 /\ b = b0) as [-> ->]
      by (apply (sweep_pos_inj (line_len d g)); lia).
    rewrite (H1 ltac:(lia)). unfold sweep_cell. cbn [sw_grid skip_merge].
    assert (Hc : lcell d g a0 b0 = v)
      by (rewrite (Hgrid a0 b0 Hl); unfold pair_f; zcases).
    destruct (Z.eq_dec b0 0) as [Hb0 | Hb0].
    + subst b0. rewrite (slide_on_edge d g a0 false Hwf Hl) by lia.
      cbn. eexists. split; [reflexivity|]. unfold pair_inv.
      cbn [sw_grid new_score skip_merge have_motions].
      conjs; intros; try lia; conjs; auto using same_shape_refl; try lia.
    + destruct (slide_to_edge d g a0 b0 false Hwf Hl) as (g' & Hs & Hwf' & Hsh & Hcells);
        [lia | lia | |].
      { intros b' Hb'. rewrite (Hgrid a0 b'); [|destruct Hl; split; lia].
        unfold pair_f. zcases. }
      rewrite Hs. cbn. eexists. split; [reflexivity|]. unfold pair_inv.
      cbn [sw_grid new_score skip_merge have_motions].
      conjs; intros; try lia; conjs; auto; try lia.
      intros a' b' Hl'. destruct (line_shape d g g' Hsh) as (_ & _ & _ & _ & _ & Hon).
      apply Hon in Hl'. rewrite (Hcells a' b' Hl'), Hc, (Hgrid a' b' Hl').
      unfold pair_f, moved_f. zcases.
  - destruct (Z.eq_dec (a * line_len d g + b) ((a0 * line_len d g + b0) + 1)) as [Hk2 | Hk2].
    + (* the second tile *)
      assert (a = a0 /\ b = b0 + 1) as [-> ->]
        by (apply (sweep_pos_inj (line_len d g)); lia).
      destruct (H2 Hk2) as (Hwfs & Hshs & Hgs & Hsc & Hsk & Hm).
      destruct (line_shape d g (sw_grid s) Hshs) as (_ & _ & Hx & Hy & _ & Hon).
      unfold sweep_cell. rewrite <- Hx, <- Hy, Hsk.
      assert (Hl' : on_line d (sw_grid s) a0 (b0 + 1)) by (apply Hon; exact Hl).
      assert (Hl0 : on_line d (sw_grid s) a0 0) by (apply Hon; destruct Hl; split; lia).
      assert (Hc : lcell d (sw_grid s) a0 (b0 + 1) = v)
        by (rewrite (Hgs _ _ Hl'); unfold moved_f; zcases).
      assert (Hwrap : wrap64 (v * 2) = 2 * v).
      { rewrite wrap64_id; [lia|]. unfold in_i64, I64_MIN, I64_MAX, INT_MAX in *. lia. }
      destruct (slide_merges d (sw_grid s) a0 (b0 + 1) 0 Hwfs Hl')
        as (g' & Hs & Hwf' & Hsh & Hcells); [lia | lia | | |].
      { rewrite Hc, (Hgs _ _ Hl0). unfold moved_f. zcases. }
      { intros b' Hb'. rewrite (Hgs a0 b'); [|destruct Hl'; split; lia].
        unfold moved_f. zcases. }
      rewrite Hs, Hc, Hwrap. cbn [bind].
      rewrite (wrap32_id (2 * v)) by (unfold in_int, INT_MIN, INT_MAX in *; lia).
      replace (2 * v >? 0) with true by lia. replace (2 * v >=? 0) with true by lia.
      rewrite Hsc, wrap64_id
        by (unfold in_i64, I64_MIN, I64_MAX, INT_MAX in *; lia).
      eexists. split; [reflexivity|]. unfold pair_inv.
      cbn [sw_grid new_score skip_merge have_motions].
      conjs; intros; try lia; conjs; auto; try lia.
      * eapply same_shape_trans; eassumption.
      * intros a' b' Hl''.
        destruct (line_shape d (sw_grid s) g' Hsh) as (_ & _ & _ & _ & _ & Hon').
        apply Hon' in Hl''. rewrite (Hcells a' b' Hl''), Hc, Hwrap, (Hgs a' b' Hl'').
        unfold moved_f, merged_f. zcases.
    + (* after the pair *)
      destruct (H3 ltac:(lia)) as (Hwfs & Hshs & Hgs & Hsc & Hm).
      destruct (line_shape d g (sw_grid s) Hshs) as (_ & _ & Hx & Hy & _ & Hon).
      unfold sweep_cell. rewrite <- Hx, <- Hy.
      rewrite (slide_on_empty d (sw_grid s) a b (skip_merge s) Hwfs)
        by first [ apply Hon; exact Hl
                 | rewrite (Hgs a b) by (apply Hon; exact Hl);
                   unfold merged_f; zcases; subst; lia ].
      cbn. eexists. split; [reflexivity|]. unfold pair_inv.
      cbn [sw_grid new_score skip_merge have_motions].
      conjs; intros; try lia; conjs; auto; try lia.
Qed.

Lemma pair_sweep :
  exists s, only_merge_sweep g d = Ok s /\
            pair_inv d g a0 b0 v (lines d g * line_len d g) s.
Proof.
  rewrite only_merge_sweep_lines.
  assert (HA : 0 <= lines d g /\ 0 <= line_len d g)
    by (destruct Hfirst; lia).
  assert (Hk1 : 0 <= a0 * line_len d g + b0) by (destruct Hfirst; nia).
  apply (nest_inv (pair_inv d g a0 b0 v) (lines d g) (line_len d g)
           (fun a b s => sweep_cell d (line_x d g a b) (line_y d g a b) s) clear_skip);
    try lia.
  - intros k s (H1 & H2 & H3). unfold pair_inv. conjs.
    + intros Hk. rewrite (H1 Hk). reflexivity.
    + intros Hk. destruct (H2 Hk) as (? & ? & ? & ? & ? & ?). cbn. auto 10.
    + intros Hk. destruct (H3 Hk) as (? & ? & ? & ? & ?). cbn. auto 10.
  - intros a b s Ha Hb. apply pair_step. split; assumption.
  - unfold pair_inv. conjs; intros; try lia; conjs; auto; try lia.
Qed.

(** Two equal tiles [v] side by side on a line of an otherwise empty grid,
    merged along the line: one tile [2 * v] on the edge, every other cell
    empty, [2 * v] returned and a motion reported, as long as [2 * v] is an
    [int]. *)
Lemma merge_pair_in_range :
  exists g',
    only_merge g d = Ok (g', 2 * v, true) /\
    wf g' /\ same_shape g g' /\ line_grid d g' (merged_f a0 v).
Proof.
  destruct pair_sweep as (s & Hs & _ & _ & H3).
  destruct H3 as (Hwf' & Hsh & Hg & Hsc & Hm).
  { destruct Hfirst as [Ha _], Hsecond as [_ Hb]. nia. }
  exists (sw_grid s). unfold only_merge. rewrite Hs. cbn [bind].
  rewrite Hm, Hsc. auto.
Qed.

End Pair.

(** The tiles [0,2,2,0] in the second row of a 4x4 grid, merged LEFT. *)
Example merge_pair_in_range_0220 :
  exists g',
    only_merge (grid_with_row 1 [0; 2; 2; 0]) LEFT = Ok (g', 4, true) /\
    wf g' /\ same_shape (grid_with_row 1 [0; 2; 2; 0]) g' /\
    line_grid LEFT g' (merged_f 1 2).
Proof.
  apply (merge_pair_in_range LEFT (grid_with_row 1 [0; 2; 2; 0]) 1 1 2).
  - solve_wf.
  - lia.
  - unfold INT_MAX. lia.
  - unfold on_line. simpl. lia.
  - unfold on_line. simpl. lia.
  - intros a b [Ha Hb]. simpl in Ha, Hb.
    assert (Ha' : a = 0 \/ a = 1 \/ a = 2 \/ a = 3) by lia.
    assert (Hb' : b = 0 \/ b = 1 \/ b = 2 \/ b = 3) by lia.
    destruct Ha' as [-> | [-> | [-> | ->]]]; destruct Hb' as [-> | [-> | [-> | ->]]];
      reflexivity.
Defined.

(** ** One line on its own *)

Lemma lget_lset l p v q :
  0 <= p < Z.of_nat (length l) -> 0 <= q ->
  lget (lset l p v) q = if q =? p then v else lget l q.
Proof.
  intros Hp Hq. unfold lget, lset. destruct (Z.eqb_spec q p) as [-> | Hne].
  - rewrite list_lookup_insert_eq by lia. reflexivity.
  - rewrite list_lookup_insert_ne by lia. reflexivity.
Qed.

Lemma length_lset l p v : length (lset l p v) = length l.
Proof. apply length_insert. Qed.

Lemma line_post_refl d g a l : wf g -> line_is d g a l -> line_post d g a g l.
Proof.
  intros Hwf Hl. unfold line_post, line_frame. conjs; auto using same_shape_refl.
Qed.

(** After [stores] the line holds the list with the same two updates. *)
Lemma line_post_two_stores d g a l bt bc u g2 :
  wf g -> on_line d g a bt -> on_line d g a bc -> line_is d g a l ->
  wf g2 -> same_shape g g2 ->
  (forall a' b', on_line d g a' b' ->
     lcell d g2 a' b' =
     if (a' =? a) && (b' =? bc) then 0
     else if (a' =? a) && (b' =? bt) then u
     else lcell d g a' b') ->
  line_post d g a g2 (lset (lset l bt u) bc 0).
Proof.
  intros Hwf Ht Hc [Hlen Hl] Hwf2 Hsh Hcells.
  destruct (line_shape d g g2 Hsh) as (_ & HB & _ & _ & _ & _).
  unfold line_post, line_is, line_frame. rewrite HB, !length_lset. conjs; auto.
  - intros b Hb.
    rewrite (Hcells a b) by (destruct Ht; split; lia).
    rewrite !lget_lset by (rewrite ?length_lset; destruct Ht, Hc; lia).
    rewrite Z.eqb_refl. cbn [andb]. rewrite (Hl b Hb). reflexivity.
  - intros a' b' Hon Hne. rewrite (Hcells a' b' Hon).
    replace (a' =? a) with false by lia. reflexivity.
Qed.

Lemma catch_sim d g a b l coord :
  wf g -> on_line d g a b -> line_is d g a l -> 1 <= coord <= b + 1 ->
  exists g',
    slide_catch g (line_idx d g a b) (line_x d g a b) (line_y d g a b) d coord
    = Ok (g', snd (stop1 l b (lget l b) (b - coord + 1))) /\
    line_post d g a g' (fst (stop1 l b (lget l b) (b - coord + 1))).
Proof.
  intros Hwf Hon Hl Hc. unfold slide_catch, stop1.
  replace (b - (b - coord + 1) >? 0) with (coord >? 1) by lia.
  destruct (coord >? 1) eqn:E.
  - assert (Hp : on_line d g a (b - coord + 1)) by (destruct Hon; split; lia).
    pose proof (proj2 Hl b ltac:(destruct Hon; lia)) as Hcv.
    destruct (two_stores_on_line d g a (b - coord + 1) b (lcell d g a b) Hwf Hp Hon
                ltac:(lia))
      as (g1 & g2 & H1 & H2 & _ & Hwf2 & Hsh2 & Hcells).
    { apply (load_in_i64 g (line_idx d g a b)); auto using load_on_line. }
    rewrite (get_dire_on_line d g a b _ Hon) by (destruct Hon; lia). cbn [bind].
    replace (b - (coord - 1)) with (b - coord + 1) by lia.
    rewrite (load_on_line d g a b Hwf Hon). cbn [bind].
    rewrite H1. cbn [bind]. rewrite H2. cbn [bind fst snd].
    exists g2. split; [reflexivity|]. rewrite <- Hcv.
    apply line_post_two_stores; auto.
  - exists g. split; [reflexivity|]. apply line_post_refl; assumption.
Qed.

Lemma scan_sim d g a b skip l :
  wf g -> on_line d g a b -> line_is d g a l ->
  forall t fuel, (t < fuel)%nat -> Z.of_nat t <= b ->
  exists g',
    slide_loop fuel g (line_idx d g a b) (line_x d g a b) (line_y d g a b) d skip
               (b - Z.of_nat t + 1)
    = Ok (g', snd (scan1 l b (lget l b) skip t)) /\
    line_post d g a g' (fst (scan1 l b (lget l b) skip t)).
Proof.
  intros Hwf Hon Hl. pose proof (proj2 Hl b ltac:(destruct Hon; lia)) as Hcv.
  induction t as [|t IH]; intros fuel Hf Ht; (destruct fuel as [|fuel]; [lia|]).
  - cbn [slide_loop scan1]. unfold slide_try.
    rewrite (get_dire_off_line d g a b _ Hon) by lia. cbn [bind].
    destruct (catch_sim d g a b l (b - Z.of_nat 0 + 1) Hwf Hon Hl ltac:(lia)) as (g' & Hs & Hp).
    replace (b - (b - Z.of_nat 0 + 1) + 1) with 0 in * by lia.
    exists g'. split; assumption.
  - destruct (catch_sim d g a b l (b - Z.of_nat (S t) + 1) Hwf Hon Hl ltac:(lia))
      as (gc & Hsc & Hpc).
    replace (b - (b - Z.of_nat (S t) + 1) + 1) with (Z.of_nat t + 1) in * by lia.
    assert (Hp : on_line d g a (Z.of_nat t)) by (destruct Hon; split; lia).
    cbn [slide_loop scan1]. unfold slide_try.
    rewrite (get_dire_on_line d g a b _ Hon) by (destruct Hon; lia). cbn [bind].
    replace (b - (b - Z.of_nat (S t) + 1)) with (Z.of_nat t) by lia.
    rewrite (load_on_line d g a _ Hwf Hp), (proj2 Hl (Z.of_nat t))
      by (destruct Hp; lia).
    cbn [bind].
    destruct (lget l (Z.of_nat t) =? 0) eqn:Etv; cbn [negb].
    { replace (b - Z.of_nat (S t) + 1 + 1) with (b - Z.of_nat t + 1) by lia.
      apply IH; lia. }
    destruct skip; [exists gc; split; assumption|].
    rewrite (load_on_line d g a b Hwf Hon), Hcv. cbn [bind].
    destruct (lget l (Z.of_nat t) =? lget l b) eqn:Ecv;
      [|exists gc; split; assumption].
    destruct (two_stores_on_line d g a (Z.of_nat t) b
                (wrap64 (lget l (Z.of_nat t) * 2)) Hwf Hp Hon ltac:(lia)
                (wrap64_range _))
      as (g1 & g2 & H1 & H2 & Hld & Hwf2 & Hsh2 & Hcells).
    rewrite H1. cbn [bind]. rewrite H2. cbn [bind]. rewrite Hld. cbn [bind fst snd].
    exists g2. split; [reflexivity|]. apply line_post_two_stores; auto.
Qed.

(** [slide] on the grid is [slide1] on the line of the cell. *)
Lemma slide_sim d g a b skip l :
  wf g -> on_line d g a b -> line_is d g a l ->
  exists g',
    slide g (line_x d g a b) (line_y d g a b) d skip = Ok (g', snd (slide1 l b skip)) /\
    line_post d g a g' (fst (slide1 l b skip)).
Proof.
  intros Hwf Hon Hl. pose proof (proj2 Hl b ltac:(destruct Hon; lia)) as Hcv.
  unfold slide1. destruct (lget l b =? 0) eqn:E.
  - exists g. split; [apply slide_on_empty; auto; lia | apply line_post_refl; auto].
  - rewrite (slide_start d g a b skip Hwf Hon) by lia.
    destruct (scan_sim d g a b skip l Hwf Hon Hl (Z.to_nat b) (slide_fuel g))
      as (g' & Hs & Hp).
    + unfold slide_fuel. destruct Hon as [Ha Hb]. destruct d; simpl in *; lia.
    + destruct Hon. lia.
    + replace (b - Z.of_nat (Z.to_nat b) + 1) with 1 in Hs by (destruct Hon; lia).
      exists g'. split; assumption.
Qed.

Lemma line_post_trans d g0 a g l g' l' :
  line_post d g0 a g l -> line_post d g a g' l' -> line_post d g0 a g' l'.
Proof.
  intros (Hwf & Hsh & Hl & Hfr) (Hwf' & Hsh' & Hl' & Hfr').
  destruct (line_shape d g0 g Hsh) as (_ & _ & _ & _ & _ & Hon).
  unfold line_post, line_frame. conjs; auto.
  - eapply same_shape_trans; eassumption.
  - intros a' b' Ho Hne. rewrite Hfr' by (auto; apply Hon; exact Ho).
    apply Hfr; assumption.
Qed.

Lemma steps1_succ b st : 0 <= b -> steps1 (b + 1) st = step1 (steps1 b st) b.
Proof.
  intros Hb. unfold steps1. rewrite seqZ_app by lia. rewrite foldl_app.
  reflexivity.
Qed.

(** One pass of the inner loop of [only_merge] is [steps1] on the line. *)
Lemma line_sweep_sim d g0 a s st :
  0 <= a < lines d g0 -> line_corr d g0 a s st ->
  exists s',
    for_loop (line_len d g0)
             (fun b s => sweep_cell d (line_x d g0 a b) (line_y d g0 a b) s) s = Ok s' /\
    line_corr d g0 a s' (steps1 (line_len d g0) st).
Proof.
  intros Ha Hcorr.
  assert (HB : 0 <= line_len d g0).
  { destruct Hcorr as ((_ & Hsh & [Hlen _] & _) & _).
    destruct (line_shape d g0 (sw_grid s) Hsh) as (_ & HBeq & _). lia. }
  apply (for_loop_inv (fun b s' => line_corr d g0 a s' (steps1 b st))); auto.
  intros b s1 Hb ((Hwf1 & Hsh1 & Hl1 & Hfr1) & Hsc & Hsk & Hm).
  destruct (line_shape d g0 (sw_grid s1) Hsh1) as (HA & HBeq & Hx & Hy & _ & Hon).
  assert (Hon1 : on_line d (sw_grid s1) a b) by (apply Hon; split; lia).
  destruct (slide_sim d (sw_grid s1) a b (skip_merge s1) _ Hwf1 Hon1 Hl1)
    as (g' & Hs & Hp).
  unfold sweep_cell. rewrite <- Hx, <- Hy, Hs. cbn [bind].
  eexists. split; [reflexivity|].
  rewrite steps1_succ by lia. unfold step1. rewrite <- Hsk, <- Hsc, <- Hm.
  destruct (slide1 (ls_cells (steps1 b st)) b (skip_merge s1)) as [l' r].
  cbn [fst snd] in *. unfold line_corr.
  cbn [sw_grid new_score skip_merge have_motions ls_cells ls_score ls_skip ls_motions].
  conjs; auto.
  apply (line_post_trans d g0 a (sw_grid s1) (ls_cells (steps1 b st))); auto.
  unfold line_post. auto.
Qed.

(** The inner loop over an empty line changes nothing. *)
Lemma line_sweep_zero d g0 a s :
  wf (sw_grid s) -> same_shape g0 (sw_grid s) -> 0 <= a < lines d g0 ->
  (forall b, 0 <= b < line_len d g0 -> lcell d (sw_grid s) a b = 0) ->
  0 <= line_len d g0 ->
  for_loop (line_len d g0)
           (fun b s => sweep_cell d (line_x d g0 a b) (line_y d g0 a b) s) s = Ok s.
Proof.
  intros Hwf Hsh Ha Hz HB.
  destruct (line_shape d g0 (sw_grid s) Hsh) as (_ & _ & Hx & Hy & _ & Hon).
  destruct (for_loop_inv (fun _ s' => s' = s) (line_len d g0)
              (fun b s => sweep_cell d (line_x d g0 a b) (line_y d g0 a b) s) s HB eq_refl)
    as (s' & Hs' & ->); [|exact Hs'].
  intros b s1 Hb ->. exists s. split; [|reflexivity].
  unfold sweep_cell. rewrite <- Hx, <- Hy.
  rewrite (slide_on_empty d (sw_grid s) a b (skip_merge s) Hwf)
    by first [apply Hon; split; lia | apply Hz; lia].
  cbn. destruct s; reflexivity.
Qed.

(** A grid with a single occupied line: [only_merge] sweeps that line as
    [merge1] does and leaves the rest empty. *)
Lemma only_merge_single_line d g a0 l :
  wf g -> 0 <= a0 < lines d g -> line_is d g a0 l ->
  (forall a b, on_line d g a b -> a <> a0 -> lcell d g a b = 0) ->
  exists g',
    only_merge g d
    = Ok (g',
          if ls_motions (merge1 l 0 false) then ls_score (merge1 l 0 false) else -1,
          ls_motions (merge1 l 0 false)) /\
    wf g' /\ same_shape g g' /\
    line_is d g' a0 (ls_cells (merge1 l 0 false)) /\
    (forall a b, on_line d g a b -> a <> a0 -> lcell d g' a b = 0).
Proof.
  intros Hwf Ha0 Hl Hz.
  assert (HB : 0 <= line_len d g) by (destruct Hl; lia).
  destruct (for_loop_inv (single_line_inv d g a0 l) (lines d g)
              (fun a s => for_loop (line_len d g)
                 (fun b s => sweep_cell d (line_x d g a b) (line_y d g a b) s)
                 (clear_skip s))
              (mkSweep g 0 false false))
    as (s & Hs & _ & H2).
  - lia.
  - unfold single_line_inv. split; [reflexivity | lia].
  - intros a s Ha (H1 & H2).
    destruct (Z.lt_trichotomy a a0) as [Hlt | [-> | Hgt]].
    + rewrite (H1 ltac:(lia)). change (clear_skip (mkSweep g 0 false false))
        with (mkSweep g 0 false false).
      rewrite (line_sweep_zero d g a (mkSweep g 0 false false));
        cbn [sw_grid]; auto using same_shape_refl.
      2:{ intros b Hb. apply Hz; [split; lia | lia]. }
      eexists. split; [reflexivity|]. unfold single_line_inv. split; [reflexivity | lia].
    + rewrite (H1 ltac:(lia)). change (clear_skip (mkSweep g 0 false false))
        with (mkSweep g 0 false false).
      destruct (line_sweep_sim d g a0 (mkSweep g 0 false false) (mkLine l 0 false false) Ha0)
        as (s' & Hs' & (Hwf' & Hsh' & Hl' & Hfr') & Hsc & _ & Hm).
      { unfold line_corr. cbn. conjs; auto. apply line_post_refl; assumption. }
      exists s'. split; [exact Hs'|].
      assert (Hst : steps1 (line_len d g) (mkLine l 0 false false) = merge1 l 0 false).
      { unfold merge1. destruct Hl as [-> _]. reflexivity. }
      rewrite Hst in *. unfold single_line_inv. split; [lia|]. intros _. conjs; auto.
      intros a' b' Hon Hne. rewrite Hfr' by assumption. apply Hz; assumption.
    + destruct (H2 Hgt) as (Hwfs & Hshs & Hls & Hzs & Hsc & Hm).
      rewrite (line_sweep_zero d g a (clear_skip s));
        cbn [sw_grid clear_skip]; auto.
      2:{ intros b Hb. apply Hzs; [split; lia | lia]. }
      eexists. split; [reflexivity|]. unfold single_line_inv. split; [lia|].
      intros _. cbn. conjs; auto.
  - destruct (H2 ltac:(lia)) as (Hwfs & Hshs & Hls & Hzs & Hsc & Hm).
    exists (sw_grid s). unfold only_merge. rewrite only_merge_sweep_lines, Hs.
    cbn [bind]. rewrite Hsc, Hm. conjs; auto.
Qed.

(** A grid whose only occupied row is [y], merged LEFT: the row is swept as
    [merge1] sweeps the list of its cells. *)
Lemma only_merge_left_row g y line :
  wf g -> row_grid g y line ->
  exists g',
    only_merge g LEFT
    = Ok (g',
          if ls_motions (merge1 line 0 false) then ls_score (merge1 line 0 false) else -1,
          ls_motions (merge1 line 0 false)) /\
    wf g' /\ same_shape g g' /\ row_grid g' y (ls_cells (merge1 line 0 false)).
Proof.
  intros Hwf (Hw & Hy & Hcells).
  destruct (only_merge_single_line LEFT g y line Hwf Hy) as (g' & Hm & Hwf' & Hsh & Hl & Hz).
  - split; [simpl; lia|]. intros b Hb. unfold lcell. simpl in *.
    rewrite Hcells by (split; lia). rewrite Z.eqb_refl. reflexivity.
  - intros a b [Ha Hb] Hne. unfold lcell. simpl in *.
    rewrite Hcells by (split; lia). replace (a =? y) with false by lia. reflexivity.
  - exists g'. conjs; auto. destruct Hsh as (Hw' & Hh' & Hs'). destruct Hl as [Hlen Hl].
    unfold row_grid. simpl in Hlen. rewrite Hh'. conjs; try lia.
    intros x' y' [Hx' Hy']. rewrite Hw' in Hx'. rewrite Hh' in Hy'.
    destruct (Z.eqb_spec y' y) as [-> | Hne].
    + apply (Hl x'). simpl. rewrite Hw'. lia.
    + apply (Hz y' x'); [split; simpl; lia | exact Hne].
Qed.

(** The row [line] of a 4x4 grid built by [grid_with_row]. *)
Lemma row_grid_with_row (row : nat) (line : list Z) :
  (row < 4)%nat -> length line = 4%nat ->
  row_grid (grid_with_row row line) (Z.of_nat row) line.
Proof.
  intros Hr Hlen.
  destruct line as [|c0 [|c1 [|c2 [|c3 [|? ?]]]]]; try discriminate Hlen.
  unfold row_grid. simpl. conjs; try lia.
  intros x' y' [Hx Hy]. simpl in Hx, Hy.
  assert (Hx' : x' = 0 \/ x' = 1 \/ x' = 2 \/ x' = 3) by lia.
  assert (Hy' : y' = 0 \/ y' = 1 \/ y' = 2 \/ y' = 3) by lia.
  destruct row as [|[|[|[|?]]]]; try lia;
    destruct Hx' as [-> | [-> | [-> | ->]]]; destruct Hy' as [-> | [-> | [-> | ->]]];
    reflexivity.
Qed.

(** ** Line by line *)

Lemma for_list_ext {S : Type} (body1 body2 : Z -> S -> res S) l :
  (forall i s, body1 i s = body2 i s) ->
  forall s, for_list body1 l s = for_list body2 l s.
Proof.
  intros He. induction l as [|i l IH]; intros s; cbn [for_list]; [reflexivity|].
  rewrite He. destruct (body2 i s); cbn [bind]; [apply IH | reflexivity].
Qed.

(** The cells of line [a], position 0 first. *)
Lemma line_is_cells d g a :
  0 <= line_len d g ->
  line_is d g a (fmap (lcell d g a) (seqZ 0 (line_len d g))).
Proof.
  intros HB. split.
  - rewrite length_fmap, length_seqZ. lia.
  - intros b Hb. unfold lget. rewrite list_lookup_fmap.
    rewrite (lookup_seqZ_lt 0 (line_len d g) (Z.to_nat b)) by lia.
    cbn. f_equal. lia.
Qed.

(** One line swept on a grid that has the shape of [g], seen from the
    state the sweep is in. *)
Lemma line_sweep_from d g a s st :
  same_shape g (sw_grid s) -> 0 <= a < lines d g ->
  line_corr d (sw_grid s) a s st ->
  exists s',
    for_loop (line_len d g)
             (fun b s => sweep_cell d (line_x d g a b) (line_y d g a b) s) s = Ok s' /\
    line_corr d (sw_grid s) a s' (steps1 (line_len d g) st).
Proof.
  intros Hsh Ha Hcorr.
  destruct (line_shape d g (sw_grid s) Hsh) as (HA & HB & Hx & Hy & _ & _).
  destruct (line_sweep_sim d (sw_grid s) a s st ltac:(lia) Hcorr) as (s' & Hs' & Hc').
  exists s'. rewrite <- HB. split; [|exact Hc'].
  rewrite <- Hs'. unfold for_loop. apply for_list_ext.
  intros b s0. rewrite Hx, Hy. reflexivity.
Qed.

Lemma lcell_In d g a b : wf g -> on_line d g a b -> In (lcell d g a b) (mGrid g).
Proof.
  intros Hwf Hon. pose proof (load_on_line d g a b Hwf Hon) as H.
  apply load_Some in H as [_ H]. apply list_elem_of_In.
  exact (list_elem_of_lookup_2 _ _ _ H).
Qed.

(** ** Merging once on one line *)

Lemma merge_first_pair_cons a b l :
  merge_first_pair (a :: b :: l)
  = if a =? b then 2 * a :: l else a :: merge_first_pair (b :: l).
Proof. reflexivity. Qed.

Lemma has_pair_cons a b l :
  has_pair (a :: b :: l) = if a =? b then true else has_pair (b :: l).
Proof. reflexivity. Qed.

Lemma merge_first_pair_no_pair ts : has_pair ts = false -> merge_first_pair ts = ts.
Proof.
  induction ts as [|a rest IH]; [reflexivity|].
  destruct rest as [|b rest']; [reflexivity|].
  rewrite has_pair_cons, merge_first_pair_cons. destruct (a =? b); [discriminate|].
  intros H. rewrite (IH H). reflexivity.
Qed.

Lemma merge_first_pair_after ts t :
  has_pair ts = true ->
  merge_first_pair (ts ++ [t]) = merge_first_pair ts ++ [t] /\
  has_pair (ts ++ [t]) = true.
Proof.
  induction ts as [|a rest IH]; [discriminate|].
  destruct rest as [|b rest']; [discriminate|].
  change ((a :: b :: rest') ++ [t]) with (a :: b :: (rest' ++ [t])).
  rewrite !has_pair_cons, !merge_first_pair_cons. destruct (a =? b); [auto|].
  intros H. destruct (IH H) as [H1 H2]. cbn [app] in H1, H2. rewrite H1, H2. auto.
Qed.

Lemma merge_first_pair_snoc ts t :
  has_pair ts = false ->
  (last ts = Some t ->
   exists ts', ts = ts' ++ [t] /\ merge_first_pair (ts ++ [t]) = ts' ++ [2 * t] /\
               has_pair (ts ++ [t]) = true) /\
  (last ts <> Some t ->
   merge_first_pair (ts ++ [t]) = ts ++ [t] /\ has_pair (ts ++ [t]) = false).
Proof.
  induction ts as [|a rest IH]; [intros _; split; [discriminate | auto]|].
  destruct rest as [|b rest'].
  - intros _. change ([a] ++ [t]) with [a; t].
    rewrite has_pair_cons, merge_first_pair_cons. cbn [last].
    destruct (Z.eqb_spec a t) as [-> | Hne]; split.
    + intros _. exists []. auto.
    + intros H. congruence.
    + intros [= H]. contradiction.
    + auto.
  - rewrite has_pair_cons. destruct (Z.eqb_spec a b) as [Hab | Hab]; [discriminate|].
    intros H. destruct (IH H) as [IH1 IH2].
    change (last (a :: b :: rest')) with (last (b :: rest')).
    change ((a :: b :: rest') ++ [t]) with (a :: b :: (rest' ++ [t])).
    change ((b :: rest') ++ [t]) with (b :: (rest' ++ [t])) in IH1, IH2.
    rewrite has_pair_cons, merge_first_pair_cons.
    destruct (Z.eqb_spec a b) as [|_]; [contradiction|]. split.
    + intros Hl. destruct (IH1 Hl) as (ts' & Hts & -> & ->).
      exists (a :: ts'). rewrite Hts. auto.
    + intros Hl. destruct (IH2 Hl) as [-> ->]. auto.
Qed.

Lemma merge_first_pair_length ts : (length (merge_first_pair ts) <= length ts)%nat.
Proof.
  induction ts as [|a rest IH]; [reflexivity|].
  destruct rest as [|b rest']; [reflexivity|].
  rewrite merge_first_pair_cons. destruct (a =? b); cbn [length] in *; lia.
Qed.

Lemma merge_first_pair_pos ts :
  Forall (fun c => 0 < c) ts -> Forall (fun c => 0 < c) (merge_first_pair ts).
Proof.
  induction ts as [|a rest IH]; intros H; [constructor|].
  destruct rest as [|b rest']; [exact H|].
  inversion H as [|? ? Ha Hrest]; subst. rewrite merge_first_pair_cons.
  destruct (a =? b).
  - inversion Hrest; subst. constructor; [lia | assumption].
  - constructor; [exact Ha | apply IH; exact Hrest].
Qed.

Lemma merged_once_refl ts : merged_once ts ts.
Proof. induction ts; constructor; assumption. Qed.

Lemma merge_first_pair_once ts : merged_once ts (merge_first_pair ts).
Proof.
  induction ts as [|a rest IH]; [constructor|].
  destruct rest as [|b rest']; [repeat constructor|].
  rewrite merge_first_pair_cons. destruct (Z.eqb_spec a b) as [-> | Hne].
  - constructor. apply merged_once_refl.
  - constructor. exact IH.
Qed.

Lemma tiles_of_length l : (length (tiles_of l) <= length l)%nat.
Proof.
  unfold tiles_of. induction l as [|c l IH]; cbn [List.filter length]; [lia|].
  destruct (negb (c =? 0)); cbn [length]; lia.
Qed.

Lemma tiles_of_small l :
  Forall (fun c => 0 <= c < 2 ^ 30) l -> Forall (fun c => 0 < c < 2 ^ 30) (tiles_of l).
Proof.
  unfold tiles_of. induction 1 as [|c l Hc _ IH]; cbn [List.filter]; [constructor|].
  destruct (Z.eqb_spec c 0); cbn [negb]; [exact IH|]. constructor; [lia | exact IH].
Qed.

Lemma tiles_of_snoc l t :
  tiles_of (l ++ [t]) = tiles_of l ++ (if t =? 0 then [] else [t]).
Proof.
  unfold tiles_of. rewrite List.filter_app. cbn [List.filter].
  destruct (t =? 0); reflexivity.
Qed.

Lemma merge_first_pair_nil ts : merge_first_pair ts = [] -> ts = [].
Proof.
  destruct ts as [|a [|b rest]]; [reflexivity | discriminate |].
  rewrite merge_first_pair_cons. destruct (a =? b); discriminate.
Qed.

Lemma lget_app_l l1 l2 p :
  0 <= p < Z.of_nat (length l1) -> lget (l1 ++ l2) p = lget l1 p.
Proof. intros Hp. unfold lget. rewrite lookup_app_l by lia. reflexivity. Qed.

Lemma lget_snoc l t : lget (l ++ [t]) (Z.of_nat (length l)) = t.
Proof.
  unfold lget. rewrite Nat2Z.id, lookup_app_r by lia.
  rewrite Nat.sub_diag. reflexivity.
Qed.

Lemma lget_zeros out m p :
  Z.of_nat (length out) <= p -> lget (out ++ replicate m 0) p = 0.
Proof.
  intros Hp. unfold lget. rewrite lookup_app_r by lia.
  destruct (replicate m 0 !! (Z.to_nat p - length out)%nat) as [v|] eqn:E; [|reflexivity].
  apply lookup_replicate_1 in E as [-> _]. reflexivity.
Qed.

Lemma lget_last l :
  l <> [] -> last l = Some (lget l (Z.of_nat (length l) - 1)).
Proof.
  intros Hne. rewrite last_lookup. unfold lget.
  replace (Z.to_nat (Z.of_nat (length l) - 1)) with (pred (length l)) by lia.
  destruct (lookup_lt_is_Some_2 l (pred (length l))) as [v ->]; [|reflexivity].
  destruct l; [contradiction | cbn [length]; lia].
Qed.

Lemma lget_Forall_in (P : Z -> Prop) l p :
  Forall P l -> 0 <= p < Z.of_nat (length l) -> P (lget l p).
Proof.
  intros Hall Hp. unfold lget.
  destruct (lookup_lt_is_Some_2 l (Z.to_nat p)) as [v Hv]; [lia|].
  rewrite Hv. exact (Forall_lookup_1 _ _ _ _ Hall Hv).
Qed.

(** The scan of [slide] passes the empty cells. *)
Lemma scan1_zeros l b cv skip k : forall n,
  (forall p, Z.of_nat k <= p < Z.of_nat (k + n) -> lget l p = 0) ->
  scan1 l b cv skip (k + n) = scan1 l b cv skip k.
Proof.
  induction n as [|n IH]; intros Hz; [rewrite Nat.add_0_r; reflexivity|].
  rewrite Nat.add_succ_r. cbn [scan1].
  rewrite (Hz (Z.of_nat (k + n))) by lia. cbn [Z.eqb negb].
  apply IH. intros p Hp. apply Hz. lia.
Qed.

(** The tile of position [b] comes to rest behind the tiles packed so far. *)
Lemma place_cells cells l0 out b t :
  length cells = length l0 ->
  Z.of_nat (length out) <= b < Z.of_nat (length l0) ->
  (forall p, 0 <= p < Z.of_nat (length l0) ->
     lget cells p = if p <? Z.of_nat (length out) then lget out p
                    else if p <? b then 0 else lget l0 p) ->
  lget l0 b = t ->
  length (fst (stop1 cells b t (Z.of_nat (length out)))) = length l0 /\
  snd (stop1 cells b t (Z.of_nat (length out))) <= 0 /\
  forall p, 0 <= p < Z.of_nat (length l0) ->
    lget (fst (stop1 cells b t (Z.of_nat (length out)))) p =
    if p <? Z.of_nat (length (out ++ [t])) then lget (out ++ [t]) p
    else if p <? b + 1 then 0 else lget l0 p.
Proof.
  intros Hlen Hb Hcells Ht. unfold stop1.
  rewrite length_app. cbn [length].
  destruct (b - Z.of_nat (length out) >? 0) eqn:E; cbn [fst snd].
  - rewrite !length_lset. conjs; auto; try lia.
    intros p Hp.
    rewrite !lget_lset by (rewrite ?length_lset; lia).
    destruct (Z.eqb_spec p b) as [-> | Hpb].
    + replace (b <? Z.of_nat (length out + 1)) with false by lia.
      replace (b <? b + 1) with true by lia. reflexivity.
    + destruct (Z.eqb_spec p (Z.of_nat (length out))) as [-> | Hpk].
      * replace (Z.of_nat (length out) <? Z.of_nat (length out + 1)) with true by lia.
        rewrite lget_snoc. reflexivity.
      * rewrite (Hcells p Hp).
        destruct (p <? Z.of_nat (length out)) eqn:E1.
        -- replace (p <? Z.of_nat (length out + 1)) with true by lia.
           rewrite lget_app_l by lia. reflexivity.
        -- replace (p <? Z.of_nat (length out + 1)) with false by lia.
           destruct (p <? b) eqn:E2.
           ++ replace (p <? b + 1) with true by lia. reflexivity.
           ++ replace (p <? b + 1) with false by lia. reflexivity.
  - assert (Hbk : b = Z.of_nat (length out)) by lia.
    conjs; auto; try lia.
    intros p Hp. rewrite (Hcells p Hp).
    destruct (Z.eqb_spec p b) as [-> | Hpb].
    + subst b. rewrite Z.ltb_irrefl.
      replace (Z.of_nat (length out) <? Z.of_nat (length out + 1)) with true by lia.
      rewrite lget_snoc. exact Ht.
    + destruct (p <? Z.of_nat (length out)) eqn:E1.
      * replace (p <? Z.of_nat (length out + 1)) with true by lia.
        rewrite lget_app_l by lia. reflexivity.
      * replace (p <? Z.of_nat (length out + 1)) with false by lia.
        replace (p <? b) with false by lia.
        replace (p <? b + 1) with false by lia. reflexivity.
Qed.

(** The tile of position [b] merges into the last of the tiles packed so
    far. *)
Lemma merge_cells cells l0 ts' t b :
  length cells = length l0 ->
  Z.of_nat (length (ts' ++ [t])) <= b < Z.of_nat (length l0) ->
  (forall p, 0 <= p < Z.of_nat (length l0) ->
     lget cells p = if p <? Z.of_nat (length (ts' ++ [t])) then lget (ts' ++ [t]) p
                    else if p <? b then 0 else lget l0 p) ->
  forall p, 0 <= p < Z.of_nat (length l0) ->
    lget (lset (lset cells (Z.of_nat (length ts')) (2 * t)) b 0) p =
    if p <? Z.of_nat (length (ts' ++ [2 * t])) then lget (ts' ++ [2 * t]) p
    else if p <? b + 1 then 0 else lget l0 p.
Proof.
  intros Hlen Hb Hcells p Hp. rewrite length_app in *. cbn [length] in *.
  rewrite !lget_lset by (rewrite ?length_lset; lia).
  destruct (Z.eqb_spec p b) as [-> | Hpb].
  - replace (b <? Z.of_nat (length ts' + 1)) with false by lia.
    replace (b <? b + 1) with true by lia. reflexivity.
  - destruct (Z.eqb_spec p (Z.of_nat (length ts'))) as [-> | Hpk].
    + replace (Z.of_nat (length ts') <? Z.of_nat (length ts' + 1)) with true by lia.
      rewrite lget_snoc. reflexivity.
    + rewrite (Hcells p Hp).
      destruct (p <? Z.of_nat (length ts' + 1)) eqn:E1.
      * rewrite !lget_app_l by lia. reflexivity.
      * destruct (p <? b) eqn:E2.
        -- replace (p <? b + 1) with true by lia. reflexivity.
        -- replace (p <? b + 1) with false by lia. reflexivity.
Qed.

Lemma once_step l0 b st :
  Forall (fun c => 0 <= c < 2 ^ 30) l0 ->
  0 <= b < Z.of_nat (length l0) ->
  once_inv l0 b st -> once_inv l0 (b + 1) (step1 st b).
Proof.
  intros Hsm Hb (Hskip & Hlen & Hk & Hcells).
  destruct (lookup_lt_is_Some_2 l0 (Z.to_nat b)) as [t Ht]; [lia|].
  assert (Hl0 : lget l0 b = t) by (unfold lget; rewrite Ht; reflexivity).
  assert (Htake : take (Z.to_nat (b + 1)) l0 = take (Z.to_nat b) l0 ++ [t]).
  { replace (Z.to_nat (b + 1)) with (S (Z.to_nat b)) by lia.
    apply take_S_r. exact Ht. }
  assert (Htsm : 0 <= t < 2 ^ 30) by exact (Forall_lookup_1 _ _ _ _ Hsm Ht).
  assert (Hts : Forall (fun c => 0 < c < 2 ^ 30) (tiles_of (take (Z.to_nat b) l0))).
  { apply tiles_of_small. apply Forall_take. exact Hsm. }
  assert (Hcb : lget (ls_cells st) b = t).
  { rewrite (Hcells b Hb).
    replace (b <? Z.of_nat (length (merge_first_pair (tiles_of (take (Z.to_nat b) l0)))))
      with false by lia.
    rewrite Z.ltb_irrefl. exact Hl0. }
  unfold once_inv. rewrite Htake, tiles_of_snoc.
  remember (tiles_of (take (Z.to_nat b) l0)) as ts eqn:Ets.
  assert (Hres :
    length (fst (slide1 (ls_cells st) b (ls_skip st))) = length l0 /\
    (if snd (slide1 (ls_cells st) b (ls_skip st)) >? 0 then true else ls_skip st)
    = has_pair (ts ++ (if t =? 0 then [] else [t])) /\
    Z.of_nat (length (merge_first_pair (ts ++ (if t =? 0 then [] else [t])))) <= b + 1 /\
    forall p, 0 <= p < Z.of_nat (length l0) ->
      lget (fst (slide1 (ls_cells st) b (ls_skip st))) p =
      if p <? Z.of_nat (length (merge_first_pair (ts ++ (if t =? 0 then [] else [t]))))
      then lget (merge_first_pair (ts ++ (if t =? 0 then [] else [t]))) p
      else if p <? b + 1 then 0 else lget l0 p).
  2:{ unfold step1.
      destruct (slide1 (ls_cells st) b (ls_skip st)) as [cells' r].
      cbn [fst snd ls_cells ls_skip] in *. tauto. }
  unfold slide1. rewrite Hcb.
  destruct (Z.eqb_spec t 0) as [Hz | Hnz].
  { (* an empty cell *)
    rewrite app_nil_r. cbn [fst snd]. conjs; auto; try lia.
    intros p Hp. rewrite (Hcells p Hp).
    destruct (p <? Z.of_nat (length (merge_first_pair ts))); [reflexivity|].
    destruct (Z.eqb_spec p b) as [-> | Hpb].
    - rewrite Z.ltb_irrefl. replace (b <? b + 1) with true by lia. lia.
    - destruct (p <? b) eqn:E.
      + replace (p <? b + 1) with true by lia. reflexivity.
      + replace (p <? b + 1) with false by lia. reflexivity. }
  (* a tile: the scan passes the empty cells behind the packed tiles *)
  assert (Hscan : scan1 (ls_cells st) b t (ls_skip st) (Z.to_nat b)
                  = scan1 (ls_cells st) b t (ls_skip st)
                          (length (merge_first_pair ts))).
  { replace (Z.to_nat b)
      with (length (merge_first_pair ts)
            + (Z.to_nat b - length (merge_first_pair ts)))%nat by lia.
    apply scan1_zeros. intros p Hp. rewrite (Hcells p ltac:(lia)).
    replace (p <? Z.of_nat (length (merge_first_pair ts))) with false by lia.
    replace (p <? b) with true by lia. reflexivity. }
  rewrite Hscan.
  destruct (place_cells (ls_cells st) l0 (merge_first_pair ts) b t Hlen ltac:(lia) Hcells Hl0)
    as (Hlen' & Hr & Hcells').
  destruct (merge_first_pair ts) as [|o0 orest] eqn:Eout.
  { (* nothing packed yet *)
    apply merge_first_pair_nil in Eout. subst ts. rewrite Eout in *.
    cbn [length scan1 app merge_first_pair has_pair] in *.
    change (Z.of_nat 0) with 0 in *.
    conjs; auto; try lia.
    replace (snd (stop1 (ls_cells st) b t 0) >? 0) with false by lia. exact Hskip. }
  (* the last packed tile stops the scan *)
  rewrite <- Eout in *.
  assert (Hklen : length (merge_first_pair ts) = S (length orest))
    by (rewrite Eout; reflexivity).
  assert (Hpos : Forall (fun c => 0 < c) (merge_first_pair ts)).
  { apply merge_first_pair_pos. eapply Forall_impl; [exact Hts|]. cbn beta. lia. }
  assert (Hscan1 : scan1 (ls_cells st) b t (ls_skip st) (length (merge_first_pair ts))
                   = scan1 (ls_cells st) b t (ls_skip st) (S (length orest)))
    by (rewrite Hklen; reflexivity).
  rewrite Hscan1. cbn [scan1].
  assert (Hu : lget (ls_cells st) (Z.of_nat (length orest))
               = lget (merge_first_pair ts) (Z.of_nat (length orest))).
  { rewrite (Hcells (Z.of_nat (length orest)) ltac:(lia)).
    replace (Z.of_nat (length orest) <? Z.of_nat (length (merge_first_pair ts)))
      with true by lia. reflexivity. }
  rewrite Hu.
  pose proof (lget_Forall_in _ _ (Z.of_nat (length orest)) Hpos ltac:(lia)) as Hupos.
  cbn beta in Hupos.
  replace (lget (merge_first_pair ts) (Z.of_nat (length orest)) =? 0) with false by lia.
  cbn [negb].
  replace (Z.of_nat (length orest) + 1) with (Z.of_nat (length (merge_first_pair ts)))
    by lia.
  destruct (ls_skip st) eqn:Esk.
  { (* a merge has happened on this line: the tile only moves *)
    destruct (merge_first_pair_after ts t (eq_sym Hskip)) as [Hm Hp].
    rewrite Hm, Hp. conjs; auto.
    - destruct (_ >? 0); reflexivity.
    - rewrite length_app. cbn [length]. lia. }
  pose proof (merge_first_pair_no_pair ts (eq_sym Hskip)) as Hid.
  destruct (merge_first_pair_snoc ts t (eq_sym Hskip)) as [Hsame Hdiff].
  assert (Hlast : last ts = Some (lget (merge_first_pair ts) (Z.of_nat (length orest)))).
  { rewrite Hid in *. rewrite (lget_last ts) by (intros ->; discriminate Hklen).
    do 2 f_equal. lia. }
  destruct (Z.eqb_spec (lget (merge_first_pair ts) (Z.of_nat (length orest))) t)
    as [Hut | Hut].
  - (* the same value: the merge *)
    rewrite Hut in *.
    destruct (Hsame Hlast) as (ts' & Hts' & Hm & Hp). rewrite Hm, Hp.
    rewrite wrap64_id by (unfold in_i64, I64_MIN, I64_MAX; lia).
    rewrite wrap32_id by (unfold in_int, INT_MIN, INT_MAX; lia).
    cbn [fst snd].
    replace (t * 2 >? 0) with true by lia.
    assert (Hol : length orest = length ts').
    { rewrite Hid, Hts', length_app in Hklen. cbn [length] in Hklen. lia. }
    rewrite Hol. replace (t * 2) with (2 * t) by lia.
    rewrite !length_lset. conjs; auto.
    + rewrite length_app. cbn [length].
      rewrite Hid, Hts', length_app in Hk. cbn [length] in Hk. lia.
    + apply merge_cells; auto.
      * rewrite <- Hts', <- Hid. lia.
      * rewrite <- Hts', <- Hid. exact Hcells.
  - (* another value: the tile stops behind it *)
    destruct Hdiff as [Hm Hp]; [rewrite Hlast; congruence|].
    rewrite Hm, Hp. rewrite Hid in *. conjs; auto.
    + replace (snd (stop1 (ls_cells st) b t (Z.of_nat (length ts))) >? 0)
        with false by lia. reflexivity.
    + rewrite length_app. cbn [length]. lia.
Qed.

Lemma steps1_once l0 sc m :
  Forall (fun c => 0 <= c < 2 ^ 30) l0 ->
  forall b, 0 <= b -> b <= Z.of_nat (length l0) ->
  once_inv l0 b (steps1 b (mkLine l0 sc false m)).
Proof.
  intros Hsm.
  apply (natlike_ind (fun b => b <= Z.of_nat (length l0) ->
                               once_inv l0 b (steps1 b (mkLine l0 sc false m)))).
  - intros _. unfold steps1, once_inv.
    change (seqZ 0 0) with (@nil Z). change (Z.to_nat 0) with 0%nat.
    rewrite take_0. unfold tiles_of.
    cbn [List.filter merge_first_pair has_pair foldl ls_cells ls_skip length].
    conjs; auto; try lia.
    intros p Hp. change (Z.of_nat 0) with 0.
    replace (p <? 0) with false by lia. reflexivity.
  - intros b Hb IH Hle. unfold Z.succ. rewrite steps1_succ by lia.
    apply once_step; [exact Hsm | lia | apply IH; lia].
Qed.

Lemma line_result_length l : length (line_result l) = length l.
Proof.
  unfold line_result. rewrite length_app, length_replicate.
  pose proof (merge_first_pair_length (tiles_of l)). pose proof (tiles_of_length l). lia.
Qed.

(** The sweep of a line of small tiles, as the list of its cells: the line
    holds its tiles merged once and packed. *)
Lemma merge1_line_result l0 sc m :
  Forall (fun c => 0 <= c < 2 ^ 30) l0 ->
  length (ls_cells (merge1 l0 sc m)) = length l0 /\
  forall p, 0 <= p < Z.of_nat (length l0) ->
    lget (ls_cells (merge1 l0 sc m)) p = lget (line_result l0) p.
Proof.
  intros Hsm. unfold merge1.
  destruct (steps1_once l0 sc m Hsm (Z.of_nat (length l0)) ltac:(lia) ltac:(lia))
    as (_ & Hlen & Hk & Hcells).
  rewrite Nat2Z.id, firstn_all in Hk, Hcells.
  split; [exact Hlen|]. intros p Hp. rewrite (Hcells p Hp). unfold line_result.
  destruct (p <? Z.of_nat (length (merge_first_pair (tiles_of l0)))) eqn:E.
  - rewrite lget_app_l by lia. reflexivity.
  - replace (p <? Z.of_nat (length l0)) with true by lia.
    rewrite lget_zeros by lia. reflexivity.
Qed.

(** ** Merging once on the grid *)

Lemma line_cells_small d g a :
  wf g -> small_tiles g -> 0 <= a < lines d g ->
  Forall (fun c => 0 <= c < 2 ^ 30) (line_cells d g a).
Proof.
  intros Hwf Hsm Ha. apply Forall_forall. intros c Hc.
  apply list_elem_of_fmap in Hc as (b & -> & Hb). apply elem_of_seqZ in Hb.
  assert (Hin : In (lcell d g a b) (mGrid g)) by (apply lcell_In; [exact Hwf | split; lia]).
  apply list_elem_of_In in Hin. exact (proj1 (Forall_forall _ _) Hsm _ Hin).
Qed.

Lemma lines_once_step d g a s :
  wf g -> small_tiles g -> 0 <= a < lines d g -> lines_once_inv d g a s ->
  exists s',
    for_loop (line_len d g)
      (fun b s => sweep_cell d (line_x d g a b) (line_y d g a b) s) (clear_skip s)
    = Ok s' /\
    lines_once_inv d g (a + 1) s'.
Proof.
  intros Hwf Hsm Ha (Hwfs & Hsh & Hfr & Hdone).
  destruct (line_shape d g (sw_grid s) Hsh) as (HA & HB & _ & _ & _ & Hon).
  assert (Hlen : 0 <= line_len d g).
  { pose proof (wf_width g Hwf). pose proof (wf_height g Hwf). destruct d; simpl; lia. }
  destruct (line_is_cells d g a Hlen) as [Hcl Hcv]. fold (line_cells d g a) in Hcl, Hcv.
  assert (Hl : line_is d (sw_grid s) a (line_cells d g a)).
  { split; [lia|]. intros b Hb. rewrite Hfr by (try split; lia). apply Hcv. lia. }
  pose (st := mkLine (line_cells d g a) (new_score s) false (have_motions s)).
  destruct (line_sweep_from d g a (clear_skip s) st Hsh Ha)
    as (s' & Hs' & ((Hwf' & Hsh' & Hl' & Hfr') & _)).
  { unfold line_corr. cbn. conjs; auto. apply line_post_refl; assumption. }
  cbn [sw_grid clear_skip] in Hwf', Hsh', Hl', Hfr'.
  exists s'. split; [exact Hs'|].
  destruct (line_shape d (sw_grid s) (sw_grid s') Hsh') as (_ & HB' & _ & _ & _ & Hon').
  destruct (merge1_line_result (line_cells d g a) (new_score s) (have_motions s)
              (line_cells_small d g a Hwf Hsm Ha)) as [Hmlen Hmcells].
  assert (Hsteps : steps1 (line_len d g) st
                   = merge1 (line_cells d g a) (new_score s) (have_motions s))
    by (unfold merge1, st; rewrite Hcl; reflexivity).
  rewrite Hsteps in Hl'.
  unfold lines_once_inv. conjs; auto.
  - eapply same_shape_trans; eassumption.
  - intros a' b' Hon1 Hge. rewrite Hfr' by (try apply Hon; auto; lia).
    apply Hfr; [exact Hon1 | lia].
  - intros a' Ha'. destruct (Z.eq_dec a' a) as [-> | Hne].
    + destruct Hl' as [Hl'len Hl'cells]. split.
      * rewrite line_result_length. lia.
      * intros b Hb. rewrite (Hl'cells b Hb). apply Hmcells. lia.
    + destruct (Hdone a' ltac:(lia)) as [Hdlen Hdcells]. split; [lia|].
      intros b Hb. rewrite Hfr' by (try split; lia). apply Hdcells. lia.
Qed.

(** [only_merge] on a board with small tiles, line by line: every line
    ends as [line_result] of what it held. *)
Lemma only_merge_lines_result g d :
  wf g -> small_tiles g ->
  exists g' ret motions,
    only_merge g d = Ok (g', ret, motions) /\ wf g' /\ same_shape g g' /\
    forall a, 0 <= a < lines d g -> line_is d g' a (line_result (line_cells d g a)).
Proof.
  intros Hwf Hsm.
  assert (HA : 0 <= lines d g).
  { pose proof (wf_width g Hwf). pose proof (wf_height g Hwf). destruct d; simpl; lia. }
  destruct (for_loop_inv (lines_once_inv d g) (lines d g)
              (fun a s =>
                 for_loop (line_len d g)
                   (fun b s => sweep_cell d (line_x d g a b) (line_y d g a b) s)
                   (clear_skip s))
              (mkSweep g 0 false false) HA)
    as (s & Hs & Hwfs & Hsh & _ & Hdone).
  - unfold lines_once_inv. cbn. conjs; auto using same_shape_refl. intros a' Ha'. lia.
  - intros a s Ha HI. apply lines_once_step; assumption.
  - unfold only_merge. rewrite only_merge_sweep_lines, Hs. cbn [bind].
    do 3 eexists. split; [reflexivity|]. auto.
Qed.

(** * The stated properties *)

(** C1. [is_fail] compares [y] with [width() - 1] and [x] with
    [height() - 1]: on a full board that is not square and has no equal
    neighbours the scan reads a cell outside the grid and throws instead of
    returning true (a 2x1 board, and the game's default 4x6 board), and it
    throws instead of returning false when the only equal neighbours lie
    beyond the cell where the scan leaves the grid. *)
Theorem is_fail_throws_on_rectangle :
  is_fail (mkGrid 2 1 [2; 4] 0) = Fail OutOfRange /\
  is_fail chessboard_4x6 = Fail OutOfRange /\
  is_fail last_column_pair_4x6 = Fail OutOfRange.
Proof. repeat split; vm_compute; reflexivity. Qed.

(** C2, as the code has it.  On every grid of width 4 whose only occupied row
    holds [2,2,2,2], merging LEFT turns that row into [4,2,2,0], leaves the
    rest empty and returns 4: after the first merge [skip_merge] stays set
    for the rest of the line, so the second pair only slides. *)
Theorem merge_left_2222 g y :
  wf g -> row_grid g y [2; 2; 2; 2] ->
  exists g',
    only_merge g LEFT = Ok (g', 4, true) /\
    wf g' /\ same_shape g g' /\ row_grid g' y [4; 2; 2; 0].
Proof. intros Hwf Hrow. exact (only_merge_left_row g y [2; 2; 2; 2] Hwf Hrow). Qed.

Lemma merge_left_2222_witness :
  exists g',
    only_merge (grid_with_row 2 [2; 2; 2; 2]) LEFT = Ok (g', 4, true) /\
    wf g' /\ same_shape (grid_with_row 2 [2; 2; 2; 2]) g' /\
    row_grid g' 2 [4; 2; 2; 0].
Proof.
  apply (merge_left_2222 (grid_with_row 2 [2; 2; 2; 2]) 2).
  - solve_wf.
  - apply (row_grid_with_row 2 [2; 2; 2; 2]); [lia | reflexivity].
Defined.

(** C2 as stated fails: the line [2,2,2,2] merged LEFT does not become
    [4,4,0,0]. *)
Lemma merge_left_2222_not_4400 :
  ~ (exists g' ret motions,
       only_merge (grid_with_row 0 [2; 2; 2; 2]) LEFT = Ok (g', ret, motions) /\
       row_of 0 g' = [4; 4; 0; 0]).
Proof.
  intros (g' & ret & motions & H & Hrow).
  vm_compute in H. injection H as <- _ _. vm_compute in Hrow. discriminate Hrow.
Qed.

(** C3, as the code has it.  On a grid whose cells are all zero, for every
    direction, [only_merge] leaves every cell and the score unchanged and
    reports no motion; the value it returns is the no-motion sentinel -1 (not
    0), and [merge] adds nothing to the score. *)
Theorem only_merge_empty_grid g d :
  wf g -> all_zero g ->
  only_merge g d = Ok (g, -1, false) /\ merge g d = Ok (g, -1, false).
Proof.
  intros Hwf Hz.
  assert (H : only_merge g d = Ok (g, -1, false)).
  { unfold only_merge. rewrite (only_merge_sweep_empty g d Hwf Hz). reflexivity. }
  split; [exact H|]. unfold merge. rewrite H. reflexivity.
Qed.

Lemma only_merge_empty_grid_witness :
  only_merge (reset 4 6) UP = Ok (reset 4 6, -1, false) /\
  merge (reset 4 6) UP = Ok (reset 4 6, -1, false).
Proof.
  apply only_merge_empty_grid.
  - constructor; simpl; try lia.
    + unfold INT_MAX. lia.
    + repeat constructor; unfold in_i64, I64_MIN, I64_MAX; lia.
    + unfold in_i64, I64_MIN, I64_MAX. lia.
  - unfold all_zero. simpl. repeat constructor.
Defined.

(** C3 as stated fails: on the empty 4x4 grid, direction LEFT, the value
    returned is not 0. *)
Lemma only_merge_empty_grid_returns_minus_one :
  ~ (exists g' motions, only_merge (reset 4 4) LEFT = Ok (g', 0, motions)).
Proof. intros (g' & m & H). vm_compute in H. discriminate H. Qed.

(** C4. On every grid of width 4 whose only occupied row holds [2,2,2,0],
    merging LEFT turns that row into [4,2,0,0], not [4,4,0,0].  A newly
    merged tile does not merge again with the tile sliding into it: the row
    [2,2,4,0] becomes [4,4,0,0], not [8,0,0,0].  And in general, on every
    board with tiles below 2^30 and in every direction, every line ends as
    its tiles with the first two equal neighbours merged into one and nothing
    else merged, packed toward the edge: a line merges once per move.  The
    mechanism is [skip_merge]: a slide made while it is set returns 0 or -1
    and never merges. *)
Theorem merge_left_2220 g y :
  wf g -> row_grid g y [2; 2; 2; 0] ->
  (exists g',
     only_merge g LEFT = Ok (g', 4, true) /\
     wf g' /\ same_shape g g' /\
     row_grid g' y [4; 2; 0; 0] /\ ~ row_grid g' y [4; 4; 0; 0]) /\
  (forall g0 y0, wf g0 -> row_grid g0 y0 [2; 2; 4; 0] ->
     exists g1,
       only_merge g0 LEFT = Ok (g1, 4, true) /\ row_grid g1 y0 [4; 4; 0; 0]) /\
  (forall g0 d, wf g0 -> small_tiles g0 ->
     exists g1 ret motions,
       only_merge g0 d = Ok (g1, ret, motions) /\
       forall a, 0 <= a < lines d g0 ->
         line_is d g1 a (line_result (line_cells d g0 a))) /\
  (forall g0 x0 y0 d g1 r, slide g0 x0 y0 d true = Ok (g1, r) -> r = 0 \/ r = -1).
Proof.
  intros Hwf Hrow. split; [|split; [|split; [|exact slide_skip]]].
  - destruct (only_merge_left_row g y [2; 2; 2; 0] Hwf Hrow)
      as (g' & Hm & Hwf' & Hsh & Hr).
    exists g'. conjs; auto.
    intros (_ & _ & Hbad). destruct Hr as (Hw & Hy & Hgood).
    assert (Hin : in_bounds g' 1 y) by (split; simpl in Hw; lia).
    specialize (Hbad 1 y Hin). specialize (Hgood 1 y Hin).
    rewrite Hgood in Hbad. rewrite Z.eqb_refl in Hbad. discriminate Hbad.
  - intros g0 y0 Hwf0 Hrow0.
    destruct (only_merge_left_row g0 y0 [2; 2; 4; 0] Hwf0 Hrow0)
      as (g1 & Hm & _ & _ & Hr).
    exists g1. split; [exact Hm | exact Hr].
  - intros g0 d Hwf0 Hsm0.
    destruct (only_merge_lines_result g0 d Hwf0 Hsm0)
      as (g1 & ret & motions & Hm & _ & _ & Hlines).
    exists g1, ret, motions. split; [exact Hm | exact Hlines].
Qed.

Lemma merge_left_2220_witness :
  (exists g',
     only_merge (grid_with_row 1 [2; 2; 2; 0]) LEFT = Ok (g', 4, true) /\
     wf g' /\ same_shape (grid_with_row 1 [2; 2; 2; 0]) g' /\
     row_grid g' 1 [4; 2; 0; 0] /\ ~ row_grid g' 1 [4; 4; 0; 0]) /\
  (exists g1,
     only_merge (grid_with_row 3 [2; 2; 4; 0]) LEFT = Ok (g1, 4, true) /\
     row_grid g1 3 [4; 4; 0; 0]) /\
  (exists g1 ret motions,
     only_merge (mkGrid 3 2 [2; 2; 2; 4; 0; 4] 0) RIGHT = Ok (g1, ret, motions) /\
     forall a, 0 <= a < lines RIGHT (mkGrid 3 2 [2; 2; 2; 4; 0; 4] 0) ->
       line_is RIGHT g1 a
         (line_result (line_cells RIGHT (mkGrid 3 2 [2; 2; 2; 4; 0; 4] 0) a))) /\
  (slide (mkGrid 4 1 [4; 0; 2; 0] 0) 2 0 LEFT true = Ok (mkGrid 4 1 [4; 2; 0; 0] 0, 0) ->
   0 = 0 \/ 0 = -1).
Proof.
  destruct (merge_left_2220 (grid_with_row 1 [2; 2; 2; 0]) 1) as (H1 & H2 & H3 & H4).
  - solve_wf.
  - apply (row_grid_with_row 1 [2; 2; 2; 0]); [lia | reflexivity].
  - split; [exact H1|]. split; [|split; [|apply H4]].
    + apply (H2 (grid_with_row 3 [2; 2; 4; 0]) 3).
      * solve_wf.
      * apply (row_grid_with_row 3 [2; 2; 4; 0]); [lia | reflexivity].
    + apply (H3 (mkGrid 3 2 [2; 2; 2; 4; 0; 4] 0) RIGHT).
      * solve_wf.
      * unfold small_tiles. simpl. repeat (constructor; [lia|]). constructor.
Defined.

(** The bound on the tiles is the one of C5: from 2^31 on the value [slide]
    hands back is no longer positive as an [int], [skip_merge] is not set,
    and the merged tile merges again. *)
Lemma merge_twice_beyond_int :
  only_merge (mkGrid 3 1 [2 ^ 31; 2 ^ 31; 2 ^ 32] 0) LEFT
  = Ok (mkGrid 3 1 [2 ^ 33; 0; 0] 0, 0, true).
Proof. vm_compute. reflexivity. Qed.

(** C5. [slide] returns the merged [i64] value as an [int]: two tiles of
    2^30 merge into one tile of 2^31, but the value handed to [only_merge] is
    negative, so the merge is reported as no motion and no score. *)
Theorem merge_pair_truncated :
  only_merge (mkGrid 2 1 [2 ^ 30; 2 ^ 30] 0) LEFT
  = Ok (mkGrid 2 1 [2 ^ 31; 0] 0, -1, false).
Proof. vm_compute. reflexivity. Qed.

Section RandomFacts.

Variable engine : Type.
Variable uniform_int : Z -> Z -> engine -> Z * engine.

(** What the standard library promises of a distribution on [lo, hi]. *)
Hypothesis uniform_int_range :
  forall lo hi rng, lo <= hi -> lo <= fst (uniform_int lo hi rng) <= hi.



End RandomFacts.

Lemma scripted_uniform_int_range lo hi rng :
  lo <= hi -> lo <= fst (scripted_uniform_int lo hi rng) <= hi.
Proof.
  intros H. destruct rng as [|r rng]; simpl; [lia|].
  pose proof (Z.mod_pos_bound r (hi - lo + 1)). lia.
Qed.


(** C7. [generate_randomly] makes up to three draws of [false_1i4], each a
    hit when it yields 0 (one value in four): a miss at the first draw places
    2, a hit then a miss places 4, two hits then a miss place 8, three hits
    place 16, and the placement itself is [generate]'s.  Of the 64 equally
    likely outcomes of three draws, 48 place 2, 12 place 4, 3 place 8 and 1
    places 16, that is 3/4, 3/16, 3/64 and 1/64. *)
Theorem generate_randomly_cascade :
  (forall engine uniform_int fuel g st,
     generate_randomly engine uniform_int fuel g st =
     let '(f1, r1) := uniform_int 0 3 (rand st) in
     let '(f2, r2) := uniform_int 0 3 r1 in
     let '(f3, r3) := uniform_int 0 3 r2 in
     if negb (f1 =? 0) then generate engine uniform_int fuel 2 g (with_rand engine st r1)
     else if negb (f2 =? 0) then generate engine uniform_int fuel 4 g (with_rand engine st r2)
     else if negb (f3 =? 0) then generate engine uniform_int fuel 8 g (with_rand engine st r3)
     else generate engine uniform_int fuel 16 g (with_rand engine st r3)) /\
  length flips3 = 64%nat /\
  placed_count 2 = 48%nat /\
  placed_count 4 = 12%nat /\
  placed_count 8 = 3%nat /\
  placed_count 16 = 1%nat.
Proof.
  split.
  - intros engine uniform_int fuel g st. unfold generate_randomly, false_1i4.
    destruct (uniform_int 0 3 (rand st)) as [f1 r1].
    destruct (uniform_int 0 3 r1) as [f2 r2].
    destruct (uniform_int 0 3 r2) as [f3 r3].
    destruct (f1 =? 0), (f2 =? 0), (f3 =? 0); reflexivity.
  - repeat split; vm_compute; reflexivity.
Qed.

(** C8. [get] (both overloads) and [put] throw [std::out_of_range] for every
    coordinate pair outside [0,width) x [0,height), and the grid, which a
    failed call does not return, stays the one the caller had; for every pair
    inside they succeed: [get] yields the cell, and [put] changes that cell and
    no other. *)
Theorem get_put_bounds g x y val :
  wf g ->
  (~ in_bounds g x y ->
     get g x y = Fail OutOfRange /\
     get_const g x y = Fail OutOfRange /\
     put g x y val = Fail OutOfRange) /\
  (in_bounds g x y ->
     exists i v,
       get g x y = Ok (Z.of_nat i) /\
       get_const g x y = Ok v /\
       mGrid g !! i = Some v /\
       put g x y val = Ok (set_cells g (<[i := val]> (mGrid g)))).
Proof.
  intros Hwf. split.
  - intros Hout. pose proof (get_out_of_bounds g x y Hout) as Hg.
    unfold put. rewrite get_const_load, Hg. auto.
  - intros Hin. pose proof (cell_index_range g x y Hwf Hin) as Hr.
    destruct (load_in_range g _ Hr) as [v Hv].
    exists (Z.to_nat (x + y * mWidth g)), v.
    unfold put. rewrite get_const_load, (get_in_bounds g x y Hin). cbn [bind].
    rewrite Z2Nat.id by lia. conjs; auto.
    + apply load_Some in Hv. tauto.
    + apply store_in_range. exact Hr.
Qed.

Lemma get_put_bounds_witness :
  (get (reset 4 6) 4 0 = Fail OutOfRange /\
   get_const (reset 4 6) 4 0 = Fail OutOfRange /\
   put (reset 4 6) 4 0 2 = Fail OutOfRange) /\
  exists i v,
    get (reset 4 6) 3 5 = Ok (Z.of_nat i) /\
    get_const (reset 4 6) 3 5 = Ok v /\
    mGrid (reset 4 6) !! i = Some v /\
    put (reset 4 6) 3 5 2 = Ok (set_cells (reset 4 6) (<[i := 2]> (mGrid (reset 4 6)))).
Proof.
  assert (Hwf : wf (reset 4 6)).
  { constructor; simpl; try lia.
    - unfold INT_MAX. lia.
    - repeat constructor; unfold in_i64, I64_MIN, I64_MAX; lia.
    - unfold in_i64, I64_MIN, I64_MAX. lia. }
  split.
  - apply (proj1 (get_put_bounds (reset 4 6) 4 0 2 Hwf)).
    unfold in_bounds. simpl. lia.
  - apply (proj2 (get_put_bounds (reset 4 6) 3 5 2 Hwf)).
    unfold in_bounds. simpl. lia.
Defined.

(** C9. Across [merge] the score never decreases; nothing is added when no
    motion occurred, and otherwise the score grows by exactly the returned
    value. *)
Theorem merge_score_monotone g d :
  wf g ->
  mScore g + INT_MAX * (mWidth g * mHeight g) <= I64_MAX ->
  exists g' increase motions,
    merge g d = Ok (g', increase, motions) /\
    mScore g <= mScore g' /\
    (motions = false -> increase = -1 /\ mScore g' = mScore g) /\
    (motions = true -> 0 <= increase /\ mScore g' = mScore g + increase).
Proof.
  intros Hwf Hroom.
  destruct (only_merge_sweep_spec g d Hwf) as (s & Hs & Hsh & Hwf' & Hsc & _).
  destruct Hsh as (_ & _ & Hscore).
  unfold merge, only_merge. rewrite Hs. cbn [bind].
  do 3 eexists. split; [reflexivity|].
  pose proof (wf_score g Hwf) as Hin. unfold in_i64 in Hin.
  destruct (have_motions s).
  - destruct (new_score s >? 0) eqn:E; cbn [mScore set_score].
    + rewrite wrap64_id by (unfold in_i64; lia).
      conjs; try discriminate; intros; lia.
    + conjs; try discriminate; intros; lia.
  - replace (-1 >? 0) with false by reflexivity.
    conjs; try discriminate; intros; lia.
Qed.

Lemma merge_score_monotone_witness :
  exists g' increase motions,
    merge (mkGrid 4 1 [2; 2; 0; 0] 10) LEFT = Ok (g', increase, motions) /\
    10 <= mScore g' /\
    (motions = false -> increase = -1 /\ mScore g' = 10) /\
    (motions = true -> 0 <= increase /\ mScore g' = 10 + increase).
Proof.
  apply (merge_score_monotone (mkGrid 4 1 [2; 2; 0; 0] 10) LEFT).
  - constructor; simpl; try lia.
    + unfold INT_MAX. lia.
    + repeat constructor; unfold in_i64, I64_MIN, I64_MAX; lia.
    + unfold in_i64, I64_MIN, I64_MAX. lia.
  - unfold INT_MAX, I64_MAX. simpl. lia.
Defined.

(** C10. [only_merge] leaves the sum of all cell values unchanged, for every
    direction and every grid on which no doubling can leave the [i64] range
    (the magnitudes of the cells add up to at most [I64_MAX]). *)
Theorem only_merge_preserves_sum g d :
  wf g -> sum_abs g <= I64_MAX ->
  exists g' ret motions,
    only_merge g d = Ok (g', ret, motions) /\ sum_cells g' = sum_cells g.
Proof.
  intros Hwf Hno.
  destruct (only_merge_sweep_spec g d Hwf) as (s & Hs & _ & _ & _ & _ & Hsum).
  unfold only_merge. rewrite Hs. cbn [bind].
  do 3 eexists. split; [reflexivity|]. apply Hsum. exact Hno.
Qed.

Lemma only_merge_preserves_sum_witness :
  exists g' ret motions,
    only_merge (mkGrid 3 2 [2; 2; 4; 0; 8; 8] 0) RIGHT = Ok (g', ret, motions) /\
    sum_cells g' = 24.
Proof.
  apply (only_merge_preserves_sum (mkGrid 3 2 [2; 2; 4; 0; 8; 8] 0) RIGHT).
  - solve_wf.
  - unfold sum_abs, I64_MAX. simpl. lia.
Defined.

(** On every well-formed grid, whatever its values, the sum of the cells is
    unchanged as a 64-bit quantity. *)
Lemma only_merge_preserves_sum_mod g d :
  wf g ->
  exists g' ret motions,
    only_merge g d = Ok (g', ret, motions) /\ cong64 (sum_cells g') (sum_cells g).
Proof.
  intros Hwf.
  destruct (only_merge_sweep_spec g d Hwf) as (s & Hs & _ & _ & _ & Hcong & _).
  unfold only_merge. rewrite Hs. cbn [bind].
  do 3 eexists. split; [reflexivity | exact Hcong].
Qed.

(** * Further properties of the code *)

(** ** What one slide does *)

Lemma slide_catch_effect g cur x y d coord cv g' r :
  wf g -> in_bounds g x y -> cur = x + y * mWidth g -> load g cur = Ok cv -> cv <> 0 ->
  1 <= coord -> scanned g x y d coord ->
  slide_catch g cur x y d coord = Ok (g', r) -> slide_effect g cur g' r.
Proof.
  intros Hwf Hxy Hcur Hcv Hnz Hc Hscan. unfold slide_catch.
  destruct (coord >? 1) eqn:E.
  - destruct (Hscan (coord - 1)) as (t & Hget & Ht); [lia|].
    destruct (get_dire_inv g x y d (coord - 1) t Hwf Hxy ltac:(lia) Hget)
      as (Rt & Hne & _).
    pose proof (cell_index_range g x y Hwf Hxy) as Rc. rewrite <- Hcur in Rc, Hne.
    rewrite Hget. cbn [bind]. rewrite Hcv. cbn [bind].
    rewrite (store_in_range g t cv Rt). cbn [bind].
    rewrite store_in_range by (cbn [mGrid set_cells]; rewrite length_insert; exact Rc).
    cbn [bind mGrid set_cells]. intros [= <- <-]. right.
    exists t, 0, cv, cv. conjs; auto; try lia.
  - intros [= <- <-]. left. split; reflexivity.
Qed.

Lemma slide_loop_effect fuel : forall g cur x y d skip coord cv g' r,
  wf g -> in_bounds g x y -> cur = x + y * mWidth g -> load g cur = Ok cv -> cv <> 0 ->
  1 <= coord -> scanned g x y d coord ->
  slide_loop fuel g cur x y d skip coord = Ok (g', r) -> slide_effect g cur g' r.
Proof.
  induction fuel as [|fuel IH];
    intros g cur x y d skip coord cv g' r Hwf Hxy Hcur Hcv Hnz Hc Hscan H;
    [discriminate H|].
  pose proof (slide_catch_effect g cur x y d coord cv g' r Hwf Hxy Hcur Hcv Hnz Hc Hscan)
    as Hcatch.
  cbn [slide_loop] in H. unfold slide_try in H.
  destruct (__get_dire g x y d coord) as [t|e] eqn:Hget; cbn [bind] in H.
  2:{ apply get_dire_fault in Hget. subst e. auto. }
  destruct (get_dire_inv g x y d coord t Hwf Hxy Hc Hget) as (Rt & Hne & _).
  destruct (load_in_range g t Rt) as [tv Htv]. rewrite Htv in H. cbn [bind] in H.
  destruct (tv =? 0) eqn:Etv; cbn [negb] in H.
  { apply (IH g cur x y d skip (coord + 1) cv g' r); auto; try lia.
    intros c Hcr. destruct (Z.eq_dec c coord) as [->|Hn].
    - exists t. split; [exact Hget|]. rewrite Htv. f_equal. lia.
    - apply Hscan. lia. }
  destruct skip; [auto|].
  rewrite Hcv in H. cbn [bind] in H.
  destruct (tv =? cv) eqn:Ecv; [|auto].
  assert (tv = cv) by lia. subst cv.
  pose proof (cell_index_range g x y Hwf Hxy) as Rc. rewrite <- Hcur in Rc, Hne.
  destruct (two_stores g t cur (wrap64 (tv * 2)) tv tv Hwf Hne Htv Hcv
              (wrap64_range _) Rt Rc)
    as (g1 & g2 & H1 & H2 & Hld & _).
  rewrite H1 in H. cbn [bind] in H. rewrite H2 in H. cbn [bind] in H.
  rewrite Hld in H. cbn [bind] in H. injection H as <- <-.
  rewrite (store_in_range g t _ Rt) in H1. injection H1 as <-.
  rewrite store_in_range in H2
    by (cbn [mGrid set_cells]; rewrite length_insert; exact Rc).
  injection H2 as <-. cbn [mGrid set_cells mWidth mHeight mScore].
  right. exists t, tv, tv, (wrap64 (tv * 2)). conjs; auto; try lia.
Qed.

Lemma slide_effect_spec g x y d skip :
  wf g -> in_bounds g x y ->
  exists g' r,
    slide g x y d skip = Ok (g', r) /\ wf g' /\ same_shape g g' /\ in_int r /\
    slide_effect g (x + y * mWidth g) g' r.
Proof.
  intros Hwf Hxy.
  destruct (slide_spec g x y d skip Hwf Hxy) as (g' & r & Hs & Hsh & Hwf' & Hr & _).
  exists g', r. conjs; auto.
  unfold slide in Hs. rewrite (get_in_bounds g x y Hxy) in Hs. cbn [bind] in Hs.
  destruct (load_in_range g _ (cell_index_range g x y Hwf Hxy)) as [cv Hcv].
  rewrite Hcv in Hs. cbn [bind] in Hs.
  destruct (cv =? 0) eqn:E.
  - injection Hs as <- <-. left. split; reflexivity.
  - apply (slide_loop_effect (slide_fuel g) g _ x y d skip 1 cv g' r Hwf Hxy eq_refl Hcv);
      auto;
      try lia.
    intros c Hc. lia.
Qed.

Lemma slide_effect_count g cur g' r :
  slide_effect g cur g' r -> nonzero_cells g' <= nonzero_cells g.
Proof.
  intros [[-> _] | (t & tv & cv & a & Rt & Rc & Hne & Ht & Hc & Hnz & -> & Hcase)]; [lia|].
  apply load_Some in Ht as [_ Ht]. apply load_Some in Hc as [_ Hc].
  unfold nonzero_cells. cbn [mGrid set_cells].
  rewrite (count_nonzero_insert _ _ cv 0)
    by (rewrite list_lookup_insert_ne by lia; exact Hc).
  rewrite (count_nonzero_insert _ _ tv a Ht).
  destruct Hcase as [(-> & -> & _) | (-> & _ & _)];
    repeat match goal with |- context [?z =? 0] => destruct (Z.eqb_spec z 0) end; lia.
Qed.

Lemma slide_effect_empty g cur g' r :
  slide_effect g cur g' r -> (g' = g /\ r = -1) \/ has_empty_cell g'.
Proof.
  intros [H | (t & tv & cv & a & Rt & Rc & Hne & Ht & Hc & Hnz & -> & Hcase)]; [left; exact H|].
  right. unfold has_empty_cell. cbn [mGrid set_cells].
  apply Exists_exists. exists 0. split; [|reflexivity].
  apply (list_elem_of_lookup_2 _ (Z.to_nat cur)).
  apply list_lookup_insert_eq. rewrite length_insert. lia.
Qed.

Lemma slide_effect_small g cur g' r :
  small_tiles g -> slide_effect g cur g' r -> (g' = g /\ r = -1) \/ 0 <= r.
Proof.
  intros Hsm [H | (t & tv & cv & a & Rt & Rc & Hne & Ht & Hc & Hnz & -> & Hcase)];
    [left; exact H|].
  right. destruct Hcase as [(_ & _ & ->) | (-> & -> & ->)]; [lia|].
  apply load_Some in Hc as [_ Hc].
  pose proof (Forall_lookup_1 _ _ _ _ Hsm Hc) as Hb. cbn beta in Hb.
  rewrite wrap64_id by (unfold in_i64, I64_MIN, I64_MAX; lia).
  rewrite wrap32_id by (unfold in_int, INT_MIN, INT_MAX; lia). lia.
Qed.

(** ** What one sweep does *)

Lemma sweep_cell_motion g0 d x y k s :
  wf g0 -> in_bounds g0 x y -> motion_inv g0 k s ->
  exists s', sweep_cell d x y s = Ok s' /\ motion_inv g0 (k + 1) s'.
Proof.
  intros Hwf0 Hxy (Hwf & Hsh & Hcnt & Hemp & Hsmall).
  assert (Hxy' : in_bounds (sw_grid s) x y).
  { destruct Hsh as (Hw & Hh & _). unfold in_bounds. rewrite Hw, Hh. exact Hxy. }
  destruct (slide_effect_spec (sw_grid s) x y d (skip_merge s) Hwf Hxy')
    as (g' & r & Hsl & Hwf' & Hsh' & Hr & Heff).
  unfold sweep_cell. rewrite Hsl. cbn [bind].
  eexists. split; [reflexivity|].
  unfold motion_inv. cbn [sw_grid new_score skip_merge have_motions]. conjs.
  - exact Hwf'.
  - eapply same_shape_trans; eassumption.
  - pose proof (slide_effect_count _ _ _ _ Heff). lia.
  - intros Hm. destruct (slide_effect_empty _ _ _ _ Heff) as [[-> ->] | He]; [|exact He].
    apply Hemp. exact Hm.
  - intros Hsm Hm.
    assert (Hr0 : (r >=? 0) = false) by (destruct (r >=? 0); [discriminate Hm | reflexivity]).
    rewrite Hr0 in Hm. specialize (Hsmall Hsm Hm). rewrite Hsmall in *.
    cbn [sw_grid new_score skip_merge have_motions] in *.
    destruct (slide_effect_small _ _ _ _ Hsm Heff) as [[-> ->] | Hpos]; [reflexivity | lia].
Qed.

Lemma only_merge_sweep_motion g d :
  wf g ->
  exists s, only_merge_sweep g d = Ok s /\
            motion_inv g (lines d g * line_len d g) s.
Proof.
  intros Hwf. rewrite only_merge_sweep_lines.
  assert (HA : 0 <= lines d g /\ 0 <= line_len d g).
  { pose proof (wf_width g Hwf). pose proof (wf_height g Hwf). destruct d; simpl; lia. }
  apply (nest_inv (motion_inv g) (lines d g) (line_len d g)
           (fun a b s => sweep_cell d (line_x d g a b) (line_y d g a b) s) clear_skip);
    try lia.
  - intros k s (H1 & H2 & H3 & H4 & H5). unfold motion_inv. cbn. conjs; auto.
    intros Hsm Hm. rewrite (H5 Hsm Hm). reflexivity.
  - intros a b s Ha Hb. apply sweep_cell_motion; auto.
    apply on_line_in_bounds. split; assumption.
  - unfold motion_inv. cbn. conjs; auto using same_shape_refl; try lia; discriminate.
Qed.

(** [only_merge] on a well-formed grid never throws and never runs out of
    fuel; it keeps the dimensions and does not touch the score; the value it
    returns is -1 exactly when it reports no motion and otherwise the points
    gained, which are never negative. *)
Theorem only_merge_returns g d :
  wf g ->
  exists g' ret motions,
    only_merge g d = Ok (g', ret, motions) /\
    wf g' /\ same_shape g g' /\
    (motions = false <-> ret = -1) /\
    (motions = true <-> 0 <= ret) /\
    ret <= INT_MAX * (mWidth g * mHeight g).
Proof.
  intros Hwf.
  destruct (only_merge_sweep_spec g d Hwf) as (s & Hs & Hsh & Hwf' & Hsc & _).
  unfold only_merge. rewrite Hs. cbn [bind].
  do 3 eexists. split; [reflexivity|].
  pose proof (wf_width g Hwf). pose proof (wf_height g Hwf).
  assert (0 <= INT_MAX * (mWidth g * mHeight g)) by (unfold INT_MAX; nia).
  destruct (have_motions s); conjs; auto;
    try (split; intros; (discriminate || lia || reflexivity)); try lia.
Qed.

Lemma only_merge_returns_witness :
  exists g' ret motions,
    only_merge (mkGrid 2 2 [2; 2; 0; 4] 7) UP = Ok (g', ret, motions) /\
    wf g' /\ same_shape (mkGrid 2 2 [2; 2; 0; 4] 7) g' /\
    (motions = false <-> ret = -1) /\
    (motions = true <-> 0 <= ret) /\
    ret <= INT_MAX * (2 * 2).
Proof. apply (only_merge_returns (mkGrid 2 2 [2; 2; 0; 4] 7) UP). solve_wf. Defined.

(** A move never adds a tile, and once [only_merge] reports a motion the
    board has an empty cell: the tile spawned after a valid move always finds
    room. *)
Theorem only_merge_leaves_room g d :
  wf g ->
  exists g' ret motions,
    only_merge g d = Ok (g', ret, motions) /\
    nonzero_cells g' <= nonzero_cells g /\
    (motions = true -> has_empty_cell g').
Proof.
  intros Hwf.
  destruct (only_merge_sweep_motion g d Hwf) as (s & Hs & _ & _ & Hcnt & Hemp & _).
  unfold only_merge. rewrite Hs. cbn [bind].
  do 3 eexists. split; [reflexivity|]. split; assumption.
Qed.

Lemma only_merge_leaves_room_witness :
  exists g' ret motions,
    only_merge (mkGrid 2 2 [2; 2; 4; 8] 0) LEFT = Ok (g', ret, motions) /\
    nonzero_cells g' <= 4 /\
    (motions = true -> has_empty_cell g').
Proof. apply (only_merge_leaves_room (mkGrid 2 2 [2; 2; 4; 8] 0) LEFT). solve_wf. Defined.

(** On a board whose tiles are all below 2^30, a move that reports no motion
    has changed nothing: [merge] returns the grid it was given, score
    included, and the value -1. *)
Theorem merge_blocked_is_noop g d :
  wf g -> small_tiles g ->
  exists g' ret motions,
    merge g d = Ok (g', ret, motions) /\
    (motions = false -> g' = g /\ ret = -1).
Proof.
  intros Hwf Hsm.
  destruct (only_merge_sweep_motion g d Hwf) as (s & Hs & _ & _ & _ & _ & Hblk).
  unfold merge, only_merge. rewrite Hs. cbn [bind].
  do 3 eexists. split; [reflexivity|]. intros Hm.
  rewrite (Hblk Hsm Hm). cbn. split; reflexivity.
Qed.

Lemma merge_blocked_is_noop_witness :
  exists g' ret motions,
    merge (mkGrid 2 2 [2; 4; 4; 2] 5) LEFT = Ok (g', ret, motions) /\
    (motions = false -> g' = mkGrid 2 2 [2; 4; 4; 2] 5 /\ ret = -1).
Proof.
  apply (merge_blocked_is_noop (mkGrid 2 2 [2; 4; 4; 2] 5) LEFT).
  - solve_wf.
  - unfold small_tiles. simpl. repeat (constructor; [lia|]). constructor.
Defined.

(** [slide] on a cell of a well-formed grid never lets an exception escape
    and never runs out of fuel: it changes nothing and returns -1, or it
    empties the cell and writes exactly one other cell, an empty one that
    receives the tile (returning 0) or one with the same tile that receives
    the double.  On a cell outside the grid it throws [std::out_of_range]. *)
Theorem slide_moves_or_merges g x y d skip :
  wf g ->
  (in_bounds g x y ->
     exists g' r,
       slide g x y d skip = Ok (g', r) /\ wf g' /\ same_shape g g' /\
       slide_effect g (x + y * mWidth g) g' r) /\
  (~ in_bounds g x y -> slide g x y d skip = Fail OutOfRange).
Proof.
  intros Hwf. split.
  - intros Hxy.
    destruct (slide_effect_spec g x y d skip Hwf Hxy) as (g' & r & H1 & H2 & H3 & _ & H4).
    exists g', r. auto.
  - intros Hout. unfold slide. rewrite (get_out_of_bounds g x y Hout). reflexivity.
Qed.

Lemma slide_moves_or_merges_witness :
  (exists g' r,
     slide (mkGrid 3 1 [2; 0; 2] 0) 2 0 LEFT false = Ok (g', r) /\ wf g' /\
     same_shape (mkGrid 3 1 [2; 0; 2] 0) g' /\
     slide_effect (mkGrid 3 1 [2; 0; 2] 0) (2 + 0 * 3) g' r) /\
  slide (mkGrid 3 1 [2; 0; 2] 0) 3 0 LEFT false = Fail OutOfRange.
Proof.
  assert (Hwf : wf (mkGrid 3 1 [2; 0; 2] 0)) by solve_wf.
  split.
  - apply (proj1 (slide_moves_or_merges (mkGrid 3 1 [2; 0; 2] 0) 2 0 LEFT false Hwf)).
    unfold in_bounds. simpl. lia.
  - apply (proj2 (slide_moves_or_merges (mkGrid 3 1 [2; 0; 2] 0) 3 0 LEFT false Hwf)).
    unfold in_bounds. simpl. lia.
Defined.

(** ** Accessors *)

(** After [put(x, y, val)] on a cell of the grid, [get(x, y)] returns [val],
    every other cell reads as before, and dimensions and score are the same. *)
Theorem put_then_get g x y val :
  wf g -> in_bounds g x y -> in_i64 val ->
  exists g',
    put g x y val = Ok g' /\ wf g' /\ same_shape g g' /\
    get_const g' x y = Ok val /\
    (forall x' y', in_bounds g x' y' -> (x', y') <> (x, y) ->
                   get_const g' x' y' = get_const g x' y').
Proof.
  intros Hwf Hxy Hval.
  assert (Hon : on_line LEFT g y x) by (destruct Hxy; split; simpl; lia).
  destruct (store_on_line LEFT g y x val Hwf Hon Hval) as (g' & Hst & Hwf' & Hsh & Hcells).
  exists g'. unfold put. rewrite (get_in_bounds g x y Hxy). cbn [bind].
  change (line_idx LEFT g y x) with (x + y * mWidth g) in Hst.
  assert (Hb : forall x' y', in_bounds g x' y' -> in_bounds g' x' y').
  { destruct Hsh as (Hw & Hh & _). unfold in_bounds. rewrite Hw, Hh. auto. }
  conjs; auto.
  - rewrite (get_const_cell g' x y Hwf' (Hb _ _ Hxy)).
    pose proof (Hcells y x Hon) as Hc. unfold lcell in Hc. simpl in Hc.
    rewrite Hc, !Z.eqb_refl. reflexivity.
  - intros x' y' Hxy' Hne.
    rewrite (get_const_cell g' x' y' Hwf' (Hb _ _ Hxy')), (get_const_cell g x' y' Hwf Hxy').
    assert (Hon' : on_line LEFT g y' x') by (destruct Hxy'; split; simpl; lia).
    pose proof (Hcells y' x' Hon') as Hc. unfold lcell in Hc. simpl in Hc. rewrite Hc.
    destruct ((y' =? y) && (x' =? x)) eqn:E; [|reflexivity].
    exfalso. apply Hne. f_equal; lia.
Qed.

Lemma put_then_get_witness :
  exists g',
    put (reset 4 6) 1 2 8 = Ok g' /\ wf g' /\ same_shape (reset 4 6) g' /\
    get_const g' 1 2 = Ok 8 /\
    (forall x' y', in_bounds (reset 4 6) x' y' -> (x', y') <> (1, 2) ->
                   get_const g' x' y' = get_const (reset 4 6) x' y').
Proof.
  apply (put_then_get (reset 4 6) 1 2 8).
  - solve_wf.
  - unfold in_bounds. simpl. lia.
  - unfold in_i64, I64_MIN, I64_MAX. lia.
Defined.

(** [is_full] on a well-formed grid never fails, and answers true exactly
    when no cell is 0. *)
Theorem is_full_iff g :
  wf g ->
  exists b, is_full g = Ok b /\
            (b = true <-> no_empty_cell g) /\ (b = false <-> has_empty_cell g).
Proof.
  intros Hwf. rewrite (is_full_spec g Hwf). eexists. split; [reflexivity|].
  unfold no_empty_cell, has_empty_cell.
  induction (mGrid g) as [|c l IH]; cbn [forallb].
  - split; split; intros H; try reflexivity; try discriminate.
    + constructor.
    + inversion H.
  - destruct IH as [IH1 IH2]. destruct (Z.eqb_spec c 0) as [-> | Hc]; cbn [negb andb].
    + split; split; intros H; try reflexivity; try discriminate.
      * inversion H; subst. contradiction.
      * apply Exists_cons_hd. reflexivity.
    + split; split; intros H.
      * constructor; [exact Hc | apply IH1; exact H].
      * apply IH1. inversion H; subst. assumption.
      * apply Exists_cons_tl. apply IH2. exact H.
      * apply IH2. inversion H; subst; [contradiction | assumption].
Qed.

Lemma is_full_iff_witness :
  exists b, is_full (mkGrid 2 1 [2; 0] 0) = Ok b /\
            (b = true <-> no_empty_cell (mkGrid 2 1 [2; 0] 0)) /\
            (b = false <-> has_empty_cell (mkGrid 2 1 [2; 0] 0)).
Proof. apply (is_full_iff (mkGrid 2 1 [2; 0] 0)). solve_wf. Defined.

(** ** Starting a game and playing a move *)

Lemma full_or_empty_cell g : no_empty_cell g \/ has_empty_cell g.
Proof.
  unfold no_empty_cell, has_empty_cell.
  induction (mGrid g) as [|c l [IH | IH]].
  - left. constructor.
  - destruct (Z.eq_dec c 0) as [-> | Hc].
    + right. apply Exists_cons_hd. reflexivity.
    + left. constructor; assumption.
  - right. apply Exists_cons_tl. exact IH.
Qed.

Lemma reset_wf w h : 0 <= w -> 0 <= h -> w * h <= INT_MAX -> wf (reset w h).
Proof.
  intros Hw Hh Ha. constructor; simpl; auto.
  - rewrite length_replicate. nia.
  - apply Forall_replicate. unfold in_i64, I64_MIN, I64_MAX. lia.
  - unfold in_i64, I64_MIN, I64_MAX. lia.
Qed.

Lemma count_nonzero_replicate n : count_nonzero (replicate n 0) = 0.
Proof. induction n as [|n IH]; simpl; [reflexivity | rewrite IH; reflexivity]. Qed.

Lemma wf_placed g i v g' : wf g -> in_i64 v -> placed_on g i v g' -> wf g'.
Proof.
  intros Hwf Hv [_ ->]. apply wf_set_cells; auto.
  - apply length_insert.
  - apply Forall_insert; [apply (wf_cells g Hwf) | exact Hv].
Qed.

Lemma tile_values_i64 v : In v tile_values -> in_i64 v /\ v <> 0.
Proof.
  unfold tile_values, in_i64, I64_MIN, I64_MAX. simpl.
  intros [<- | [<- | [<- | [<- | []]]]]; lia.
Qed.

Lemma get_const_fault g x y e : wf g -> get_const g x y = Fail e -> e = OutOfRange.
Proof.
  intros Hwf. unfold get_const.
  destruct ((x >=? mWidth g) || (x <? 0) || (y <? 0) || (y >=? mHeight g)) eqn:E.
  - intros [= <-]. reflexivity.
  - destruct (load_in_range g (x + y * mWidth g)) as [v ->]; [|discriminate].
    apply cell_index_range; [exact Hwf | unfold in_bounds; lia].
Qed.

Lemma for_return_fault {R : Type} (body : Z -> res (option R)) l e :
  (forall i e', body i = Fail e' -> e' = OutOfRange) ->
  for_return body l = Fail e -> e = OutOfRange.
Proof.
  intros Hb. induction l as [|i l IH]; cbn [for_return]; [discriminate|].
  destruct (body i) as [[r|]|e'] eqn:E; cbn [bind].
  - discriminate.
  - exact IH.
  - intros [= <-]. eapply Hb. exact E.
Qed.

Lemma is_fail_fault g e : wf g -> is_fail g = Fail e -> e = OutOfRange.
Proof.
  intros Hwf. unfold is_fail. rewrite (is_full_spec g Hwf). cbn [bind].
  destruct (negb _); [discriminate|].
  destruct (for_return _ _) as [r|e'] eqn:E; cbn [bind].
  - destruct r; discriminate.
  - intros [= <-]. revert E. apply for_return_fault. intros x e1.
    apply for_return_fault. intros y e2. unfold is_fail_cell, and_eq.
    repeat match goal with
           | |- bind (get_const ?g ?a ?b) _ = _ -> _ =>
               let E := fresh "E" in
               destruct (get_const g a b) eqn:E; cbn [bind];
               [| intros [= <-]; eapply get_const_fault; eassumption]
           | |- bind (bind (get_const ?g ?a ?b) _) _ = _ -> _ =>
               let E := fresh "E" in
               destruct (get_const g a b) eqn:E; cbn [bind];
               [| intros [= <-]; eapply get_const_fault; eassumption]
           | |- bind (if ?c then _ else _) _ = _ -> _ => destruct c; cbn [bind]
           | |- (if ?c then _ else _) = _ -> _ => destruct c
           | |- Ok _ = Fail _ -> _ => discriminate
           end.
Qed.

(** What [merge] hands to the rest of the loop. *)
Lemma merge_motion g d :
  wf g ->
  exists g1 inc valid,
    merge g d = Ok (g1, inc, valid) /\ wf g1 /\
    mWidth g1 = mWidth g /\ mHeight g1 = mHeight g /\
    (valid = true -> has_empty_cell g1) /\
    (small_tiles g -> valid = false -> g1 = g).
Proof.
  intros Hwf.
  destruct (only_merge_sweep_motion g d Hwf)
    as (s & Hs & Hwf' & (Hw & Hh & Hsc) & _ & Hemp & Hblk).
  unfold merge, only_merge. rewrite Hs. cbn [bind].
  do 3 eexists. split; [reflexivity|]. conjs.
  - destruct (_ >? 0); [|exact Hwf'].
    destruct Hwf'. constructor; auto. cbn. apply wrap64_range.
  - destruct (_ >? 0); cbn; exact Hw.
  - destruct (_ >? 0); cbn; exact Hh.
  - intros Hm. destruct (_ >? 0); [|auto]. apply (Hemp Hm).
  - intros Hsm Hm. rewrite (Hblk Hsm Hm). reflexivity.
Qed.

Section GameFacts.

Variable engine : Type.
Variable uniform_int : Z -> Z -> engine -> Z * engine.

Hypothesis uniform_int_range :
  forall lo hi rng, lo <= hi -> lo <= fst (uniform_int lo hi rng) <= hi.

Lemma generate_loop_outcome targetval g d : forall fuel rng,
  wf g -> d = (0, mWidth g * mHeight g - 1) -> 0 < mWidth g * mHeight g ->
  generate_loop engine uniform_int fuel d targetval g rng = Fail Timeout \/
  exists i rng' g',
    generate_loop engine uniform_int fuel d targetval g rng = Ok (g', rng') /\
    placed_on g i targetval g'.
Proof.
  intros fuel rng Hwf -> Harea. revert rng.
  induction fuel as [|fuel IH]; intros rng; [left; reflexivity|].
  cbn [generate_loop fst snd].
  pose proof (uniform_int_range 0 (mWidth g * mHeight g - 1) rng ltac:(lia)) as Hp.
  destruct (uniform_int 0 (mWidth g * mHeight g - 1) rng) as [p rng'].
  cbn [fst] in Hp.
  assert (Rp : 0 <= p < Z.of_nat (length (mGrid g)))
    by (rewrite (wf_len g Hwf); lia).
  destruct (load_in_range g p Rp) as [v Hv]. rewrite Hv. cbn [bind].
  destruct (v =? 0) eqn:Ev; [|apply IH].
  assert (v = 0) by lia. subst v.
  rewrite (store_in_range g p targetval Rp). cbn [bind].
  right. exists (Z.to_nat p), rng'. eexists. split; [reflexivity|].
  split; [|reflexivity]. apply load_Some in Hv. tauto.
Qed.

(** [generate] either runs out of the draws it was given, or finds the board
    full and returns true without touching it, or returns false having put
    the value on one cell that was empty. *)
Lemma generate_outcome fuel targetval g st :
  wf g ->
  pos_dist st = None \/ pos_dist st = Some (0, mWidth g * mHeight g - 1) ->
  generate engine uniform_int fuel targetval g st = Fail Timeout \/
  (no_empty_cell g /\ exists st',
     generate engine uniform_int fuel targetval g st = Ok (g, true, st') /\
     rand st' = rand st) \/
  (has_empty_cell g /\ exists i g' st',
     generate engine uniform_int fuel targetval g st = Ok (g', false, st') /\
     placed_on g i targetval g').
Proof.
  intros Hwf Hpd. unfold generate.
  replace (match pos_dist st with Some d => d | None => (0, mWidth g * mHeight g - 1) end)
    with (0, mWidth g * mHeight g - 1) by (destruct Hpd as [-> | ->]; reflexivity).
  destruct (full_or_empty_cell g) as [Hn | He].
  - rewrite (is_full_true g Hwf Hn). cbn [bind].
    right. left. split; [exact Hn|]. eexists. split; reflexivity.
  - rewrite (is_full_false g Hwf He). cbn [bind].
    assert (Harea : 0 < mWidth g * mHeight g).
    { rewrite <- (wf_len g Hwf). apply Exists_exists in He as (c & Hc & _).
      destruct (mGrid g); [inversion Hc | simpl; lia]. }
    destruct (generate_loop_outcome targetval g _ fuel (rand st) Hwf eq_refl Harea)
      as [-> | (i & rng' & g' & -> & Hpl)]; [left; reflexivity|].
    right. right. split; [exact He|]. cbn [bind]. exists i, g'. eexists.
    split; [reflexivity | exact Hpl].
Qed.

Lemma generate_randomly_cases fuel g st :
  wf g ->
  pos_dist st = None \/ pos_dist st = Some (0, mWidth g * mHeight g - 1) ->
  generate_randomly engine uniform_int fuel g st = Fail Timeout \/
  (no_empty_cell g /\ exists st',
     generate_randomly engine uniform_int fuel g st = Ok (g, true, st')) \/
  (has_empty_cell g /\ exists i v g' st',
     generate_randomly engine uniform_int fuel g st = Ok (g', false, st') /\
     In v tile_values /\ placed_on g i v g').
Proof.
  intros Hwf Hpd. unfold generate_randomly, false_1i4.
  assert (Hgen : forall v rng, In v tile_values ->
            generate engine uniform_int fuel v g (with_rand engine st rng) = Fail Timeout \/
            (no_empty_cell g /\ exists st',
               generate engine uniform_int fuel v g (with_rand engine st rng)
               = Ok (g, true, st')) \/
            (has_empty_cell g /\ exists i v' g' st',
               generate engine uniform_int fuel v g (with_rand engine st rng)
               = Ok (g', false, st') /\ In v' tile_values /\ placed_on g i v' g')).
  { intros v rng Hv.
    destruct (generate_outcome fuel v g (with_rand engine st rng) Hwf Hpd)
      as [H | [(Hn & st' & H & _) | (He & i & g' & st' & H & Hpl)]].
    - left. exact H.
    - right. left. split; [exact Hn|]. exists st'. exact H.
    - right. right. split; [exact He|]. exists i, v, g', st'. auto. }
  destruct (uniform_int 0 3 (rand st)) as [f1 r1].
  destruct (f1 =? 0); [|apply Hgen; simpl; auto].
  destruct (uniform_int 0 3 r1) as [f2 r2].
  destruct (f2 =? 0); [|apply Hgen; simpl; auto].
  destruct (uniform_int 0 3 r2) as [f3 r3].
  destruct (f3 =? 0); apply Hgen; simpl; auto.
Qed.

(** When the static distribution of [generate] has not been constructed
    yet, or was constructed for a board of this size, and returns values in
    its range: [generate_randomly] never places anything but 2, 4, 8 or 16
    and never writes an occupied cell; it runs out of draws, or finds the
    board full and returns true without touching it, or returns false having
    put one of those values on one cell that was empty, which leaves a
    well-formed board of the same dimensions and score with one tile more.
    (A distribution left over from a larger board can draw an index outside
    the buffer; see [generate].) *)
Theorem generate_randomly_outcome fuel g st :
  wf g ->
  pos_dist st = None \/ pos_dist st = Some (0, mWidth g * mHeight g - 1) ->
  generate_randomly engine uniform_int fuel g st = Fail Timeout \/
  (no_empty_cell g /\ exists st',
     generate_randomly engine uniform_int fuel g st = Ok (g, true, st')) \/
  (has_empty_cell g /\ exists i v g' st',
     generate_randomly engine uniform_int fuel g st = Ok (g', false, st') /\
     In v tile_values /\ placed_on g i v g' /\
     wf g' /\ same_shape g g' /\ nonzero_cells g' = nonzero_cells g + 1).
Proof.
  intros Hwf Hpd.
  destruct (generate_randomly_cases fuel g st Hwf Hpd)
    as [H | [H | (He & i & v & g' & st' & H & Hv & Hpl)]]; [auto | auto |].
  right. right. split; [exact He|]. exists i, v, g', st'.
  destruct (tile_values_i64 v Hv) as [Hv64 Hnz].
  conjs; auto.
  - apply (wf_placed g i v); auto.
  - destruct Hpl as [_ ->]. unfold same_shape. cbn. auto.
  - destruct Hpl as [H0 ->]. unfold nonzero_cells. cbn [mGrid set_cells].
    rewrite (count_nonzero_insert _ _ 0 v H0). change (0 =? 0) with true.
    destruct (Z.eqb_spec v 0); lia.
Qed.

(** A game starts on an empty board with exactly one tile: after
    [reset(w, h)] the first draw of [generate] already lands on an empty
    cell, so it returns false and the cell drawn holds the tile. *)
Theorem start_game_one_tile fuel w h targetval st :
  0 < w -> 0 < h -> w * h <= INT_MAX -> targetval <> 0 ->
  pos_dist st = None \/ pos_dist st = Some (0, w * h - 1) ->
  exists i g' st',
    start_game engine uniform_int (S fuel) w h targetval st = Ok (g', false, st') /\
    mGrid g' = <[i := targetval]> (replicate (Z.to_nat (w * h)) 0) /\
    Z.of_nat i = fst (uniform_int 0 (w * h - 1) (rand st)) /\
    Z.of_nat i < w * h /\
    nonzero_cells g' = 1 /\ mScore g' = 0 /\ mWidth g' = w /\ mHeight g' = h.
Proof.
  intros Hw Hh Ha Ht Hpd.
  assert (Hwf : wf (reset w h)) by (apply reset_wf; lia).
  pose proof (uniform_int_range 0 (w * h - 1) (rand st) ltac:(nia)) as Hp.
  unfold start_game, generate. cbn [mWidth mHeight reset].
  replace (match pos_dist st with Some d => d | None => (0, w * h - 1) end)
    with (0, w * h - 1) by (destruct Hpd as [-> | ->]; reflexivity).
  rewrite (is_full_false (reset w h) Hwf).
  2:{ unfold has_empty_cell. cbn [mGrid reset]. apply Exists_exists. exists 0.
      split; [|reflexivity]. apply elem_of_replicate. split; [reflexivity|]. nia. }
  cbn [bind generate_loop fst snd].
  destruct (uniform_int 0 (w * h - 1) (rand st)) as [p rng']. cbn [fst] in Hp.
  assert (Hl : load (reset w h) p = Ok 0).
  { apply load_Some. split; [lia|]. cbn [mGrid reset].
    apply lookup_replicate_2. lia. }
  rewrite Hl. cbn [bind Z.eqb].
  rewrite store_in_range by (cbn [mGrid reset]; rewrite length_replicate; lia).
  cbn [bind]. exists (Z.to_nat p). do 2 eexists. split; [reflexivity|].
  cbn [mGrid mScore mWidth mHeight set_cells reset fst]. conjs; auto; try lia.
  unfold nonzero_cells. cbn [mGrid set_cells].
  rewrite (count_nonzero_insert _ _ 0) by (apply lookup_replicate_2; lia).
  rewrite count_nonzero_replicate. change (0 =? 0) with true. cbv iota.
  destruct (targetval =? 0) eqn:E; lia.
Qed.

(** One move of the game on a board with small tiles.  If the loop goes on,
    either nothing at all has changed (the move was blocked: no tile is
    spawned and no draw is made), or the merge reported a motion and exactly
    one tile of 2, 4, 8 or 16 was placed on an empty cell of the merged
    board; the spawn never finds the board full.  [GameOver] carries the score
    of the board after the spawn.  The only failures are running out of draws
    and the [std::out_of_range] that escapes from [is_fail]. *)
Theorem render_game_move_outcome fuel d g st :
  wf g -> small_tiles g ->
  pos_dist st = None \/ pos_dist st = Some (0, mWidth g * mHeight g - 1) ->
  match render_game_move engine uniform_int fuel d g st with
  | Ok (Continue g2 st2) =>
      (g2 = g /\ st2 = st) \/
      (exists g1 inc i v,
         merge g d = Ok (g1, inc, true) /\ In v tile_values /\ placed_on g1 i v g2)
  | Ok (GameOver sc) =>
      exists g1 inc i v g2,
        merge g d = Ok (g1, inc, true) /\ In v tile_values /\ placed_on g1 i v g2 /\
        is_fail g2 = Ok true /\ sc = mScore g2
  | Fail e => e = Timeout \/ e = OutOfRange
  end.
Proof.
  intros Hwf Hsm Hpd.
  destruct (merge_motion g d Hwf) as (g1 & inc & valid & Hm & Hwf1 & Hw1 & Hh1 & Hemp & Hblk).
  unfold render_game_move. rewrite Hm. cbn [bind].
  destruct valid.
  2:{ left. split; [apply Hblk; auto | reflexivity]. }
  rewrite <- Hw1, <- Hh1 in Hpd.
  destruct (generate_randomly_cases fuel g1 st Hwf1 Hpd)
    as [-> | [(Hfull & _) | (_ & i & v & g2 & st' & -> & Hv & Hpl)]].
  - left. reflexivity.
  - exfalso. specialize (Hemp eq_refl).
    apply Exists_exists in Hemp as (c & Hc & ->).
    exact (proj1 (Forall_forall _ _) Hfull 0 Hc eq_refl).
  - cbn [bind].
    assert (Hwf2 : wf g2) by (apply (wf_placed g1 i v); auto; apply tile_values_i64; auto).
    destruct (is_fail g2) as [lost|e] eqn:Hf; cbn [bind].
    + destruct lost.
      * exists g1, inc, i, v, g2. auto.
      * right. exists g1, inc, i, v. auto.
    + right. eapply is_fail_fault; eassumption.
Qed.

End GameFacts.

Lemma generate_randomly_outcome_witness :
  generate_randomly (list Z) scripted_uniform_int 5 (mkGrid 2 2 [2; 0; 4; 0] 0)
                    (mkStatics [0; 1; 2; 3] None) = Fail Timeout \/
  (no_empty_cell (mkGrid 2 2 [2; 0; 4; 0] 0) /\ exists st',
     generate_randomly (list Z) scripted_uniform_int 5 (mkGrid 2 2 [2; 0; 4; 0] 0)
                       (mkStatics [0; 1; 2; 3] None)
     = Ok (mkGrid 2 2 [2; 0; 4; 0] 0, true, st')) \/
  (has_empty_cell (mkGrid 2 2 [2; 0; 4; 0] 0) /\ exists i v g' st',
     generate_randomly (list Z) scripted_uniform_int 5 (mkGrid 2 2 [2; 0; 4; 0] 0)
                       (mkStatics [0; 1; 2; 3] None) = Ok (g', false, st') /\
     In v tile_values /\ placed_on (mkGrid 2 2 [2; 0; 4; 0] 0) i v g' /\
     wf g' /\ same_shape (mkGrid 2 2 [2; 0; 4; 0] 0) g' /\
     nonzero_cells g' = nonzero_cells (mkGrid 2 2 [2; 0; 4; 0] 0) + 1).
Proof.
  apply (generate_randomly_outcome (list Z) scripted_uniform_int scripted_uniform_int_range
           5 (mkGrid 2 2 [2; 0; 4; 0] 0) (mkStatics [0; 1; 2; 3] None)).
  - solve_wf.
  - left. reflexivity.
Defined.

Lemma start_game_one_tile_witness :
  exists i g' st',
    start_game (list Z) scripted_uniform_int 1 4 6 2 (mkStatics [17] None)
    = Ok (g', false, st') /\
    mGrid g' = <[i := 2]> (replicate (Z.to_nat (4 * 6)) 0) /\
    Z.of_nat i = fst (scripted_uniform_int 0 (4 * 6 - 1) (rand (mkStatics [17] None))) /\
    Z.of_nat i < 4 * 6 /\
    nonzero_cells g' = 1 /\ mScore g' = 0 /\ mWidth g' = 4 /\ mHeight g' = 6.
Proof.
  apply (start_game_one_tile (list Z) scripted_uniform_int scripted_uniform_int_range
           0 4 6 2 (mkStatics [17] None)).
  - lia.
  - lia.
  - unfold INT_MAX. lia.
  - lia.
  - left. reflexivity.
Defined.

Lemma render_game_move_outcome_witness :
  match render_game_move (list Z) scripted_uniform_int 5 LEFT
          (mkGrid 2 2 [0; 2; 4; 4] 0) (mkStatics [1; 0; 3] None) with
  | Ok (Continue g2 st2) =>
      (g2 = mkGrid 2 2 [0; 2; 4; 4] 0 /\ st2 = mkStatics [1; 0; 3] None) \/
      (exists g1 inc i v,
         merge (mkGrid 2 2 [0; 2; 4; 4] 0) LEFT = Ok (g1, inc, true) /\
         In v tile_values /\ placed_on g1 i v g2)
  | Ok (GameOver sc) =>
      exists g1 inc i v g2,
        merge (mkGrid 2 2 [0; 2; 4; 4] 0) LEFT = Ok (g1, inc, true) /\
        In v tile_values /\ placed_on g1 i v g2 /\
        is_fail g2 = Ok true /\ sc = mScore g2
  | Fail e => e = Timeout \/ e = OutOfRange
  end.
Proof.
  apply (render_game_move_outcome (list Z) scripted_uniform_int scripted_uniform_int_range
           5 LEFT (mkGrid 2 2 [0; 2; 4; 4] 0) (mkStatics [1; 0; 3] None)).
  - solve_wf.
  - unfold small_tiles. simpl. repeat (constructor; [lia|]). constructor.
  - left. reflexivity.
Defined.

(** ** Sliding without merging *)

Lemma slide_catch_moved g cur x y d coord cv g' r :
  wf g -> in_bounds g x y -> cur = x + y * mWidth g -> load g cur = Ok cv -> cv <> 0 ->
  1 <= coord -> scanned g x y d coord ->
  slide_catch g cur x y d coord = Ok (g', r) -> slide_moved g cur g' r.
Proof.
  intros Hwf Hxy Hcur Hcv Hnz Hc Hscan. unfold slide_catch.
  destruct (coord >? 1) eqn:E.
  - destruct (Hscan (coord - 1)) as (t & Hget & Ht); [lia|].
    destruct (get_dire_inv g x y d (coord - 1) t Hwf Hxy ltac:(lia) Hget)
      as (Rt & Hne & _).
    pose proof (cell_index_range g x y Hwf Hxy) as Rc. rewrite <- Hcur in Rc, Hne.
    rewrite Hget. cbn [bind]. rewrite Hcv. cbn [bind].
    rewrite (store_in_range g t cv Rt). cbn [bind].
    rewrite store_in_range by (cbn [mGrid set_cells]; rewrite length_insert; exact Rc).
    cbn [bind mGrid set_cells]. intros [= <- <-]. right.
    exists t, cv. conjs; auto; try lia.
  - intros [= <- <-]. left. split; reflexivity.
Qed.

Lemma slide_loop_moved fuel : forall g cur x y d coord cv g' r,
  wf g -> in_bounds g x y -> cur = x + y * mWidth g -> load g cur = Ok cv -> cv <> 0 ->
  1 <= coord -> scanned g x y d coord ->
  slide_loop fuel g cur x y d true coord = Ok (g', r) -> slide_moved g cur g' r.
Proof.
  induction fuel as [|fuel IH];
    intros g cur x y d coord cv g' r Hwf Hxy Hcur Hcv Hnz Hc Hscan H;
    [discriminate H|].
  pose proof (slide_catch_moved g cur x y d coord cv g' r Hwf Hxy Hcur Hcv Hnz Hc Hscan)
    as Hcatch.
  cbn [slide_loop] in H. unfold slide_try in H.
  destruct (__get_dire g x y d coord) as [t|e] eqn:Hget; cbn [bind] in H.
  2:{ apply get_dire_fault in Hget. subst e. auto. }
  destruct (get_dire_inv g x y d coord t Hwf Hxy Hc Hget) as (Rt & Hne & _).
  destruct (load_in_range g t Rt) as [tv Htv]. rewrite Htv in H. cbn [bind] in H.
  destruct (tv =? 0) eqn:Etv; cbn [negb] in H; [|auto].
  apply (IH g cur x y d (coord + 1) cv g' r); auto; try lia.
  intros c Hcr. destruct (Z.eq_dec c coord) as [->|Hn].
  - exists t. split; [exact Hget|]. rewrite Htv. f_equal. lia.
  - apply Hscan. lia.
Qed.

(** With [skip_merge] set, [slide] never merges: it returns -1 and leaves
    the grid as it is, or it returns 0 after carrying the tile to a cell that
    was empty.  The sum of the cells and the number of tiles stay the same. *)
Theorem slide_skip_only_moves g x y d :
  wf g -> in_bounds g x y ->
  exists g' r,
    slide g x y d true = Ok (g', r) /\
    slide_moved g (x + y * mWidth g) g' r /\
    (r = -1 \/ r = 0) /\
    sum_cells g' = sum_cells g /\ nonzero_cells g' = nonzero_cells g /\
    mScore g' = mScore g.
Proof.
  intros Hwf Hxy.
  destruct (slide_spec g x y d true Hwf Hxy) as (g' & r & Hs & Hsh & Hwf' & Hr & _).
  exists g', r. split; [exact Hs|].
  assert (Hmv : slide_moved g (x + y * mWidth g) g' r).
  { unfold slide in Hs. rewrite (get_in_bounds g x y Hxy) in Hs. cbn [bind] in Hs.
    destruct (load_in_range g _ (cell_index_range g x y Hwf Hxy)) as [cv Hcv].
    rewrite Hcv in Hs. cbn [bind] in Hs.
    destruct (cv =? 0) eqn:E.
    - injection Hs as <- <-. left. split; reflexivity.
    - apply (slide_loop_moved (slide_fuel g) g _ x y d 1 cv g' r Hwf Hxy eq_refl Hcv);
        auto; try lia.
      intros c Hc. lia. }
  split; [exact Hmv|].
  destruct Hmv as [[-> ->] | (t & cv & Rt & Rc & Hne & Ht & Hc & Hnz & -> & ->)];
    [conjs; auto|].
  apply load_Some in Ht as [_ Ht]. apply load_Some in Hc as [_ Hc].
  unfold sum_cells, nonzero_cells. cbn [mGrid set_cells mScore]. conjs; auto.
  - rewrite (lsum_insert _ _ cv 0)
      by (rewrite list_lookup_insert_ne by lia; exact Hc).
    rewrite (lsum_insert _ _ 0 cv Ht). lia.
  - rewrite (count_nonzero_insert _ _ cv 0)
      by (rewrite list_lookup_insert_ne by lia; exact Hc).
    rewrite (count_nonzero_insert _ _ 0 cv Ht).
    change (0 =? 0) with true. destruct (Z.eqb_spec cv 0); lia.
Qed.

Lemma slide_skip_only_moves_witness :
  exists g' r,
    slide (mkGrid 4 1 [2; 0; 0; 2] 0) 3 0 LEFT true = Ok (g', r) /\
    slide_moved (mkGrid 4 1 [2; 0; 0; 2] 0) (3 + 0 * 4) g' r /\
    (r = -1 \/ r = 0) /\
    sum_cells g' = sum_cells (mkGrid 4 1 [2; 0; 0; 2] 0) /\
    nonzero_cells g' = nonzero_cells (mkGrid 4 1 [2; 0; 0; 2] 0) /\
    mScore g' = 0.
Proof.
  apply (slide_skip_only_moves (mkGrid 4 1 [2; 0; 0; 2] 0) 3 0 LEFT).
  - solve_wf.
  - unfold in_bounds. simpl. lia.
Defined.

(** ** A single tile *)

Section Lone.

Variables (d : DIRECTION) (g : Grid) (a0 b0 v : Z).
Hypothesis Hwf : wf g.
Hypothesis Hv : v <> 0.
Hypothesis Htile : on_line d g a0 b0.
Hypothesis Hgrid : line_grid d g (lone_f a0 b0 v).

Lemma lone_step a b s :
  on_line d g a b ->
  lone_inv d g a0 b0 v (a * line_len d g + b) s ->
  exists s', sweep_cell d (line_x d g a b) (line_y d g a b) s = Ok s' /\
             lone_inv d g a0 b0 v (a * line_len d g + b + 1) s'.
Proof.
  intros Hl (H1 & H2).
  assert (HB : 0 <= b < line_len d g /\ 0 <= b0 < line_len d g)
    by (destruct Hl, Htile; lia).
  destruct (Z.lt_trichotomy (a * line_len d g + b) (a0 * line_len d g + b0)) as [Hk | [Hk | Hk]].
  - (* before the tile *)
    rewrite (H1 ltac:(lia)). unfold sweep_cell. cbn [sw_grid skip_merge].
    rewrite (slide_on_empty d g a b false Hwf Hl).
    2:{ rewrite (Hgrid a b Hl). unfold lone_f. zcases.
        all: subst; lia. }
    cbn. eexists. split; [reflexivity|]. unfold lone_inv.
    conjs; intros; try lia; conjs; auto; try lia.
  - (* the tile *)
    assert (a = a0 /\ b = b0) as [-> ->]
      by (apply (sweep_pos_inj (line_len d g)); lia).
    rewrite (H1 ltac:(lia)). unfold sweep_cell. cbn [sw_grid skip_merge].
    assert (Hc : lcell d g a0 b0 = v)
      by (rewrite (Hgrid a0 b0 Hl); unfold lone_f; zcases).
    destruct (Z.eq_dec b0 0) as [Hb0 | Hb0].
    + subst b0. rewrite (slide_on_edge d g a0 false Hwf Hl) by lia.
      cbn. eexists. split; [reflexivity|]. unfold lone_inv.
      cbn [sw_grid new_score skip_merge have_motions].
      conjs; intros; try lia; conjs; auto using same_shape_refl; try lia.
    + destruct (slide_to_edge d g a0 b0 false Hwf Hl) as (g' & Hs & Hwf' & Hsh & Hcells);
        [lia | lia | |].
      { intros b' Hb'. rewrite (Hgrid a0 b'); [|destruct Hl; split; lia].
        unfold lone_f. zcases. }
      rewrite Hs. cbn. eexists. split; [reflexivity|]. unfold lone_inv.
      cbn [sw_grid new_score skip_merge have_motions].
      conjs; intros; try lia; conjs; auto; try lia.
      intros a' b' Hl'. destruct (line_shape d g g' Hsh) as (_ & _ & _ & _ & _ & Hon).
      apply Hon in Hl'. rewrite (Hcells a' b' Hl'), Hc, (Hgrid a' b' Hl').
      unfold lone_f. zcases.
  - (* after the tile *)
    destruct (H2 ltac:(lia)) as (Hwfs & Hshs & Hgs & Hsame & Hsc & Hm).
    destruct (line_shape d g (sw_grid s) Hshs) as (_ & _ & Hx & Hy & _ & Hon).
    unfold sweep_cell. rewrite <- Hx, <- Hy.
    rewrite (slide_on_empty d (sw_grid s) a b (skip_merge s) Hwfs)
      by first [ apply Hon; exact Hl
               | rewrite (Hgs a b) by (apply Hon; exact Hl);
                 unfold lone_f; zcases; subst; lia ].
    cbn. eexists. split; [reflexivity|]. unfold lone_inv.
    cbn [sw_grid new_score skip_merge have_motions].
    conjs; intros; try lia; conjs; auto; try lia.
Qed.

Lemma lone_sweep :
  exists s, only_merge_sweep g d = Ok s /\
            lone_inv d g a0 b0 v (lines d g * line_len d g) s.
Proof.
  rewrite only_merge_sweep_lines.
  assert (HA : 0 <= lines d g /\ 0 <= line_len d g)
    by (destruct Htile; lia).
  assert (Hk1 : 0 <= a0 * line_len d g + b0) by (destruct Htile; nia).
  apply (nest_inv (lone_inv d g a0 b0 v) (lines d g) (line_len d g)
           (fun a b s => sweep_cell d (line_x d g a b) (line_y d g a b) s) clear_skip);
    try lia.
  - intros k s (H1 & H2). unfold lone_inv. conjs.
    + intros Hk. rewrite (H1 Hk). reflexivity.
    + intros Hk. destruct (H2 Hk) as (? & ? & ? & ? & ? & ?). cbn. auto 10.
  - intros a b s Ha Hb. apply lone_step. split; assumption.
  - unfold lone_inv. conjs; intros; try lia; conjs; auto; try lia.
Qed.

(** A board with a single tile, moved in any direction: the tile ends on the
    edge of its line, at position 0, and every other cell is empty.  If it
    was away from the edge the call returns 0 and reports a motion; if it was
    on the edge already the grid is unchanged, -1 is returned and no motion
    is reported. *)
Theorem lone_tile_moves_to_edge :
  exists g',
    only_merge g d = Ok (g', if 0 <? b0 then 0 else -1, 0 <? b0) /\
    wf g' /\ same_shape g g' /\ line_grid d g' (lone_f a0 0 v) /\
    (b0 = 0 -> g' = g).
Proof.
  destruct lone_sweep as (s & Hs & _ & H2).
  destruct H2 as (Hwf' & Hsh & Hg & Hsame & Hsc & Hm).
  { destruct Htile as [Ha Hb]. nia. }
  exists (sw_grid s). unfold only_merge. rewrite Hs. cbn [bind].
  rewrite Hm, Hsc. auto.
Qed.

End Lone.

Lemma lone_tile_moves_to_edge_witness :
  exists g',
    only_merge (mkGrid 2 3 [0; 0; 0; 0; 0; 8] 0) UP
    = Ok (g', if 0 <? 2 then 0 else -1, 0 <? 2) /\
    wf g' /\ same_shape (mkGrid 2 3 [0; 0; 0; 0; 0; 8] 0) g' /\
    line_grid UP g' (lone_f 1 0 8) /\
    (2 = 0 -> g' = mkGrid 2 3 [0; 0; 0; 0; 0; 8] 0).
Proof.
  apply (lone_tile_moves_to_edge UP (mkGrid 2 3 [0; 0; 0; 0; 0; 8] 0) 1 2 8).
  - solve_wf.
  - lia.
  - unfold on_line. simpl. lia.
  - intros a b [Ha Hb]. simpl in Ha, Hb.
    assert (Ha' : a = 0 \/ a = 1) by lia.
    assert (Hb' : b = 0 \/ b = 1 \/ b = 2) by lia.
    destruct Ha' as [-> | ->]; destruct Hb' as [-> | [-> | ->]]; reflexivity.
Defined.

(** ** Directions *)

(** A step of [coord] cells in a direction, followed from the cell reached
    by the same step in the opposite direction, leads back to the cell it
    started from; and the opposite of the opposite is the direction itself. *)
Theorem opposite_dire_steps_back g x y d coord i :
  wf g -> in_bounds g x y ->
  __get_dire g x y d coord = Ok i ->
  __get_dire g (i mod mWidth g) (i / mWidth g) (__opposite_dire d) coord
  = Ok (x + y * mWidth g) /\
  __opposite_dire (__opposite_dire d) = d.
Proof.
  intros Hwf Hxy H. split; [|destruct d; reflexivity].
  assert (Hw : 0 < mWidth g) by (destruct Hxy; lia).
  assert (Hback : forall x' y', in_bounds g x' y' ->
            (x' + y' * mWidth g) mod mWidth g = x' /\
            (x' + y' * mWidth g) / mWidth g = y').
  { intros x' y' [Hx' Hy']. rewrite Z.mod_add, Z.div_add by lia.
    rewrite Z.mod_small, Z.div_small by lia. lia. }
  destruct d; simpl in H |- *; apply get_inv in H as [Hb ->];
    destruct (Hback _ _ Hb) as [-> ->].
  - replace (y - coord + coord) with y by lia. apply get_in_bounds, Hxy.
  - replace (y + coord - coord) with y by lia. apply get_in_bounds, Hxy.
  - replace (x + coord - coord) with x by lia. apply get_in_bounds, Hxy.
  - replace (x - coord + coord) with x by lia. apply get_in_bounds, Hxy.
Qed.

Lemma opposite_dire_steps_back_witness :
  __get_dire (mkGrid 4 6 (replicate 24 0) 0) (9 mod 4) (9 / 4) (__opposite_dire DOWN) 2
  = Ok (1 + 0 * 4) /\
  __opposite_dire (__opposite_dire DOWN) = DOWN.
Proof.
  apply (opposite_dire_steps_back (mkGrid 4 6 (replicate 24 0) 0) 1 0 DOWN 2 9).
  - constructor; simpl; try lia.
    + unfold INT_MAX. lia.
    + repeat (constructor; [unfold in_i64, I64_MIN, I64_MAX; lia|]). constructor.
    + unfold in_i64, I64_MIN, I64_MAX. lia.
  - unfold in_bounds. simpl. lia.
  - reflexivity.
Defined.

(** ** Helpers of the screen *)

(** [get_max] returns one of its arguments, and none of them is greater. *)
Theorem get_max_greatest : forall args x,
  In (get_max x args) (x :: args) /\
  Forall (fun y => y <= get_max x args) (x :: args).
Proof.
  induction args as [|x2 args IH]; intros x.
  - simpl. split; [left; reflexivity | repeat constructor; lia].
  - destruct (IH x2) as [Hin Hall]. cbn [get_max].
    destruct (x >? get_max x2 args) eqn:E.
    + split; [left; reflexivity|]. constructor; [lia|].
      eapply Forall_impl; [exact Hall|]. cbn beta. intros y Hy. lia.
    + split; [right; exact Hin|]. constructor; [lia | exact Hall].
Qed.

(** The dialog of [render_gameover] is two columns wider than the widest of
    the reason with its prefix of five columns, the 21 columns of the longest
    fixed line, and the score: it is never narrower than 23 columns. *)
Theorem gameover_width_spec why_width score_size :
  0 <= why_width <= INT_MAX - 7 -> 0 <= score_size <= INT_MAX - 2 ->
  gameover_width why_width score_size
  = Z.max (why_width + 5) (Z.max 21 score_size) + 2 /\
  23 <= gameover_width why_width score_size.
Proof.
  intros Hw Hs. unfold gameover_width. cbn [get_max].
  unfold INT_MAX in *.
  rewrite (wrap32_id (why_width + 5)) by (unfold in_int, INT_MIN, INT_MAX; lia).
  rewrite (wrap32_id score_size) by (unfold in_int, INT_MIN, INT_MAX; lia).
  rewrite wrap32_id;
    [| unfold in_int, INT_MIN, INT_MAX;
       destruct (21 >? score_size); destruct (why_width + 5 >? _); lia ].
  destruct (21 >? score_size) eqn:E1; destruct (why_width + 5 >? _) eqn:E2; lia.
Qed.

Lemma gameover_width_spec_witness :
  gameover_width 44 3 = Z.max (44 + 5) (Z.max 21 3) + 2 /\ 23 <= gameover_width 44 3.
Proof. apply (gameover_width_spec 44 3); unfold INT_MAX; lia. Defined.

Lemma CALC_CENTER_BEGIN_fits scr str :
  0 <= str <= scr -> scr <= INT_MAX -> CALC_CENTER_BEGIN scr str = (scr - str) / 2.
Proof.
  intros Hs Hm. unfold CALC_CENTER_BEGIN. unfold INT_MAX in Hm.
  rewrite (wrap32_id (scr - str)) by (unfold in_int, INT_MIN, INT_MAX; lia).
  rewrite Z.quot_div_nonneg by lia.
  apply wrap32_id. unfold in_int, INT_MIN, INT_MAX.
  pose proof (Z.div_pos (scr - str) 2). pose proof (Z.div_le_upper_bound (scr - str) 2 (scr - str)).
  lia.
Qed.

(** A box and a text both centred by [CALC_CENTER_BEGIN] on a window wide
    enough for the box: the box lies on the window, its left margin is the
    smaller one and the two differ by at most one column, and a text that is
    narrower than the box by [2 * m] columns or more lies inside the box, at
    least [m] columns away from either side of it.  (The dialogs: [wfill] for
    the box, [waddstrcenter] for the lines of text.) *)
Theorem centered_text_inside_box scr outer inner m :
  0 <= m -> 0 <= inner -> inner + 2 * m <= outer -> outer <= scr -> scr <= INT_MAX ->
  0 <= CALC_CENTER_BEGIN scr outer /\
  CALC_CENTER_BEGIN scr outer + outer <= scr /\
  0 <= (scr - outer - CALC_CENTER_BEGIN scr outer) - CALC_CENTER_BEGIN scr outer <= 1 /\
  CALC_CENTER_BEGIN scr outer + m <= CALC_CENTER_BEGIN scr inner /\
  CALC_CENTER_BEGIN scr inner + inner + m <= CALC_CENTER_BEGIN scr outer + outer.
Proof.
  intros Hm Hi Hio Hos Hmax.
  rewrite (CALC_CENTER_BEGIN_fits scr outer) by lia.
  rewrite (CALC_CENTER_BEGIN_fits scr inner) by lia.
  pose proof (Z.div_mod (scr - outer) 2 ltac:(lia)).
  pose proof (Z.mod_pos_bound (scr - outer) 2 ltac:(lia)).
  pose proof (Z.div_mod (scr - inner) 2 ltac:(lia)).
  pose proof (Z.mod_pos_bound (scr - inner) 2 ltac:(lia)).
  lia.
Qed.

Lemma centered_text_inside_box_witness :
  0 <= CALC_CENTER_BEGIN 80 23 /\
  CALC_CENTER_BEGIN 80 23 + 23 <= 80 /\
  0 <= (80 - 23 - CALC_CENTER_BEGIN 80 23) - CALC_CENTER_BEGIN 80 23 <= 1 /\
  CALC_CENTER_BEGIN 80 23 + 1 <= CALC_CENTER_BEGIN 80 21 /\
  CALC_CENTER_BEGIN 80 21 + 21 + 1 <= CALC_CENTER_BEGIN 80 23 + 23.
Proof. apply (centered_text_inside_box 80 23 21 1); unfold INT_MAX; lia. Defined.

(** When the text is wider than the window the division rounds toward zero:
    the column is not positive, and it is 0 when the text is one column too
    wide, so that the text is not centred on the window. *)
Theorem CALC_CENTER_BEGIN_too_wide scr str :
  0 <= scr -> scr < str -> str <= INT_MAX ->
  CALC_CENTER_BEGIN scr str <= 0 /\
  2 * CALC_CENTER_BEGIN scr str - 1 <= scr - str <= 2 * CALC_CENTER_BEGIN scr str /\
  (str = scr + 1 -> CALC_CENTER_BEGIN scr str = 0).
Proof.
  intros Hs Hlt Hmax. unfold CALC_CENTER_BEGIN. unfold INT_MAX in Hmax.
  rewrite (wrap32_id (scr - str)) by (unfold in_int, INT_MIN, INT_MAX; lia).
  assert (Hq : Z.quot (scr - str) 2 = - ((str - scr) / 2)).
  { replace (scr - str) with (- (str - scr)) by lia.
    rewrite Z.quot_opp_l by lia. rewrite Z.quot_div_nonneg by lia. reflexivity. }
  rewrite Hq.
  pose proof (Z.div_mod (str - scr) 2 ltac:(lia)).
  pose proof (Z.mod_pos_bound (str - scr) 2 ltac:(lia)).
  rewrite wrap32_id by (unfold in_int, INT_MIN, INT_MAX; lia).
  conjs; try lia.
Qed.

Lemma CALC_CENTER_BEGIN_too_wide_witness :
  CALC_CENTER_BEGIN 20 21 <= 0 /\
  2 * CALC_CENTER_BEGIN 20 21 - 1 <= 20 - 21 <= 2 * CALC_CENTER_BEGIN 20 21 /\
  (21 = 20 + 1 -> CALC_CENTER_BEGIN 20 21 = 0).
Proof. apply (CALC_CENTER_BEGIN_too_wide 20 21); unfold INT_MAX; lia. Defined.

Section StringWidthFacts.

Variable east_asian_width : Z -> UEastAsianWidth.
Variable AMBIGUOUS_AS_WIDE : bool.

Lemma unit_width_range c :
  1 <= unit_width east_asian_width AMBIGUOUS_AS_WIDE c <= 2.
Proof.
  unfold unit_width. destruct (east_asian_width c), AMBIGUOUS_AS_WIDE; lia.
Qed.

Lemma get_string_width_from str : forall acc,
  0 <= acc -> acc + 2 * Z.of_nat (length str) <= INT_MAX ->
  foldl (fun width c => wrap32 (width + unit_width east_asian_width AMBIGUOUS_AS_WIDE c))
        acc str
  = acc + get_string_width east_asian_width AMBIGUOUS_AS_WIDE str /\
  Z.of_nat (length str)
  <= get_string_width east_asian_width AMBIGUOUS_AS_WIDE str
  <= 2 * Z.of_nat (length str).
Proof.
  unfold get_string_width.
  induction str as [|c str IH]; intros acc Hacc Hmax; cbn [foldl length].
  - split; lia.
  - pose proof (unit_width_range c) as Hc.
    assert (Hlen : Z.of_nat (length (c :: str)) = 1 + Z.of_nat (length str))
      by (cbn [length]; lia).
    rewrite Hlen in Hmax. unfold INT_MAX in Hmax.
    rewrite (wrap32_id (acc + _)) by (unfold in_int, INT_MIN, INT_MAX; lia).
    rewrite (wrap32_id (0 + _)) by (unfold in_int, INT_MIN, INT_MAX; lia).
    destruct (IH (acc + unit_width east_asian_width AMBIGUOUS_AS_WIDE c))
      as [-> _]; [lia | unfold INT_MAX; lia |].
    destruct (IH (0 + unit_width east_asian_width AMBIGUOUS_AS_WIDE c))
      as [-> Hb]; [lia | unfold INT_MAX; lia |].
    split; lia.
Qed.

(** Whatever ICU's table says, every code unit of a string counts for one
    or two columns: the width lies between the length and twice the length,
    and the width of two strings put together is the sum of their widths. *)
Theorem get_string_width_bounds s1 s2 :
  2 * Z.of_nat (length (s1 ++ s2)) <= INT_MAX ->
  Z.of_nat (length s1)
  <= get_string_width east_asian_width AMBIGUOUS_AS_WIDE s1
  <= 2 * Z.of_nat (length s1) /\
  get_string_width east_asian_width AMBIGUOUS_AS_WIDE (s1 ++ s2)
  = get_string_width east_asian_width AMBIGUOUS_AS_WIDE s1
    + get_string_width east_asian_width AMBIGUOUS_AS_WIDE s2.
Proof.
  intros Hmax. rewrite length_app, Nat2Z.inj_add in Hmax.
  destruct (get_string_width_from s1 0) as [_ H1]; [lia | lia |].
  split; [exact H1|].
  unfold get_string_width at 1. rewrite foldl_app.
  fold (get_string_width east_asian_width AMBIGUOUS_AS_WIDE s1).
  destruct (get_string_width_from s2 (get_string_width east_asian_width AMBIGUOUS_AS_WIDE s1))
    as [-> _]; lia.
Qed.

End StringWidthFacts.

Lemma get_string_width_bounds_witness :
  Z.of_nat (length [87; 104; 121])
  <= get_string_width (fun c => if c <? 128 then U_EA_NARROW else U_EA_WIDE) false [87; 104; 121]
  <= 2 * Z.of_nat (length [87; 104; 121]) /\
  get_string_width (fun c => if c <? 128 then U_EA_NARROW else U_EA_WIDE) false
                   ([87; 104; 121] ++ [20998; 25968])
  = get_string_width (fun c => if c <? 128 then U_EA_NARROW else U_EA_WIDE) false [87; 104; 121]
    + get_string_width (fun c => if c <? 128 then U_EA_NARROW else U_EA_WIDE) false
                       [20998; 25968].
Proof.
  apply (get_string_width_bounds (fun c => if c <? 128 then U_EA_NARROW else U_EA_WIDE) false
           [87; 104; 121] [20998; 25968]).
  unfold INT_MAX. simpl. lia.
Defined.

Lemma flat_map_bind {A B : Type} (f : A -> list B) (l : list A) :
  flat_map f l = mbind f l.
Proof. induction l as [|x l IH]; simpl; [reflexivity | rewrite IH; reflexivity]. Qed.

(** [wfill] writes the string once on every cell of the rectangle spanned by
    the two corners and nowhere else, whichever two opposite corners are
    given and in whichever order. *)
Theorem wfill_rectangle {text : Type} (x1 y1 x2 y2 : Z) (str : text) :
  Z.max x1 x2 < INT_MAX -> Z.max y1 y2 < INT_MAX ->
  (forall c, In c (wfill x1 y1 x2 y2 str) <->
     exists x y, c = mvwaddstr y x str /\
                 Z.min x1 x2 <= x <= Z.max x1 x2 /\ Z.min y1 y2 <= y <= Z.max y1 y2) /\
  NoDup (wfill x1 y1 x2 y2 str) /\
  Z.of_nat (length (wfill x1 y1 x2 y2 str))
  = (Z.abs (x2 - x1) + 1) * (Z.abs (y2 - y1) + 1) /\
  wfill x2 y2 x1 y1 str = wfill x1 y1 x2 y2 str /\
  wfill x2 y1 x1 y2 str = wfill x1 y1 x2 y2 str.
Proof.
  intros _ _.
  assert (Hgen : forall xa xb ya yb, xa <= xb -> ya <= yb ->
            let l := flat_map (fun x => map (fun y => mvwaddstr y x str)
                                            (seqZ ya (yb - ya + 1)))
                              (seqZ xa (xb - xa + 1)) in
            (forall c, In c l <->
               exists x y, c = mvwaddstr y x str /\ xa <= x <= xb /\ ya <= y <= yb) /\
            NoDup l /\
            Z.of_nat (length l) = (xb - xa + 1) * (yb - ya + 1)).
  { intros xa xb ya yb Hx Hy l. subst l. conjs.
    - intros c. rewrite in_flat_map. split.
      + intros (x & Hxin & Hc). apply in_map_iff in Hc as (y & <- & Hyin).
        apply list_elem_of_In, elem_of_seqZ in Hxin.
        apply list_elem_of_In, elem_of_seqZ in Hyin.
        exists x, y. conjs; auto; lia.
      + intros (x & y & -> & Hxr & Hyr). exists x. split.
        * apply list_elem_of_In, elem_of_seqZ. lia.
        * apply in_map_iff. exists y. split; [reflexivity|].
          apply list_elem_of_In, elem_of_seqZ. lia.
    - rewrite flat_map_bind. apply NoDup_bind.
      + intros xp xq c _ _ Hp Hq.
        apply list_elem_of_In, in_map_iff in Hp as (yp & <- & _).
        apply list_elem_of_In, in_map_iff in Hq as (yq & Heq & _).
        congruence.
      + intros x _.
        assert (Hinj : Inj eq eq (fun y : Z => mvwaddstr y x str))
          by (intros ya' yb' Heq; congruence).
        apply (NoDup_fmap_2 _ _ (NoDup_seqZ _ _)).
      + apply NoDup_seqZ.
    - rewrite (flat_map_constant_length (c := Z.to_nat (yb - ya + 1))).
      + rewrite length_seqZ. nia.
      + intros x _. rewrite length_map, length_seqZ. reflexivity. }
  unfold wfill.
  destruct (Z.gtb_spec x1 x2) as [Hx | Hx], (Z.gtb_spec y1 y2) as [Hy | Hy];
    destruct (Z.gtb_spec x2 x1) as [Hx' | Hx'], (Z.gtb_spec y2 y1) as [Hy' | Hy'];
    try lia;
    repeat match goal with
           | H : ?a <= ?b, H' : ?b <= ?a |- _ =>
               assert (a = b) by lia; subst; clear H H'
           end.
  all: match goal with
       | |- context [flat_map _ (seqZ ?xa (?xb - ?xa + 1))] =>
           match goal with
           | |- context [map _ (seqZ ?ya (?yb - ?ya + 1))] =>
               destruct (Hgen xa xb ya yb ltac:(lia) ltac:(lia)) as (Hin & Hnd & Hlen)
           end
       end.
  all: conjs; auto; try (rewrite Hlen; lia).
  all: intros c; rewrite Hin; split; intros (x & y & Hc & Hxr & Hyr);
    exists x, y; conjs; auto; lia.
Qed.

Lemma wfill_rectangle_witness :
  (forall c, In c (wfill 5 2 3 1 tt) <->
     exists x y, c = mvwaddstr y x tt /\
                 Z.min 5 3 <= x <= Z.max 5 3 /\ Z.min 2 1 <= y <= Z.max 2 1) /\
  NoDup (wfill 5 2 3 1 tt) /\
  Z.of_nat (length (wfill 5 2 3 1 tt)) = (Z.abs (3 - 5) + 1) * (Z.abs (1 - 2) + 1) /\
  wfill 3 1 5 2 tt = wfill 5 2 3 1 tt /\
  wfill 3 2 5 1 tt = wfill 5 2 3 1 tt.
Proof. apply (wfill_rectangle 5 2 3 1 tt); unfold INT_MAX; lia. Defined.

(** ** The lose condition and the sum at concrete boards *)

Lemma is_fail_square_witness :
  exists b, is_fail (mkGrid 2 2 [2; 4; 4; 2] 0) = Ok b /\
            (b = true <-> ~ adjacent_equal (mkGrid 2 2 [2; 4; 4; 2] 0)).
Proof.
  apply (is_fail_square (mkGrid 2 2 [2; 4; 4; 2] 0)).
  - solve_wf.
  - reflexivity.
  - unfold no_empty_cell. simpl. repeat (constructor; [lia|]). constructor.
Defined.

Lemma is_fail_not_square_witness :
  is_fail (mkGrid 1 2 [2; 4] 0) = Fail OutOfRange.
Proof.
  apply (is_fail_not_square (mkGrid 1 2 [2; 4] 0)).
  - solve_wf.
  - unfold no_empty_cell. simpl. repeat (constructor; [lia|]). constructor.
  - intros (x & y & [H | H]); destruct H as ([Hx Hy] & [Hx' Hy'] & _ & He);
      simpl in Hx, Hy, Hx', Hy'; [lia|].
    assert (x = 0) by lia. assert (y = 0) by lia. subst. vm_compute in He. lia.
  - simpl. lia.
  - simpl. lia.
  - simpl. lia.
Defined.

Lemma only_merge_preserves_sum_mod_witness :
  exists g' ret motions,
    only_merge (mkGrid 2 1 [2 ^ 62; 2 ^ 62] 0) LEFT = Ok (g', ret, motions) /\
    cong64 (sum_cells g') (sum_cells (mkGrid 2 1 [2 ^ 62; 2 ^ 62] 0)).
Proof.
  apply (only_merge_preserves_sum_mod (mkGrid 2 1 [2 ^ 62; 2 ^ 62] 0) LEFT).
  solve_wf.
Defined.

(** ** The four directions are one sweep *)

Lemma for_list_app {S : Type} (body : Z -> S -> res S) l1 l2 s :
  for_list body (l1 ++ l2) s = do s' <- for_list body l1 s; for_list body l2 s'.
Proof.
  revert s. induction l1 as [|i l1 IH]; intros s; cbn [app for_list bind]; [reflexivity|].
  destruct (body i s); cbn [bind]; [apply IH | reflexivity].
Qed.

Lemma for_loop_succ {S : Type} (body : Z -> S -> res S) a s :
  0 <= a -> for_loop (a + 1) body s = do s' <- for_loop a body s; body a s'.
Proof.
  intros Ha. unfold for_loop. rewrite seqZ_app by lia. rewrite for_list_app.
  destruct (for_list body (seqZ 0 a) s) as [s'|e]; cbn [bind]; [|reflexivity].
  change (seqZ (0 + a) 1) with [0 + a]. cbn [for_list]. rewrite Z.add_0_l.
  destruct (body a s'); reflexivity.
Qed.

Section ByLines.

Variables (d1 : DIRECTION) (g1 : Grid) (d2 : DIRECTION) (g2 : Grid).
Hypothesis Hwf1 : wf g1.
Hypothesis Hwf2 : wf g2.
Hypothesis Hsame : same_lines d1 g1 d2 g2.

Lemma lines_step a s1 s2 :
  0 <= a < lines d1 g1 -> lines_rel d1 g1 d2 g2 s1 s2 ->
  exists s1' s2',
    for_loop (line_len d1 g1)
      (fun b s => sweep_cell d1 (line_x d1 g1 a b) (line_y d1 g1 a b) s) (clear_skip s1)
    = Ok s1' /\
    for_loop (line_len d2 g2)
      (fun b s => sweep_cell d2 (line_x d2 g2 a b) (line_y d2 g2 a b) s) (clear_skip s2)
    = Ok s2' /\
    lines_rel d1 g1 d2 g2 s1' s2'.
Proof.
  intros Ha (Hw1 & Hw2 & Hsh1 & Hsh2 & (HA & HB & Hcells) & Hsc & Hm).
  destruct Hsame as (HA0 & HB0 & _).
  destruct (line_shape d1 g1 (sw_grid s1) Hsh1) as (HA1 & HB1 & _ & _ & _ & Hon1).
  destruct (line_shape d2 g2 (sw_grid s2) Hsh2) as (HA2 & HB2 & _ & _ & _ & Hon2).
  assert (Hlen : 0 <= line_len d1 g1).
  { pose proof (wf_width g1 Hwf1). pose proof (wf_height g1 Hwf1).
    destruct d1; simpl; lia. }
  pose (l := fmap (lcell d1 (sw_grid s1) a) (seqZ 0 (line_len d1 (sw_grid s1)))).
  assert (Hl1 : line_is d1 (sw_grid s1) a l) by (apply line_is_cells; lia).
  assert (Hl2 : line_is d2 (sw_grid s2) a l).
  { destruct Hl1 as [Hlen1 Hl1]. split; [lia|].
    intros b Hb. rewrite <- Hl1 by lia. symmetry. apply Hcells. split; lia. }
  pose (st := mkLine l (new_score s1) false (have_motions s1)).
  destruct (line_sweep_from d1 g1 a (clear_skip s1) st Hsh1 Ha)
    as (s1' & Hs1' & (Hp1 & Hsc1 & _ & Hm1)).
  { unfold line_corr. cbn. conjs; auto. apply line_post_refl; assumption. }
  destruct (line_sweep_from d2 g2 a (clear_skip s2) st Hsh2 ltac:(lia))
    as (s2' & Hs2' & (Hp2 & Hsc2 & _ & Hm2)).
  { unfold line_corr. cbn. conjs; auto. apply line_post_refl; assumption. }
  exists s1', s2'. conjs; auto.
  cbn [sw_grid clear_skip] in Hp1, Hp2.
  destruct Hp1 as (Hw1' & Hsh1' & Hl1' & Hfr1).
  destruct Hp2 as (Hw2' & Hsh2' & Hl2' & Hfr2).
  destruct (line_shape d1 (sw_grid s1) (sw_grid s1') Hsh1') as (HA1' & HB1' & _ & _ & _ & Hon1').
  destruct (line_shape d2 (sw_grid s2) (sw_grid s2') Hsh2') as (HA2' & HB2' & _ & _ & _ & Hon2').
  unfold lines_rel, same_lines. conjs; auto; try lia.
  - eapply same_shape_trans; eassumption.
  - eapply same_shape_trans; eassumption.
  - intros a' b' Hon. apply Hon1' in Hon.
    assert (Hon' : on_line d2 (sw_grid s2) a' b') by (destruct Hon; split; lia).
    destruct (Z.eq_dec a' a) as [-> | Hne].
    + rewrite (proj2 Hl1' b') by (destruct Hon; lia).
      rewrite (proj2 Hl2' b') by (destruct Hon'; lia).
      rewrite HB0. reflexivity.
    + rewrite (Hfr1 a' b' Hon Hne), (Hfr2 a' b' Hon' Hne). apply Hcells. exact Hon.
  - rewrite Hsc1, Hsc2, HB0. reflexivity.
  - rewrite Hm1, Hm2, HB0. reflexivity.
Qed.

Lemma sweep_by_lines :
  exists s1 s2,
    only_merge_sweep g1 d1 = Ok s1 /\ only_merge_sweep g2 d2 = Ok s2 /\
    lines_rel d1 g1 d2 g2 s1 s2.
Proof.
  rewrite !only_merge_sweep_lines.
  assert (HA : 0 <= lines d1 g1).
  { pose proof (wf_width g1 Hwf1). pose proof (wf_height g1 Hwf1).
    destruct d1; simpl; lia. }
  pose (body2 := fun a s =>
          for_loop (line_len d2 g2)
            (fun b s => sweep_cell d2 (line_x d2 g2 a b) (line_y d2 g2 a b) s)
            (clear_skip s)).
  destruct (for_loop_inv
              (fun a s1 => exists s2,
                 for_loop a body2 (mkSweep g2 0 false false) = Ok s2 /\
                 lines_rel d1 g1 d2 g2 s1 s2)
              (lines d1 g1)
              (fun a s =>
                 for_loop (line_len d1 g1)
                   (fun b s => sweep_cell d1 (line_x d1 g1 a b) (line_y d1 g1 a b) s)
                   (clear_skip s))
              (mkSweep g1 0 false false) HA)
    as (s1 & Hs1 & s2 & Hs2 & HR).
  - exists (mkSweep g2 0 false false). split; [reflexivity|].
    unfold lines_rel. cbn. conjs; auto using same_shape_refl.
  - intros a s1 Ha (s2 & Hs2 & HR).
    destruct (lines_step a s1 s2 Ha HR) as (s1' & s2' & H1 & H2 & HR').
    exists s1'. split; [exact H1|]. exists s2'. split; [|exact HR'].
    rewrite for_loop_succ by lia. rewrite Hs2. cbn [bind]. exact H2.
  - exists s1, s2. conjs; auto.
    destruct Hsame as (<- & _). exact Hs2.
Qed.

(** [only_merge] is one and the same sweep in its four directions: if two
    grids, each seen along its direction with the cell the tiles move toward
    first, show the same lines, then the two calls return the same value,
    report the same motion and leave grids that again show the same lines.
    (Moving RIGHT on the mirror image of a board is the mirror image of
    moving LEFT, and likewise for a board turned by a quarter.) *)
Theorem only_merge_by_lines :
  exists g1' g2' ret motions,
    only_merge g1 d1 = Ok (g1', ret, motions) /\
    only_merge g2 d2 = Ok (g2', ret, motions) /\
    wf g1' /\ wf g2' /\ same_shape g1 g1' /\ same_shape g2 g2' /\
    same_lines d1 g1' d2 g2'.
Proof.
  destruct sweep_by_lines as (s1 & s2 & H1 & H2 & (Hw1 & Hw2 & Hsh1 & Hsh2 & Hl & Hsc & Hm)).
  unfold only_merge. rewrite H1, H2. cbn [bind]. rewrite Hsc, Hm.
  do 4 eexists. conjs; try reflexivity; auto.
Qed.

End ByLines.

Lemma only_merge_by_lines_witness :
  exists g1' g2' ret motions,
    only_merge (mkGrid 2 2 [2; 2; 0; 4] 0) LEFT = Ok (g1', ret, motions) /\
    only_merge (mkGrid 2 2 [2; 2; 4; 0] 0) RIGHT = Ok (g2', ret, motions) /\
    wf g1' /\ wf g2' /\
    same_shape (mkGrid 2 2 [2; 2; 0; 4] 0) g1' /\
    same_shape (mkGrid 2 2 [2; 2; 4; 0] 0) g2' /\
    same_lines LEFT g1' RIGHT g2'.
Proof.
  apply (only_merge_by_lines LEFT (mkGrid 2 2 [2; 2; 0; 4] 0)
                             RIGHT (mkGrid 2 2 [2; 2; 4; 0] 0)).
  - solve_wf.
  - solve_wf.
  - unfold same_lines. simpl. conjs; try reflexivity.
    intros a b [Ha Hb]. simpl in Ha, Hb.
    assert (Ha' : a = 0 \/ a = 1) by lia.
    assert (Hb' : b = 0 \/ b = 1) by lia.
    destruct Ha' as [-> | ->]; destruct Hb' as [-> | ->]; reflexivity.
Defined.

(** ** No tile is doubled twice *)

Lemma from_tiles_double l0 c : from_tiles l0 c -> tile_or_double l0 c.
Proof.
  intros [-> | Hin]; [left; reflexivity|].
  destruct (Z.eq_dec c 0) as [-> | Hc]; [left; reflexivity|].
  right. exists c. auto.
Qed.

Lemma tile_or_double_incl l0 l1 c :
  (forall c0, In c0 l0 -> In c0 l1) -> tile_or_double l0 c -> tile_or_double l1 c.
Proof.
  intros Hincl [-> | (c0 & Hin & Hnz & Hc)]; [left; reflexivity|].
  right. exists c0. auto.
Qed.

Lemma lget_Forall (P : Z -> Prop) l x : Forall P l -> P 0 -> P (lget l x).
Proof.
  intros Hall H0. unfold lget. destruct (l !! Z.to_nat x) as [v|] eqn:E; simpl; [|exact H0].
  exact (Forall_lookup_1 _ _ _ _ Hall E).
Qed.

Lemma stop1_tiles (P : Z -> Prop) l b p :
  P 0 -> Forall P l ->
  length (fst (stop1 l b (lget l b) p)) = length l /\
  Forall P (fst (stop1 l b (lget l b) p)) /\
  snd (stop1 l b (lget l b) p) <= 0.
Proof.
  intros H0 Hall. unfold stop1. destruct (b - p >? 0); cbn [fst snd].
  - rewrite !length_lset. conjs; auto; try lia.
    unfold lset. apply Forall_insert; [|exact H0].
    apply Forall_insert; [exact Hall | apply lget_Forall; assumption].
  - conjs; auto; lia.
Qed.

Section LineTiles.

Variable l0 : list Z.
Hypothesis Hsmall : Forall (fun c => 0 <= c < 2 ^ 30) l0.

Lemma scan1_tiles l b skip t :
  Forall (tile_or_double l0) l -> (skip = false -> Forall (from_tiles l0) l) ->
  length (fst (scan1 l b (lget l b) skip t)) = length l /\
  Forall (tile_or_double l0) (fst (scan1 l b (lget l b) skip t)) /\
  ((if snd (scan1 l b (lget l b) skip t) >? 0 then true else skip) = false ->
   Forall (from_tiles l0) (fst (scan1 l b (lget l b) skip t))).
Proof.
  intros H2 H1.
  assert (Hstop : forall p,
            length (fst (stop1 l b (lget l b) p)) = length l /\
            Forall (tile_or_double l0) (fst (stop1 l b (lget l b) p)) /\
            ((if snd (stop1 l b (lget l b) p) >? 0 then true else skip) = false ->
             Forall (from_tiles l0) (fst (stop1 l b (lget l b) p)))).
  { intros p.
    destruct (stop1_tiles (tile_or_double l0) l b p (or_introl eq_refl) H2)
      as (Hlen & Hall & Hr).
    conjs; auto.
    replace (snd (stop1 l b (lget l b) p) >? 0) with false by lia.
    intros Hsk.
    apply (stop1_tiles (from_tiles l0) l b p (or_introl eq_refl) (H1 Hsk)). }
  induction t as [|t IH]; cbn [scan1]; [apply Hstop|].
  destruct (lget l (Z.of_nat t) =? 0) eqn:Etv; cbn [negb]; [exact IH|].
  destruct skip; [apply Hstop|].
  destruct (lget l (Z.of_nat t) =? lget l b) eqn:Ecv; [|apply Hstop].
  cbn [fst snd].
  assert (Htv : In (lget l (Z.of_nat t)) l0).
  { destruct (lget_Forall (from_tiles l0) l (Z.of_nat t) (H1 eq_refl) (or_introl eq_refl))
      as [Hz | Hin]; [lia | exact Hin]. }
  apply list_elem_of_In in Htv.
  pose proof (proj1 (Forall_forall _ _) Hsmall _ Htv) as Hb. cbn beta in Hb.
  apply list_elem_of_In in Htv.
  rewrite wrap64_id by (unfold in_i64, I64_MIN, I64_MAX; lia).
  rewrite wrap32_id by (unfold in_int, INT_MIN, INT_MAX; lia).
  rewrite !length_lset. conjs; auto.
  - unfold lset. apply Forall_insert; [|left; reflexivity].
    apply Forall_insert; [exact H2|].
    right. exists (lget l (Z.of_nat t)). conjs; auto; lia.
  - replace (lget l (Z.of_nat t) * 2 >? 0) with true by lia. discriminate.
Qed.

Lemma slide1_tiles l b skip :
  Forall (tile_or_double l0) l -> (skip = false -> Forall (from_tiles l0) l) ->
  length (fst (slide1 l b skip)) = length l /\
  Forall (tile_or_double l0) (fst (slide1 l b skip)) /\
  ((if snd (slide1 l b skip) >? 0 then true else skip) = false ->
   Forall (from_tiles l0) (fst (slide1 l b skip))).
Proof.
  intros H2 H1. unfold slide1. destruct (lget l b =? 0).
  - cbn [fst snd]. conjs; auto.
  - apply scan1_tiles; assumption.
Qed.

Lemma steps1_tiles n :
  0 <= n -> forall st,
  Forall (tile_or_double l0) (ls_cells st) ->
  (ls_skip st = false -> Forall (from_tiles l0) (ls_cells st)) ->
  length (ls_cells (steps1 n st)) = length (ls_cells st) /\
  Forall (tile_or_double l0) (ls_cells (steps1 n st)) /\
  (ls_skip (steps1 n st) = false -> Forall (from_tiles l0) (ls_cells (steps1 n st))).
Proof.
  intros Hn st H2 H1. revert n Hn.
  apply (natlike_ind (fun n =>
           length (ls_cells (steps1 n st)) = length (ls_cells st) /\
           Forall (tile_or_double l0) (ls_cells (steps1 n st)) /\
           (ls_skip (steps1 n st) = false ->
            Forall (from_tiles l0) (ls_cells (steps1 n st))))).
  - unfold steps1. cbn. auto.
  - intros n Hn (Hlen & IH2 & IH1). unfold Z.succ. rewrite steps1_succ by lia.
    unfold step1.
    destruct (slide1_tiles (ls_cells (steps1 n st)) n (ls_skip (steps1 n st)) IH2 IH1)
      as (Hlen' & H2' & H1').
    destruct (slide1 (ls_cells (steps1 n st)) n (ls_skip (steps1 n st))) as [l' r].
    cbn [fst snd ls_cells ls_skip] in *. conjs; auto. lia.
Qed.

End LineTiles.

(** Every cell of the buffer lies on a line. *)
Lemma cell_on_some_line d g i c :
  wf g -> mGrid g !! i = Some c ->
  exists a b, on_line d g a b /\ lcell d g a b = c.
Proof.
  intros Hwf Hi.
  pose proof (lookup_lt_Some _ _ _ Hi) as Hlt.
  pose proof (wf_len g Hwf) as Hlen.
  pose proof (wf_width g Hwf) as Hw. pose proof (wf_height g Hwf) as Hh.
  assert (Hw' : 0 < mWidth g) by nia.
  pose proof (Z.mod_pos_bound (Z.of_nat i) (mWidth g) Hw') as Hx.
  pose proof (Z.div_mod (Z.of_nat i) (mWidth g) ltac:(lia)) as Hdm.
  assert (Hy : 0 <= Z.of_nat i / mWidth g < mHeight g).
  { split; [apply Z.div_pos; lia|]. apply Z.div_lt_upper_bound; nia. }
  assert (Hc : cell g (Z.of_nat i mod mWidth g) (Z.of_nat i / mWidth g) = c).
  { unfold cell.
    replace (Z.of_nat i mod mWidth g + Z.of_nat i / mWidth g * mWidth g)
      with (Z.of_nat i) by lia.
    rewrite Nat2Z.id, Hi. reflexivity. }
  unfold on_line, lcell.
  destruct d; simpl.
  - exists (Z.of_nat i mod mWidth g), (Z.of_nat i / mWidth g). conjs; auto; lia.
  - exists (Z.of_nat i mod mWidth g), (mHeight g - 1 - Z.of_nat i / mWidth g).
    conjs; try lia.
    replace (mHeight g - 1 - (mHeight g - 1 - Z.of_nat i / mWidth g))
      with (Z.of_nat i / mWidth g) by lia. exact Hc.
  - exists (Z.of_nat i / mWidth g), (mWidth g - 1 - Z.of_nat i mod mWidth g).
    conjs; try lia.
    replace (mWidth g - 1 - (mWidth g - 1 - Z.of_nat i mod mWidth g))
      with (Z.of_nat i mod mWidth g) by lia. exact Hc.
  - exists (Z.of_nat i / mWidth g), (Z.of_nat i mod mWidth g). conjs; auto; lia.
Qed.

Lemma doubles_step d g a s :
  wf g -> small_tiles g -> 0 <= a < lines d g -> doubles_inv d g a s ->
  exists s',
    for_loop (line_len d g)
      (fun b s => sweep_cell d (line_x d g a b) (line_y d g a b) s) (clear_skip s)
    = Ok s' /\
    doubles_inv d g (a + 1) s'.
Proof.
  intros Hwf Hsm Ha (Hwfs & Hsh & Hfr & Hall).
  destruct (line_shape d g (sw_grid s) Hsh) as (HA & HB & _ & _ & _ & Hon).
  assert (Hlen : 0 <= line_len d g).
  { pose proof (wf_width g Hwf). pose proof (wf_height g Hwf). destruct d; simpl; lia. }
  pose (l := fmap (lcell d (sw_grid s) a) (seqZ 0 (line_len d (sw_grid s)))).
  assert (Hl : line_is d (sw_grid s) a l) by (apply line_is_cells; lia).
  assert (Hin : forall c, In c l -> In c (mGrid g)).
  { intros c Hc. apply list_elem_of_In, list_elem_of_fmap in Hc as (b & -> & Hb).
    apply elem_of_seqZ in Hb.
    rewrite Hfr by (try split; lia). apply lcell_In; [exact Hwf | split; lia]. }
  assert (Hsml : Forall (fun c => 0 <= c < 2 ^ 30) l).
  { apply Forall_forall. intros c Hc. apply list_elem_of_In, Hin, list_elem_of_In in Hc.
    exact (proj1 (Forall_forall _ _) Hsm c Hc). }
  pose (st := mkLine l (new_score s) false (have_motions s)).
  destruct (line_sweep_from d g a (clear_skip s) st Hsh Ha)
    as (s' & Hs' & ((Hwf' & Hsh' & Hl' & Hfr') & _)).
  { unfold line_corr. cbn. conjs; auto. apply line_post_refl; assumption. }
  cbn [sw_grid clear_skip] in Hwf', Hsh', Hl', Hfr'.
  exists s'. split; [exact Hs'|].
  destruct (steps1_tiles l Hsml (line_len d g) Hlen st) as (_ & Htiles & _).
  { cbn. apply Forall_forall. intros c Hc. apply from_tiles_double. right.
    apply list_elem_of_In. exact Hc. }
  { intros _. cbn. apply Forall_forall. intros c Hc. right.
    apply list_elem_of_In. exact Hc. }
  destruct (line_shape d (sw_grid s) (sw_grid s') Hsh') as (_ & HB' & _).
  unfold doubles_inv. conjs; auto.
  - eapply same_shape_trans; eassumption.
  - intros a' b' Hon' Hge. rewrite Hfr' by (try apply Hon; auto; lia).
    apply Hfr; [exact Hon' | lia].
  - intros a' b' Hon'. destruct (Z.eq_dec a' a) as [-> | Hne].
    + rewrite (proj2 Hl' b') by (destruct Hon'; lia).
      apply (tile_or_double_incl l); [exact Hin|].
      apply lget_Forall; [exact Htiles | left; reflexivity].
    + rewrite Hfr' by (try apply Hon; auto). apply Hall. exact Hon'.
Qed.

Lemma only_merge_sweep_tiles g d :
  wf g -> small_tiles g ->
  exists s,
    only_merge_sweep g d = Ok s /\ wf (sw_grid s) /\ same_shape g (sw_grid s) /\
    Forall (tile_or_double (mGrid g)) (mGrid (sw_grid s)).
Proof.
  intros Hwf Hsm. rewrite only_merge_sweep_lines.
  assert (HA : 0 <= lines d g).
  { pose proof (wf_width g Hwf). pose proof (wf_height g Hwf). destruct d; simpl; lia. }
  destruct (for_loop_inv (doubles_inv d g) (lines d g)
              (fun a s =>
                 for_loop (line_len d g)
                   (fun b s => sweep_cell d (line_x d g a b) (line_y d g a b) s)
                   (clear_skip s))
              (mkSweep g 0 false false) HA)
    as (s & Hs & Hwfs & Hsh & _ & Hall).
  - unfold doubles_inv. cbn. conjs; auto using same_shape_refl.
    intros a' b' Hon. apply from_tiles_double. right. apply lcell_In; assumption.
  - intros a s Ha HI. apply doubles_step; assumption.
  - exists s. conjs; auto.
    apply Forall_lookup. intros i c Hi.
    destruct (cell_on_some_line d (sw_grid s) i c Hwfs Hi) as (a & b & Hon & <-).
    apply Hall. apply (proj2 (proj2 (proj2 (proj2 (proj2 (line_shape d g _ Hsh)))))).
    exact Hon.
Qed.

(** On a board with small tiles no tile is doubled twice in one move: in
    every direction, every line of the board [only_merge] leaves holds,
    packed toward the edge and followed by empty cells, tiles that come from
    the tiles of that line by keeping a tile or by replacing two equal
    neighbours by one of twice the value.  No tile is made of more than two
    of the tiles the line held: [2,2,4] may become [4,4], never [8]. *)
Theorem only_merge_doubles_once g d :
  wf g -> small_tiles g ->
  exists g' ret motions,
    only_merge g d = Ok (g', ret, motions) /\
    forall a, 0 <= a < lines d g ->
      exists new,
        merged_once (tiles_of (line_cells d g a)) new /\
        line_is d g' a
          (new ++ replicate (length (line_cells d g a) - length new) 0).
Proof.
  intros Hwf Hsm.
  destruct (only_merge_lines_result g d Hwf Hsm)
    as (g' & ret & motions & Hm & _ & _ & Hlines).
  exists g', ret, motions. split; [exact Hm|].
  intros a Ha. exists (merge_first_pair (tiles_of (line_cells d g a))).
  split; [apply merge_first_pair_once | exact (Hlines a Ha)].
Qed.

Lemma only_merge_doubles_once_witness :
  exists g' ret motions,
    only_merge (mkGrid 4 1 [2; 2; 4; 0] 0) LEFT = Ok (g', ret, motions) /\
    forall a, 0 <= a < lines LEFT (mkGrid 4 1 [2; 2; 4; 0] 0) ->
      exists new,
        merged_once (tiles_of (line_cells LEFT (mkGrid 4 1 [2; 2; 4; 0] 0) a)) new /\
        line_is LEFT g' a
          (new ++ replicate
                    (length (line_cells LEFT (mkGrid 4 1 [2; 2; 4; 0] 0) a) - length new)
                    0).
Proof.
  apply (only_merge_doubles_once (mkGrid 4 1 [2; 2; 4; 0] 0) LEFT).
  - solve_wf.
  - unfold small_tiles. simpl. repeat (constructor; [lia|]). constructor.
Defined.

(** Two doublings are not one merge. *)
Lemma merged_once_not_twice : ~ merged_once [2; 2; 4] [8].
Proof.
  intros H. inversion H.
Qed.

(** ** What a move keeps *)

Lemma labs_small l :
  Forall (fun c => 0 <= c < 2 ^ 30) l -> labs l <= 2 ^ 30 * Z.of_nat (length l).
Proof.
  induction 1 as [|c l Hc _ IH]; cbn [labs foldr length]; [lia|].
  fold (labs l). lia.
Qed.

(** [merge] on a board with small tiles, with all that the sweep keeps. *)
Lemma merge_keeps g d :
  wf g -> small_tiles g ->
  exists g1 inc valid,
    merge g d = Ok (g1, inc, valid) /\ wf g1 /\
    mWidth g1 = mWidth g /\ mHeight g1 = mHeight g /\
    Forall (tile_or_double (mGrid g)) (mGrid g1) /\
    sum_cells g1 = sum_cells g /\ nonzero_cells g1 <= nonzero_cells g /\
    (valid = false -> g1 = g).
Proof.
  intros Hwf Hsm.
  destruct (only_merge_sweep_tiles g d Hwf Hsm) as (s & Hs & Hwfs & (Hw & Hh & _) & Htiles).
  destruct (only_merge_sweep_spec g d Hwf) as (s1 & Hs1 & _ & _ & _ & _ & Hsum).
  destruct (only_merge_sweep_motion g d Hwf) as (s2 & Hs2 & _ & _ & Hcnt & _ & Hblk).
  rewrite Hs in Hs1, Hs2. injection Hs1 as <-. injection Hs2 as <-.
  assert (Habs : sum_abs g <= I64_MAX).
  { unfold sum_abs. pose proof (labs_small (mGrid g) Hsm) as Hl.
    rewrite (wf_len g Hwf) in Hl. pose proof (wf_area g Hwf) as Ha.
    unfold INT_MAX in Ha. unfold I64_MAX. lia. }
  destruct (Hsum Habs) as [Hsum' _].
  unfold merge, only_merge. rewrite Hs. cbn [bind].
  do 3 eexists. split; [reflexivity|].
  destruct (_ >? 0) eqn:E; cbn [mGrid set_score mWidth mHeight]; conjs; auto.
  - destruct Hwfs. constructor; auto. cbn. apply wrap64_range.
  - intros Hm. rewrite (Hblk Hsm Hm) in E. cbn in E. discriminate E.
  - intros Hm. rewrite (Hblk Hsm Hm). reflexivity.
Qed.

Section MoveFacts.

Variable engine : Type.
Variable uniform_int : Z -> Z -> engine -> Z * engine.

Hypothesis uniform_int_range :
  forall lo hi rng, lo <= hi -> lo <= fst (uniform_int lo hi rng) <= hi.

(** A move after which the loop goes on: the board after [merge], and on it
    at most one new tile. *)
Lemma render_game_move_continue fuel d g st g2 st2 :
  wf g -> small_tiles g ->
  pos_dist st = None \/ pos_dist st = Some (0, mWidth g * mHeight g - 1) ->
  render_game_move engine uniform_int fuel d g st = Ok (Continue g2 st2) ->
  exists g1,
    Forall (tile_or_double (mGrid g)) (mGrid g1) /\
    sum_cells g1 = sum_cells g /\ nonzero_cells g1 <= nonzero_cells g /\
    mWidth g1 = mWidth g /\ mHeight g1 = mHeight g /\
    (g2 = g1 \/ exists i v, In v tile_values /\ placed_on g1 i v g2).
Proof.
  intros Hwf Hsm Hpd.
  destruct (merge_keeps g d Hwf Hsm)
    as (g1 & inc & valid & Hm & Hwf1 & Hw1 & Hh1 & Htiles & Hsum & Hcnt & _).
  unfold render_game_move. rewrite Hm. cbn [bind].
  intros H. exists g1. conjs; auto.
  destruct valid; [|injection H as <- <-; left; reflexivity].
  rewrite <- Hw1, <- Hh1 in Hpd.
  destruct (generate_randomly_cases engine uniform_int uniform_int_range fuel g1 st Hwf1 Hpd)
    as [Hg | [(_ & st' & Hg) | (_ & i & v & g' & st' & Hg & Hv & Hpl)]];
    rewrite Hg in H; cbn [bind] in H; [discriminate H | |].
  - destruct (is_fail g1) as [[|]|]; cbn [bind] in H; try discriminate H.
    injection H as <- <-. left. reflexivity.
  - destruct (is_fail g') as [[|]|]; cbn [bind] in H; try discriminate H.
    injection H as <- <-. right. exists i, v. auto.
Qed.

(** Tiles stay powers of two: if every tile of a board with small tiles is a
    power of two, so is every tile of the board the loop goes on with after a
    move. *)
Theorem render_game_move_powers_of_two fuel d g st g2 st2 :
  wf g -> small_tiles g ->
  Forall (fun c => c = 0 \/ power_of_two c) (mGrid g) ->
  pos_dist st = None \/ pos_dist st = Some (0, mWidth g * mHeight g - 1) ->
  render_game_move engine uniform_int fuel d g st = Ok (Continue g2 st2) ->
  Forall (fun c => c = 0 \/ power_of_two c) (mGrid g2).
Proof.
  intros Hwf Hsm Hpow Hpd H.
  destruct (render_game_move_continue fuel d g st g2 st2 Hwf Hsm Hpd H)
    as (g1 & Htiles & _ & _ & _ & _ & Hg2).
  assert (H1 : Forall (fun c => c = 0 \/ power_of_two c) (mGrid g1)).
  { eapply Forall_impl; [exact Htiles|]. cbn beta.
    intros c [-> | (c0 & Hin & Hnz & Hc)]; [left; reflexivity|].
    apply list_elem_of_In in Hin.
    destruct (proj1 (Forall_forall _ _) Hpow c0 Hin) as [-> | (k & Hk & ->)]; [lia|].
    right. destruct Hc as [-> | ->].
    - exists k. auto.
    - exists (k + 1). split; [lia|]. rewrite Z.pow_add_r by lia. lia. }
  destruct Hg2 as [-> | (i & v & Hv & _ & ->)]; [exact H1|].
  cbn [mGrid set_cells]. apply Forall_insert; [exact H1|]. right.
  unfold tile_values in Hv. simpl in Hv.
  destruct Hv as [<- | [<- | [<- | [<- | []]]]];
    [exists 1 | exists 2 | exists 3 | exists 4]; split; try lia; reflexivity.
Qed.

(** A move adds to the board what it spawns and nothing else: after a move
    on a board with small tiles the sum of the cells is the sum before, or
    the sum before plus the one tile of 2, 4, 8 or 16 that was placed; the
    number of tiles grows by one at most; the dimensions stay. *)
Theorem render_game_move_sum fuel d g st g2 st2 :
  wf g -> small_tiles g ->
  pos_dist st = None \/ pos_dist st = Some (0, mWidth g * mHeight g - 1) ->
  render_game_move engine uniform_int fuel d g st = Ok (Continue g2 st2) ->
  (sum_cells g2 = sum_cells g \/
   exists v, In v tile_values /\ sum_cells g2 = sum_cells g + v) /\
  nonzero_cells g2 <= nonzero_cells g + 1 /\
  mWidth g2 = mWidth g /\ mHeight g2 = mHeight g.
Proof.
  intros Hwf Hsm Hpd H.
  destruct (render_game_move_continue fuel d g st g2 st2 Hwf Hsm Hpd H)
    as (g1 & _ & Hsum & Hcnt & Hw & Hh & Hg2).
  destruct Hg2 as [-> | (i & v & Hv & H0 & ->)]; [conjs; auto; lia|].
  unfold sum_cells, nonzero_cells in *. cbn [mGrid set_cells mWidth mHeight].
  rewrite (lsum_insert _ _ 0 v H0), (count_nonzero_insert _ _ 0 v H0).
  change (0 =? 0) with true. conjs; auto.
  - right. exists v. split; [exact Hv | lia].
  - destruct (v =? 0); lia.
Qed.

End MoveFacts.

Lemma render_game_move_powers_of_two_witness :
  Forall (fun c => c = 0 \/ power_of_two c) (mGrid (mkGrid 2 2 [4; 2; 2; 0] 0)).
Proof.
  apply (render_game_move_powers_of_two (list Z) scripted_uniform_int
           scripted_uniform_int_range 5 LEFT
           (mkGrid 2 2 [0; 4; 2; 0] 0) (mkStatics [1; 1; 3] None)
           (mkGrid 2 2 [4; 2; 2; 0] 0) (mkStatics [3] (Some (0, 3)))).
  - solve_wf.
  - unfold small_tiles. simpl. repeat (constructor; [lia|]). constructor.
  - simpl. apply Forall_cons_2; [left; reflexivity|].
    apply Forall_cons_2; [right; exists 2; split; [lia | reflexivity]|].
    apply Forall_cons_2; [right; exists 1; split; [lia | reflexivity]|].
    apply Forall_cons_2; [left; reflexivity | apply Forall_nil_2].
  - left. reflexivity.
  - vm_compute. reflexivity.
Defined.

Lemma render_game_move_sum_witness :
  (sum_cells (mkGrid 2 2 [4; 2; 2; 0] 0) = sum_cells (mkGrid 2 2 [0; 4; 2; 0] 0) \/
   exists v, In v tile_values /\
     sum_cells (mkGrid 2 2 [4; 2; 2; 0] 0) = sum_cells (mkGrid 2 2 [0; 4; 2; 0] 0) + v) /\
  nonzero_cells (mkGrid 2 2 [4; 2; 2; 0] 0)
  <= nonzero_cells (mkGrid 2 2 [0; 4; 2; 0] 0) + 1 /\
  mWidth (mkGrid 2 2 [4; 2; 2; 0] 0) = mWidth (mkGrid 2 2 [0; 4; 2; 0] 0) /\
  mHeight (mkGrid 2 2 [4; 2; 2; 0] 0) = mHeight (mkGrid 2 2 [0; 4; 2; 0] 0).
Proof.
  apply (render_game_move_sum (list Z) scripted_uniform_int
           scripted_uniform_int_range 5 LEFT
           (mkGrid 2 2 [0; 4; 2; 0] 0) (mkStatics [1; 1; 3] None)
           (mkGrid 2 2 [4; 2; 2; 0] 0) (mkStatics [3] (Some (0, 3)))).
  - solve_wf.
  - unfold small_tiles. simpl. repeat (constructor; [lia|]). constructor.
  - left. reflexivity.
  - vm_compute. reflexivity.
Defined.

(** ** Drawing the grid *)

Section DrawFacts.

Variable to_string : Z -> string.
Variable config_size : Z.
Variable config_fix_rect : bool.

Hypothesis Hsize : 0 < config_size.

Lemma shift_succ x :
  0 <= x ->
  xcoord_before config_size config_fix_rect (x + 1)
  = if Z.rem x (config_size + 1) =? 0
    then xcoord_before config_size config_fix_rect x
    else if config_fix_rect
         then xcoord_before config_size config_fix_rect x + 1
         else xcoord_before config_size config_fix_rect x.
Proof.
  intros Hx. unfold xcoord_before. rewrite Z.rem_mod_nonneg by lia.
  destruct config_fix_rect; [|destruct (_ =? 0); reflexivity].
  pose proof (Z.div_mod x (config_size + 1) ltac:(lia)) as Hdm.
  pose proof (Z.mod_pos_bound x (config_size + 1) ltac:(lia)) as Hr.
  remember (x / (config_size + 1)) as q eqn:Hq.
  remember (x mod (config_size + 1)) as r eqn:Hr'.
  assert (H1 : (x + 1 + config_size) / (config_size + 1) = q + 1).
  { symmetry. apply (Z.div_unique_pos _ _ _ r); lia. }
  rewrite H1.
  destruct (Z.eqb_spec r 0) as [Hz | Hnz].
  - assert (H2 : (x + config_size) / (config_size + 1) = q).
    { symmetry. apply (Z.div_unique_pos _ _ _ config_size); lia. }
    lia.
  - assert (H2 : (x + config_size) / (config_size + 1) = q + 1).
    { symmetry. apply (Z.div_unique_pos _ _ _ (r - 1)); lia. }
    lia.
Qed.

Lemma row_body_step width height gx gy y xcoord calls x :
  exists str,
    border_row_step config_size config_fix_rect width height gx gy y (xcoord, calls) x
    = (if (x =? 0) || (x =? width - 1) || (Z.rem x (config_size + 1) =? 0) then xcoord
       else if config_fix_rect then xcoord + 1 else xcoord,
       calls ++ [mvwaddstr (gy + y) (gx + x + xcoord) str]).
Proof.
  unfold border_row_step, border_piece.
  destruct (y =? 0); [|destruct (y =? height - 1); [|destruct (Z.rem y _ =? 0)]];
    destruct (x =? 0); cbn [orb]; try (eexists; reflexivity);
    destruct (x =? width - 1); cbn [orb]; try (eexists; reflexivity);
    destruct (Z.rem x _ =? 0); try (eexists; reflexivity);
    destruct config_fix_rect; eexists; reflexivity.
Qed.

Lemma row_fold_appends width height gx gy y l : forall st,
  exists extra,
    snd (foldl (border_row_step config_size config_fix_rect width height gx gy y) st l)
    = snd st ++ extra /\
    length extra = length l.
Proof.
  induction l as [|x l IH]; intros [xcoord calls]; cbn [foldl].
  - exists []. rewrite app_nil_r. auto.
  - destruct (row_body_step width height gx gy y xcoord calls x) as (str & ->).
    destruct (IH (if (x =? 0) || (x =? width - 1) || (Z.rem x (config_size + 1) =? 0)
                  then xcoord else if config_fix_rect then xcoord + 1 else xcoord,
                  calls ++ [mvwaddstr (gy + y) (gx + x + xcoord) str]))
      as (extra & -> & Hlen).
    cbn [snd]. eexists. rewrite <- app_assoc. split; [reflexivity|].
    cbn [app length]. lia.
Qed.

Lemma row_fold_prefix width height gx gy y calls n :
  0 <= n -> n <= width - 1 ->
  fst (foldl (border_row_step config_size config_fix_rect width height gx gy y)
             (0, calls) (seqZ 0 n))
  = xcoord_before config_size config_fix_rect n /\
  length (snd (foldl (border_row_step config_size config_fix_rect width height gx gy y)
                     (0, calls) (seqZ 0 n)))
  = (length calls + Z.to_nat n)%nat.
Proof.
  intros Hn. revert n Hn.
  apply (natlike_ind (fun n => n <= width - 1 ->
           fst (foldl (border_row_step config_size config_fix_rect width height gx gy y)
                      (0, calls) (seqZ 0 n))
           = xcoord_before config_size config_fix_rect n /\
           length (snd (foldl (border_row_step config_size config_fix_rect
                                               width height gx gy y)
                              (0, calls) (seqZ 0 n)))
           = (length calls + Z.to_nat n)%nat)).
  - intros _. change (seqZ 0 0) with (@nil Z). cbn [foldl fst snd]. unfold xcoord_before.
    rewrite Z.add_0_l, Z.div_small by lia.
    destruct config_fix_rect; split; reflexivity || lia.
  - intros n Hn IH Hle. destruct (IH ltac:(lia)) as [Hf Hl].
    unfold Z.succ. rewrite seqZ_app by lia. rewrite foldl_app.
    change (seqZ (0 + n) 1) with [0 + n]. rewrite Z.add_0_l. cbn [foldl].
    destruct (foldl (border_row_step config_size config_fix_rect width height gx gy y)
                    (0, calls) (seqZ 0 n))
      as [xcoord calls'].
    cbn [fst snd] in Hf, Hl. subst xcoord.
    destruct (row_body_step width height gx gy y
                (xcoord_before config_size config_fix_rect n) calls' n) as (str & ->).
    cbn [fst snd]. rewrite length_app. cbn [length]. split; [|lia].
    rewrite shift_succ by lia.
    replace (n =? width - 1) with false by lia. rewrite orb_false_r.
    destruct (Z.eqb_spec n 0) as [-> | Hn0]; cbn [orb]; [|reflexivity].
    rewrite Z.rem_0_l by lia. reflexivity.
Qed.

(** The call for column [x] of a row of the border: after the calls made
    before, on screen row [global_ycoord + y], at screen column
    [global_xcoord + x + xcoord_before config_size config_fix_rect x]. *)
Lemma draw_border_row_call width height gx gy y calls x :
  0 <= x < width ->
  exists str,
    draw_border_row config_size config_fix_rect width height gx gy y calls
      !! (length calls + Z.to_nat x)%nat
    = Some (mvwaddstr (gy + y)
              (gx + x + xcoord_before config_size config_fix_rect x) str) /\
    length (draw_border_row config_size config_fix_rect width height gx gy y calls)
    = (length calls + Z.to_nat width)%nat.
Proof.
  intros Hx. unfold draw_border_row.
  assert (Hsplit : seqZ 0 width = seqZ 0 x ++ [x] ++ seqZ (x + 1) (width - x - 1)).
  { replace width with (x + (1 + (width - x - 1))) at 1 by lia.
    rewrite !seqZ_app by lia. rewrite !Z.add_0_l. reflexivity. }
  rewrite Hsplit, !foldl_app.
  destruct (row_fold_prefix width height gx gy y calls x ltac:(lia) ltac:(lia)) as [Hf Hl].
  destruct (foldl (border_row_step config_size config_fix_rect width height gx gy y)
                  (0, calls) (seqZ 0 x)) as [xcoord calls'].
  cbn [fst snd] in Hf, Hl. subst xcoord. cbn [foldl].
  destruct (row_body_step width height gx gy y
              (xcoord_before config_size config_fix_rect x) calls' x) as (str & ->).
  match goal with
  | |- context [foldl _ ?st ?l] =>
      destruct (row_fold_appends width height gx gy y l st) as (extra & -> & Hlen)
  end.
  cbn [snd]. exists str. split.
  - rewrite <- app_assoc. rewrite lookup_app_r by lia.
    replace (length calls + Z.to_nat x - length calls')%nat with 0%nat by lia.
    reflexivity.
  - rewrite !length_app, Hlen, length_seqZ. cbn [length]. lia.
Qed.

Lemma xcoord_before_cell k j :
  0 <= k -> 0 <= j <= config_size ->
  xcoord_before config_size config_fix_rect (k * (config_size + 1) + j)
  = if config_fix_rect then k * config_size + (if j =? 0 then 0 else j - 1) else 0.
Proof.
  intros Hk Hj. unfold xcoord_before. destruct config_fix_rect; [|reflexivity].
  destruct (Z.eqb_spec j 0) as [-> | Hnz].
  - assert (H : (k * (config_size + 1) + 0 + config_size) / (config_size + 1) = k).
    { symmetry. apply (Z.div_unique_pos _ _ _ config_size); lia. }
    rewrite H. lia.
  - assert (H : (k * (config_size + 1) + j + config_size) / (config_size + 1) = k + 1).
    { symmetry. apply (Z.div_unique_pos _ _ _ (j - 1)); lia. }
    rewrite H. lia.
Qed.

(** The border as [draw_grid] lays it out.  Every row makes one call per
    column; the call for column [k * (size + 1) + j] (the [k]th vertical
    line for [j = 0], else the [j]th piece of the [k]th cell) is made on
    screen row [global_ycoord + y] and, with [config_fix_rect], at screen
    column [global_xcoord + k * (2 * size + 1)] for the line and two columns
    further for every piece after it; without [config_fix_rect] at
    [global_xcoord + k * (size + 1) + j]. *)
Theorem draw_border_row_columns width height global_xcoord global_ycoord y calls k j :
  0 <= k -> 0 <= j <= config_size -> k * (config_size + 1) + j < width ->
  exists str,
    draw_border_row config_size config_fix_rect width height global_xcoord global_ycoord y
                    calls
      !! (length calls + Z.to_nat (k * (config_size + 1) + j))%nat
    = Some (mvwaddstr (global_ycoord + y)
              (global_xcoord +
               (if config_fix_rect
                then k * (2 * config_size + 1) + (if j =? 0 then 0 else 2 * j - 1)
                else k * (config_size + 1) + j))
              str) /\
    length (draw_border_row config_size config_fix_rect width height
                            global_xcoord global_ycoord y calls)
    = (length calls + Z.to_nat width)%nat.
Proof.
  intros Hk Hj Hx.
  destruct (draw_border_row_call width height global_xcoord global_ycoord y calls
              (k * (config_size + 1) + j) ltac:(nia)) as (str & Hcall & Hlen).
  exists str. split; [|exact Hlen].
  rewrite Hcall, (xcoord_before_cell k j Hk Hj). do 2 f_equal.
  destruct config_fix_rect; [|lia]. destruct (j =? 0) eqn:E; lia.
Qed.

(** A number that fits one line of its cell is drawn by a single call of
    [mvwaddstr]. *)
Lemma draw_number_one_line gx gy global_xcoord global_ycoord nbr :
  2 * config_size <= INT_MAX ->
  0 < Z.of_nat (String.length (to_string nbr))
    < (if config_fix_rect then config_size * 2 else config_size) ->
  draw_number to_string config_size config_fix_rect gx gy global_xcoord global_ycoord nbr
  = Ok [mvwaddstr
          (global_ycoord + 1 + gy * (config_size + 1) + (config_size - 1) / 2)
          (global_xcoord + 1 + gx * (config_size + 1) * (if config_fix_rect then 2 else 1)
           + ((if config_fix_rect then config_size * 2 else config_size)
              - Z.of_nat (String.length (to_string nbr))) / 2)
          (to_string nbr)].
Proof.
  intros Hmax Hlen. unfold draw_number.
  replace (Z.of_nat (String.length (to_string nbr)) =? 0) with false by lia.
  rewrite Z.quot_small, Z.rem_small by lia.
  change (0 + 1) with 1. change (1 - 1) with 0.
  change (for_loop 0 _ _) with
    (@Ok (string * list (curses_call string)) (to_string nbr, [])).
  cbn [bind app].
  rewrite (CALC_CENTER_BEGIN_fits config_size 1) by lia.
  rewrite CALC_CENTER_BEGIN_fits by (destruct config_fix_rect; lia).
  do 3 f_equal. lia.
Qed.

(** The numbers drift to the right.  With [config_fix_rect] the left border
    of the cells of grid column [gx] is drawn at screen column
    [global_xcoord + gx * (2 * size + 1)] and the right border [2 * size + 1]
    columns further, but [draw_number] counts [2 * size + 2] columns per
    cell: the number starts [gx] columns to the right of where it would be
    centred in its cell. *)
Theorem draw_number_drifts width height global_xcoord global_ycoord y calls gx gy nbr :
  config_fix_rect = true -> 2 * config_size <= INT_MAX ->
  0 <= gx -> (gx + 1) * (config_size + 1) < width ->
  0 < Z.of_nat (String.length (to_string nbr)) < 2 * config_size ->
  (exists left right,
     draw_border_row config_size config_fix_rect width height global_xcoord global_ycoord y
                     calls
       !! (length calls + Z.to_nat (gx * (config_size + 1)))%nat
     = Some (mvwaddstr (global_ycoord + y)
               (global_xcoord + gx * (2 * config_size + 1)) left) /\
     draw_border_row config_size config_fix_rect width height global_xcoord global_ycoord y
                     calls
       !! (length calls + Z.to_nat ((gx + 1) * (config_size + 1)))%nat
     = Some (mvwaddstr (global_ycoord + y)
               (global_xcoord + gx * (2 * config_size + 1) + (2 * config_size + 1))
               right)) /\
  draw_number to_string config_size config_fix_rect gx gy global_xcoord global_ycoord nbr
  = Ok [mvwaddstr
          (global_ycoord + 1 + gy * (config_size + 1) + (config_size - 1) / 2)
          (global_xcoord + gx * (2 * config_size + 1) + 1
           + gx + (2 * config_size - Z.of_nat (String.length (to_string nbr))) / 2)
          (to_string nbr)].
Proof.
  intros Hfix Hmax Hgx Hw Hlen. split.
  - destruct (draw_border_row_call width height global_xcoord global_ycoord y calls
                (gx * (config_size + 1)) ltac:(nia)) as (l & Hl & _).
    destruct (draw_border_row_call width height global_xcoord global_ycoord y calls
                ((gx + 1) * (config_size + 1)) ltac:(nia)) as (r & Hr & _).
    exists l, r.
    assert (H1 : xcoord_before config_size config_fix_rect (gx * (config_size + 1))
                 = gx * config_size).
    { pose proof (xcoord_before_cell gx 0 Hgx ltac:(lia)) as H.
      rewrite Z.add_0_r in H. rewrite H, Hfix. change (0 =? 0) with true. cbv iota. lia. }
    assert (H2 : xcoord_before config_size config_fix_rect ((gx + 1) * (config_size + 1))
                 = (gx + 1) * config_size).
    { pose proof (xcoord_before_cell (gx + 1) 0 ltac:(lia) ltac:(lia)) as H.
      rewrite Z.add_0_r in H. rewrite H, Hfix. change (0 =? 0) with true. cbv iota. lia. }
    rewrite Hl, Hr, H1, H2. split; do 2 f_equal; lia.
  - rewrite draw_number_one_line by (rewrite ?Hfix; lia).
    rewrite Hfix. do 3 f_equal.
    replace (config_size * 2) with (2 * config_size) by lia. lia.
Qed.

Lemma draw_number_char_empty ypos (xpos : Z -> Z) l : forall calls,
  for_list (fun x st => draw_number_char ypos (xpos x) st) l (EmptyString, calls)
  = Ok (EmptyString, calls ++ map (fun x => mvwaddch ypos (xpos x) zero) l).
Proof.
  induction l as [|x l IH]; intros calls; cbn [for_list map].
  - rewrite app_nil_r. reflexivity.
  - cbn [draw_number_char bind]. rewrite IH, <- app_assoc. reflexivity.
Qed.

Lemma draw_number_rows_empty (ypos xpos : Z -> Z) l : forall calls,
  for_list (fun y st =>
              for_loop config_size (fun x st => draw_number_char (ypos y) (xpos x) st) st)
           l (EmptyString, calls)
  = Ok (EmptyString,
        calls ++ flat_map (fun y => map (fun x => mvwaddch (ypos y) (xpos x) zero)
                                        (seqZ 0 config_size)) l).
Proof.
  induction l as [|y l IH]; intros calls; cbn [for_list flat_map].
  - rewrite app_nil_r. reflexivity.
  - unfold for_loop at 1. rewrite (draw_number_char_empty (ypos y) xpos). cbn [bind].
    rewrite IH, <- app_assoc. reflexivity.
Qed.

(** A number with as many digits as a line of its cell holds, or more, is
    not drawn: the first character is written, [str.erase(0)] then empties
    the string, every later [str.front()] yields the character 0, and the
    last line is the empty string.  The calls are [(lines - 1) * size] of
    [mvwaddch], of which only the first carries a digit, and one
    [mvwaddstr] of the empty string. *)
Theorem draw_number_long gx gy global_xcoord global_ycoord nbr :
  (if config_fix_rect then config_size * 2 else config_size)
  <= Z.of_nat (String.length (to_string nbr)) ->
  exists ch tail rest,
    to_string nbr = String ch tail /\
    draw_number to_string config_size config_fix_rect gx gy global_xcoord global_ycoord nbr
    = Ok (mvwaddch
            (global_ycoord + 1 + gy * (config_size + 1)
             + CALC_CENTER_BEGIN config_size
                 (Z.quot (Z.of_nat (String.length (to_string nbr)))
                         (if config_fix_rect then config_size * 2 else config_size) + 1))
            (global_xcoord + 1 + gx * (config_size + 1) * (if config_fix_rect then 2 else 1))
            ch
          :: rest ++
          [mvwaddstr
             (global_ycoord + 1 + gy * (config_size + 1)
              + CALC_CENTER_BEGIN config_size
                  (Z.quot (Z.of_nat (String.length (to_string nbr)))
                          (if config_fix_rect then config_size * 2 else config_size) + 1)
              + Z.quot (Z.of_nat (String.length (to_string nbr)))
                       (if config_fix_rect then config_size * 2 else config_size))
             (global_xcoord + 1 + gx * (config_size + 1) * (if config_fix_rect then 2 else 1)
              + CALC_CENTER_BEGIN
                  (if config_fix_rect then config_size * 2 else config_size)
                  (Z.rem (Z.of_nat (String.length (to_string nbr)))
                         (if config_fix_rect then config_size * 2 else config_size)))
             EmptyString]) /\
    Forall (fun c => exists y x, c = mvwaddch y x zero) rest /\
    Z.of_nat (length rest)
    = Z.quot (Z.of_nat (String.length (to_string nbr)))
             (if config_fix_rect then config_size * 2 else config_size) * config_size - 1.
Proof.
  intros Hlen. unfold draw_number.
  set (xsize := if config_fix_rect then config_size * 2 else config_size) in *.
  assert (Hx : 0 < xsize) by (unfold xsize; destruct config_fix_rect; lia).
  replace (Z.of_nat (String.length (to_string nbr)) =? 0) with false by lia.
  set (q := Z.quot (Z.of_nat (String.length (to_string nbr))) xsize).
  assert (Hq : 1 <= q).
  { unfold q. rewrite Z.quot_div_nonneg by lia. apply Z.div_le_lower_bound; lia. }
  replace (q + 1 - 1) with q by lia.
  destruct (to_string nbr) as [|ch tail] eqn:Estr; [cbn in Hlen; lia|].
  exists ch, tail.
  set (Y := global_ycoord + 1 + gy * (config_size + 1) + CALC_CENTER_BEGIN config_size (q + 1)).
  set (X := global_xcoord + 1 + gx * (config_size + 1) * (if config_fix_rect then 2 else 1)).
  remember (map (fun x => @mvwaddch string (Y + 0) (X + x) zero)
                (seqZ 1 (config_size - 1)) ++
            flat_map (fun y => map (fun x => @mvwaddch string (Y + y) (X + x) zero)
                                   (seqZ 0 config_size)) (seqZ 1 (q - 1)))
    as rest eqn:Hrest.
  exists rest.
  split; [reflexivity|]. conjs.
  - unfold for_loop at 1. rewrite (seqZ_cons 0 q) by lia. cbn [for_list].
    unfold for_loop at 1. rewrite (seqZ_cons 0 config_size) by lia.
    cbn [for_list draw_number_char bind app].
    change (Z.succ 0) with 1. change (Z.pred q) with (q - 1).
    change (Z.pred config_size) with (config_size - 1).
    rewrite (draw_number_char_empty (Y + 0) (fun x => X + x)). cbn [bind].
    rewrite (draw_number_rows_empty (fun y => Y + y) (fun x => X + x)). cbn [bind].
    subst rest. cbn [app]. rewrite <- !app_assoc. rewrite (Z.add_0_r X).
    replace (Y + (q + 1) - 1) with (Y + q) by lia.
    replace (Y + 0) with Y by lia. reflexivity.
  - subst rest. apply Forall_app. split.
    + apply Forall_forall. intros c Hc.
      apply list_elem_of_In, in_map_iff in Hc as (x & <- & _). eauto.
    + apply Forall_forall. intros c Hc.
      apply list_elem_of_In, in_flat_map in Hc as (y & _ & Hc).
      apply in_map_iff in Hc as (x & <- & _). eauto.
  - subst rest. rewrite length_app, length_map, length_seqZ.
    rewrite (flat_map_constant_length (c := Z.to_nat config_size)).
    + rewrite length_seqZ. nia.
    + intros y _. rewrite length_map, length_seqZ. reflexivity.
Qed.

Lemma for_list_appends {A : Type} (body : Z -> list A -> res (list A)) (f : Z -> list A) l :
  (forall i, In i l -> forall c, body i c = Ok (c ++ f i)) ->
  forall c, for_list body l c = Ok (c ++ flat_map f l).
Proof.
  induction l as [|i l IH]; intros Hb c; cbn [for_list flat_map].
  - rewrite app_nil_r. reflexivity.
  - rewrite (Hb i (or_introl eq_refl)). cbn [bind].
    rewrite IH by (intros j Hj; apply Hb; right; exact Hj).
    rewrite app_assoc. reflexivity.
Qed.

Lemma border_rows_length width height gx gy l : forall calls,
  0 <= width ->
  length (foldl (fun calls y =>
                   draw_border_row config_size config_fix_rect width height gx gy y calls)
                calls l)
  = (length calls + length l * Z.to_nat width)%nat.
Proof.
  induction l as [|y l IH]; intros calls Hw; cbn [foldl length]; [lia|].
  rewrite IH by exact Hw. unfold draw_border_row.
  destruct (row_fold_appends width height gx gy y (seqZ 0 width) (0, calls))
    as (extra & -> & Hlen).
  cbn [snd]. rewrite length_app, Hlen, length_seqZ. lia.
Qed.

(** [draw_grid] on a board whose numbers all fit one line of a cell: it does
    not fail; it first draws the border, one call for each of the
    [(w * (size + 1) + 1) * (h * (size + 1) + 1)] positions, and then makes
    exactly one call of [mvwaddstr] for each tile, column by column, in the
    middle row of the cell. *)
Theorem draw_grid_short_numbers maxx maxy grid :
  wf grid -> 2 * config_size <= INT_MAX ->
  (forall c, In c (mGrid grid) -> c <> 0 ->
     0 < Z.of_nat (String.length (to_string (c mod 2 ^ 64)))
       < (if config_fix_rect then config_size * 2 else config_size)) ->
  exists border,
    Z.of_nat (length border)
    = (mWidth grid * (config_size + 1) + 1) * (mHeight grid * (config_size + 1) + 1) /\
    draw_grid to_string config_size config_fix_rect maxx maxy grid
    = Ok (border ++
          flat_map (fun x =>
            flat_map (fun y =>
              if cell grid x y =? 0 then []
              else
                [mvwaddstr
                   (CALC_CENTER_BEGIN maxy (mHeight grid * config_size + mHeight grid + 1)
                    + 1 + y * (config_size + 1) + (config_size - 1) / 2)
                   (CALC_CENTER_BEGIN maxx
                      (mWidth grid * config_size + mWidth grid + 1
                       + (if config_fix_rect then mWidth grid * config_size else 0))
                    + 1 + x * (config_size + 1) * (if config_fix_rect then 2 else 1)
                    + ((if config_fix_rect then config_size * 2 else config_size)
                       - Z.of_nat (String.length (to_string (cell grid x y mod 2 ^ 64))))
                      / 2)
                   (to_string (cell grid x y mod 2 ^ 64))])
              (seqZ 0 (mHeight grid)))
            (seqZ 0 (mWidth grid))).
Proof.
  intros Hwf Hmax Hshort.
  pose proof (wf_width grid Hwf) as Hw. pose proof (wf_height grid Hwf) as Hh.
  unfold draw_grid, width, height.
  eexists. split; [|unfold for_loop; apply for_list_appends].
  - rewrite border_rows_length by nia. rewrite length_seqZ. cbn [length]. nia.
  - intros x Hx calls. apply for_list_appends. intros y Hy calls'.
    apply list_elem_of_In, elem_of_seqZ in Hx. apply list_elem_of_In, elem_of_seqZ in Hy.
    assert (Hin : in_bounds grid x y) by (split; lia).
    rewrite (get_const_cell grid x y Hwf Hin). cbn [bind].
    destruct (Z.eqb_spec (cell grid x y) 0) as [Hz | Hnz]; cbn [negb].
    + rewrite app_nil_r. reflexivity.
    + rewrite draw_number_one_line; [reflexivity | exact Hmax |].
      apply Hshort; [|exact Hnz].
      pose proof (lcell_In UP grid x y Hwf) as Hc. apply Hc. split; simpl; lia.
Qed.

End DrawFacts.

Lemma draw_border_row_columns_witness :
  exists str,
    draw_border_row 5 true 25 37 10 3 6 [] !! (0 + Z.to_nat (2 * (5 + 1) + 3))%nat
    = Some (mvwaddstr (3 + 6)
              (10 + (if true then 2 * (2 * 5 + 1) + (if 3 =? 0 then 0 else 2 * 3 - 1)
                     else 2 * (5 + 1) + 3))
              str) /\
    length (draw_border_row 5 true 25 37 10 3 6 []) = (0 + Z.to_nat 25)%nat.
Proof. apply (draw_border_row_columns 5 true ltac:(lia) 25 37 10 3 6 [] 2 3); lia. Defined.

Lemma draw_number_drifts_witness :
  (exists left right,
     draw_border_row 5 true 25 37 10 3 6 [] !! (0 + Z.to_nat (3 * (5 + 1)))%nat
     = Some (mvwaddstr (3 + 6) (10 + 3 * (2 * 5 + 1)) left) /\
     draw_border_row 5 true 25 37 10 3 6 [] !! (0 + Z.to_nat ((3 + 1) * (5 + 1)))%nat
     = Some (mvwaddstr (3 + 6) (10 + 3 * (2 * 5 + 1) + (2 * 5 + 1)) right)) /\
  draw_number decimal 5 true 3 1 10 3 2048
  = Ok [mvwaddstr (3 + 1 + 1 * (5 + 1) + (5 - 1) / 2)
          (10 + 3 * (2 * 5 + 1) + 1 + 3
           + (2 * 5 - Z.of_nat (String.length (decimal 2048))) / 2)
          (decimal 2048)].
Proof.
  apply (draw_number_drifts decimal 5 true ltac:(lia) 25 37 10 3 6 [] 3 1 2048).
  - reflexivity.
  - unfold INT_MAX. lia.
  - lia.
  - lia.
  - vm_compute. split; reflexivity.
Defined.

Lemma draw_number_long_witness :
  exists ch tail rest,
    decimal (2 ^ 30) = String ch tail /\
    draw_number decimal 5 true 0 0 10 3 (2 ^ 30)
    = Ok (mvwaddch
            (3 + 1 + 0 * (5 + 1)
             + CALC_CENTER_BEGIN 5
                 (Z.quot (Z.of_nat (String.length (decimal (2 ^ 30))))
                         (if true then 5 * 2 else 5) + 1))
            (10 + 1 + 0 * (5 + 1) * (if true then 2 else 1))
            ch
          :: rest ++
          [mvwaddstr
             (3 + 1 + 0 * (5 + 1)
              + CALC_CENTER_BEGIN 5
                  (Z.quot (Z.of_nat (String.length (decimal (2 ^ 30))))
                          (if true then 5 * 2 else 5) + 1)
              + Z.quot (Z.of_nat (String.length (decimal (2 ^ 30))))
                       (if true then 5 * 2 else 5))
             (10 + 1 + 0 * (5 + 1) * (if true then 2 else 1)
              + CALC_CENTER_BEGIN
                  (if true then 5 * 2 else 5)
                  (Z.rem (Z.of_nat (String.length (decimal (2 ^ 30))))
                         (if true then 5 * 2 else 5)))
             EmptyString]) /\
    Forall (fun c => exists y x, c = mvwaddch y x zero) rest /\
    Z.of_nat (length rest)
    = Z.quot (Z.of_nat (String.length (decimal (2 ^ 30))))
             (if true then 5 * 2 else 5) * 5 - 1.
Proof.
  apply (draw_number_long decimal 5 true ltac:(lia) 0 0 10 3 (2 ^ 30)).
  vm_compute. discriminate.
Defined.

Lemma draw_grid_short_numbers_witness :
  exists border,
    Z.of_nat (length border) = (2 * (5 + 1) + 1) * (1 * (5 + 1) + 1) /\
    draw_grid decimal 5 true 80 24 (mkGrid 2 1 [0; 16] 0)
    = Ok (border ++
          flat_map (fun x =>
            flat_map (fun y =>
              if cell (mkGrid 2 1 [0; 16] 0) x y =? 0 then []
              else
                [mvwaddstr
                   (CALC_CENTER_BEGIN 24 (1 * 5 + 1 + 1)
                    + 1 + y * (5 + 1) + (5 - 1) / 2)
                   (CALC_CENTER_BEGIN 80 (2 * 5 + 2 + 1 + (if true then 2 * 5 else 0))
                    + 1 + x * (5 + 1) * (if true then 2 else 1)
                    + ((if true then 5 * 2 else 5)
                       - Z.of_nat (String.length
                                     (decimal (cell (mkGrid 2 1 [0; 16] 0) x y mod 2 ^ 64))))
                      / 2)
                   (decimal (cell (mkGrid 2 1 [0; 16] 0) x y mod 2 ^ 64))])
              (seqZ 0 1))
            (seqZ 0 2)).
Proof.
  apply (draw_grid_short_numbers decimal 5 true ltac:(lia) 80 24 (mkGrid 2 1 [0; 16] 0)).
  - solve_wf.
  - unfold INT_MAX. lia.
  - simpl. intros c [<- | [<- | []]] Hc; [lia|]. vm_compute. split; reflexivity.
Defined.
